(** * vs_library.tools.pandas_extension: the fuzzy row matcher

    A shallow embedding of [adjusted_uniqueness], [get_column_dupes] and the
    class [PandasMatcher] (its two table setters, [_choices], [__subset],
    [_compute_score], [_top_matches] and [match]), followed by the properties
    of the matching engine.  The other functions of the module
    ([uniqueness], [column_group_percentage], [get_column_blanks], the
    property [similarities], [read_spreadsheet] and [to_spreadsheet]) and
    [will_it_int] of [vs_library.database.database_cli] are embedded after
    them, with their properties in the second part of the development.

    Modelling conventions.
    - A Python [float] is an exact rational ([Q]): comparisons, sums,
      products and quotients are the exact ones, and [round(x, 2)] rounds the
      exact value half-to-even.  Representation error of binary floating
      point is not modelled.
    - A [dict] is an association list in insertion order with first-match
      lookup; every key of [columns_to_match] owns its own list.
    - A [pandas.DataFrame] is the ordered list of its named columns; rows are
      addressed by position (the default [RangeIndex]).
    - Python exceptions are the constructors of [exn]; code that can raise
      lives in the [result] monad.
    - [process.extract] and [fuzz.WRatio] belong to the fuzzy-matching
      library, [tqdm] is a progress bar: the scorer is a section variable,
      [extract] follows the library's documented behaviour, [tqdm] is the
      identity on the range it wraps. *)

From Stdlib Require Import List String Ascii Bool Arith ZArith QArith Qround.
From Stdlib Require Import Lia Lqa Permutation DecimalString.
Import ListNotations.

Set Implicit Arguments.

(** ** Exceptions and the error monad *)

Inductive exn : Type :=
| ZeroDivisionError
| KeyError (key : string)
| IndexError.

Inductive result (A : Type) : Type :=
| Ok (a : A)
| Raise (e : exn).

Arguments Ok {A} a.
Arguments Raise {A} e.

Definition bind {A B : Type} (r : result A) (k : A -> result B) : result B :=
  match r with
  | Ok a => k a
  | Raise e => Raise e
  end.

Notation "x <- e ;; k" := (bind e (fun x => k))
  (at level 61, e at next level, right associativity).

Fixpoint mapM {A B : Type} (f : A -> result B) (l : list A) : result (list B) :=
  match l with
  | [] => Ok []
  | x :: tl => y <- f x ;; ys <- mapM f tl ;; Ok (y :: ys)
  end.

(** A [for] loop whose body can raise: the state is threaded left to right. *)
Fixpoint foldM {A S : Type} (body : S -> A -> result S) (l : list A) (s : S)
  : result S :=
  match l with
  | [] => Ok s
  | x :: tl => s' <- body s x ;; foldM body tl s'
  end.

(** ** Numbers *)

Definition Qlt_bool (a b : Q) : bool := negb (Qle_bool b a).

Definition round_half_even (q : Q) : Z :=
  let f := Qfloor q in
  match (q - inject_Z f ?= 1 # 2)%Q with
  | Lt => f
  | Gt => (f + 1)%Z
  | Eq => if Z.even f then f else (f + 1)%Z
  end.

(** [round(x, ndigits)] *)
Definition py_round (x : Q) (ndigits : nat) : Q :=
  let scale := inject_Z (10 ^ Z.of_nat ndigits) in
  (inject_Z (round_half_even (x * scale)) / scale)%Q.

(** [sum(l)], starting from 0 and adding left to right. *)
Definition py_sum (l : list Q) : Q := fold_left Qplus l 0%Q.

(** [max] of a first element and the rest: the first maximal element wins. *)
Definition py_max (x : Q) (l : list Q) : Q :=
  fold_left (fun best y => if Qlt_bool best y then y else best) l x.

Definition py_min (x : Q) (l : list Q) : Q :=
  fold_left (fun best y => if Qlt_bool y best then y else best) l x.

(** [x / n] for an integer count [n]. *)
Definition py_div (x : Q) (n : nat) : result Q :=
  match n with
  | O => Raise ZeroDivisionError
  | S _ => Ok (x / inject_Z (Z.of_nat n))%Q
  end.

(** [str(z)] for an integer. *)
Definition str_of_Z (z : Z) : string := NilZero.string_of_int (Z.to_int z).

(** [sep.join(l)] *)
Fixpoint join (sep : string) (l : list string) : string :=
  match l with
  | [] => EmptyString
  | [s] => s
  | s :: tl => (s ++ sep ++ join sep tl)%string
  end.

(** ** Insertion-ordered dictionaries *)

Section Dict.
Variables K V : Type.
Variable eqb : K -> K -> bool.

Definition dict := list (K * V).

Fixpoint dict_get (k : K) (d : dict) : option V :=
  match d with
  | [] => None
  | (k', v) :: tl => if eqb k' k then Some v else dict_get k tl
  end.

Definition dict_mem (k : K) (d : dict) : bool :=
  match dict_get k d with Some _ => true | None => false end.

(** [d[k] = v]: overwrite in place, or append a new key at the end. *)
Fixpoint dict_set (k : K) (v : V) (d : dict) : dict :=
  match d with
  | [] => [(k, v)]
  | (k', v') :: tl =>
      if eqb k' k then (k', v) :: tl else (k', v') :: dict_set k v tl
  end.

(** [defaultdict]: [d[k] = f(d[k])] with [dflt] created for a missing key. *)
Definition dict_update (dflt : V) (f : V -> V) (k : K) (d : dict) : dict :=
  match dict_get k d with
  | Some v => dict_set k (f v) d
  | None => dict_set k (f dflt) d
  end.

Definition keys (d : dict) : list K := map fst d.
Definition values (d : dict) : list V := map snd d.
End Dict.

Arguments dict_get {K V} eqb k d.
Arguments dict_mem {K V} eqb k d.
Arguments dict_set {K V} eqb k v d.
Arguments dict_update {K V} eqb dflt f k d.
Arguments keys {K V} d.
Arguments values {K V} d.

(** ** Tables *)

Definition DataFrame (A : Type) : Type := list (string * list A).

Definition columns {A} (df : DataFrame A) : list string := map fst df.

(** [len(df)]: the number of rows. *)
Definition len {A} (df : DataFrame A) : nat :=
  match df with
  | [] => 0
  | (_, cells) :: _ => List.length cells
  end.

(** All columns share the index of the table. *)
Definition wf_df {A} (df : DataFrame A) : Prop :=
  Forall (fun col => List.length (snd col) = len df) df.

Definition has_column {A} (c : string) (df : DataFrame A) : bool :=
  dict_mem String.eqb c df.

(** [df[c]] *)
Definition getitem {A} (df : DataFrame A) (c : string) : result (list A) :=
  match dict_get String.eqb c df with
  | Some cells => Ok cells
  | None => Raise (KeyError c)
  end.

(** [df[cols]] for a list of column names. *)
Definition getitems {A} (df : DataFrame A) (cols : list string)
  : result (DataFrame A) :=
  mapM (fun c => cells <- getitem df c ;; Ok (c, cells)) cols.

(** [df.iloc[i]]: the row at position [i] as a name-indexed record. *)
Definition iloc {A} (df : DataFrame A) (i : nat) : result (list (string * A)) :=
  mapM (fun col : string * list A =>
          match nth_error (snd col) i with
          | Some v => Ok (fst col, v)
          | None => Raise IndexError
          end) df.

(** [row[c]] *)
Definition row_get {A} (row : list (string * A)) (c : string) : result A :=
  match dict_get String.eqb c row with
  | Some v => Ok v
  | None => Raise (KeyError c)
  end.

(** The list [l] with position [i] replaced by [v] (unchanged out of range). *)
Fixpoint list_set {A} (i : nat) (v : A) (l : list A) : list A :=
  match l, i with
  | [], _ => []
  | _ :: tl, O => v :: tl
  | x :: tl, S j => x :: list_set j v tl
  end.

(** [df.at[i, c]] *)
Definition at_get {A} (df : DataFrame A) (i : nat) (c : string) : option A :=
  match dict_get String.eqb c df with
  | Some cells => nth_error cells i
  | None => None
  end.

(** [df.at[i, c] = v] on an existing column. *)
Definition at_set {A} (df : DataFrame A) (i : nat) (c : string) (v : A)
  : DataFrame A :=
  map (fun col : string * list A =>
         if String.eqb (fst col) c then (fst col, list_set i v (snd col))
         else col) df.

(** [df[c] = v] with a scalar [v]: the column is overwritten or appended. *)
Definition set_column {A} (df : DataFrame A) (c : string) (v : A)
  : DataFrame A :=
  dict_set String.eqb c (repeat v (len df)) df.

(** [df.astype(str).replace('nan', '')]; the table arrives with its cells
    already rendered by [str], a missing value reading ["nan"]. *)
Definition replace_nan (df : DataFrame string) : DataFrame string :=
  map (fun col : string * list string =>
         (fst col,
          map (fun s => if String.eqb s "nan" then EmptyString else s) (snd col)))
      df.

(** [Series.nunique()]: the number of distinct values. *)
Definition nunique (cells : list string) : nat :=
  List.length (nodup string_dec cells).

(** ** Column statistics *)

(** [adjusted_uniqueness(df, selected_cols)] *)
Definition adjusted_uniqueness (df : DataFrame string) (selected_cols : list string)
  : result (dict string Q) :=
  sub <- getitems df selected_cols ;;
  u <- mapM (fun col : string * list string =>
               x <- py_div (inject_Z (Z.of_nat (nunique (snd col)))) (len df) ;;
               Ok (fst col, x)) sub ;;
  Ok (map (fun cx : string * Q => (fst cx, (snd cx / py_sum (values u))%Q)) u).

(** ** Cells of the result table *)

(** A cell of the result table holds a Python object: a string, an integer
    ([row_index] of a unique match), a float ([match_score]) or [numpy.nan]. *)
Inductive pyobj : Type :=
| PStr (s : string)
| PInt (z : Z)
| PFloat (q : Q)
| PNaN.

(** Equality as pandas' object hash table sees it: Python's [==], with
    missing values equal to each other. *)
Definition pyobj_eqb (a b : pyobj) : bool :=
  match a, b with
  | PStr s, PStr t => String.eqb s t
  | PInt x, PInt y => Z.eqb x y
  | PFloat p, PFloat q => Qeq_bool p q
  | PInt x, PFloat q | PFloat q, PInt x => Qeq_bool (inject_Z x) q
  | PNaN, PNaN => true
  | _, _ => false
  end.

Definition notna (v : pyobj) : bool :=
  match v with PNaN => false | _ => true end.

Definition MATCHED : pyobj := PStr "MATCHED".
Definition REVIEW : pyobj := PStr "REVIEW".
Definition AMBIGUOUS : pyobj := PStr "AMBIGUOUS".
Definition UNMATCHED : pyobj := PStr "UNMATCHED".
Definition DUPLICATES : pyobj := PStr "DUPLICATES".
Definition blank : pyobj := PStr "".

(** [df.replace('', numpy.nan)] *)
Definition blank_to_nan (v : pyobj) : pyobj :=
  if pyobj_eqb v blank then PNaN else v.

Definition replace_blank (df : DataFrame pyobj) : DataFrame pyobj :=
  map (fun col : string * list pyobj => (fst col, map blank_to_nan (snd col))) df.

(** The number of cells equal to [v]. *)
Definition occurrences (v : pyobj) (cells : list pyobj) : nat :=
  List.length (filter (pyobj_eqb v) cells).

(** [Series.duplicated(keep=False)]: every cell that occurs more than once. *)
Definition duplicated (cells : list pyobj) : list bool :=
  map (fun v => (2 <=? occurrences v cells)%nat) cells.

(** [get_column_dupes(df, column)]; of the rows selected by the mask only
    their index and their cell in [column] are returned, so only these are
    kept. *)
Definition get_column_dupes (df : DataFrame pyobj) (column : string)
  : result (list nat * list pyobj) :=
  let temp_df := replace_blank df in
  cells <- getitem temp_df column ;;
  let column_check := duplicated cells in
  let df_dupe :=
    filter (fun row : nat * (bool * pyobj) => fst (snd row) && notna (snd (snd row)))
           (combine (seq 0 (List.length cells)) (combine column_check cells)) in
  Ok (map fst df_dupe, map (fun row => snd (snd row)) df_dupe).

(** [df.loc[index, c] = v] *)
Definition loc_set (df : DataFrame pyobj) (index : list nat) (c : string) (v : pyobj)
  : DataFrame pyobj :=
  fold_left (fun d i => at_set d i c v) index df.

(** Stable sort, largest first; [le y x] reads "y ranks no higher than x". *)
Fixpoint insert_desc {A} (le : A -> A -> bool) (x : A) (l : list A) : list A :=
  match l with
  | [] => [x]
  | y :: tl => if le y x then x :: l else y :: insert_desc le x tl
  end.

Definition sort_desc {A} (le : A -> A -> bool) (l : list A) : list A :=
  fold_right (insert_desc le) [] l.

(** [Series.value_counts()]: the distinct values with their counts, the most
    frequent first. *)
Definition value_counts (cells : list pyobj) : dict pyobj nat :=
  sort_desc (fun a b : pyobj * nat => (snd a <=? snd b)%nat)
            (fold_left (fun d v => dict_update pyobj_eqb 0%nat S v d) cells []).

(** ** The matcher *)

Record PandasMatcher : Type := {
  df_to : DataFrame string;
  df_from : DataFrame string;
  column_threshold : dict string Q;
  columns_to_match : dict string (list string);
  columns_to_get : list string;
  column_groups : list string;
  required_threshold : Q;
  cutoff : bool
}.

(** [PandasMatcher()] *)
Definition init : PandasMatcher :=
  {| df_to := []; df_from := [];
     column_threshold := []; columns_to_match := [];
     columns_to_get := []; column_groups := [];
     required_threshold := 75; cutoff := false |}.

(** The setter of [df_to]. *)
Definition set_df_to (self : PandasMatcher) (df : DataFrame string) : PandasMatcher :=
  let df' := replace_nan df in
  let step (st : dict string Q * dict string (list string)) (column_to : string) :=
    let thr := dict_set String.eqb column_to (required_threshold self) (fst st) in
    if has_column column_to (df_from self)
    then (thr, dict_update String.eqb [] (fun l => l ++ [column_to]) column_to (snd st))
    else (thr, dict_set String.eqb column_to [] (snd st)) in
  let st := fold_left step (columns df') (column_threshold self, []) in
  {| df_to := df'; df_from := df_from self;
     column_threshold := fst st; columns_to_match := snd st;
     columns_to_get := columns_to_get self; column_groups := column_groups self;
     required_threshold := required_threshold self; cutoff := cutoff self |}.

(** The setter of [df_from]. *)
Definition set_df_from (self : PandasMatcher) (df : DataFrame string) : PandasMatcher :=
  let df' := replace_nan df in
  let cleared := map (fun kv : string * list string => (fst kv, @nil string))
                     (columns_to_match self) in
  let step (d : dict string (list string)) (column_from : string) :=
    if dict_mem String.eqb column_from d
    then dict_update String.eqb [] (fun l => l ++ [column_from]) column_from d
    else d in
  {| df_to := df_to self; df_from := df';
     column_threshold := column_threshold self;
     columns_to_match := fold_left step (columns df') cleared;
     columns_to_get := [];
     column_groups := column_groups self;
     required_threshold := required_threshold self; cutoff := cutoff self |}.

(** [self.column_threshold[c]] of a [defaultdict(float)]. *)
Definition threshold_of (self : PandasMatcher) (c : string) : Q :=
  match dict_get String.eqb c (column_threshold self) with
  | Some t => t
  | None => 0%Q
  end.

(** [uniqueness[c]] of a Series indexed by column name. *)
Definition series_get {A} (s : dict string A) (c : string) : result A :=
  match dict_get String.eqb c s with
  | Some v => Ok v
  | None => Raise (KeyError c)
  end.

(** The keys of the mapping whose list is not empty (line 315). *)
Definition active_columns (self : PandasMatcher) : list string :=
  map fst (filter (fun kv : string * list string =>
                     match snd kv with [] => false | _ => true end)
                  (columns_to_match self)).

(** [_choices]: per mapped target column, the space-joined reference cells. *)
Definition _choices (self : PandasMatcher) : result (dict string (list string)) :=
  foldM (fun choices (item : string * list string) =>
           let column_to := fst item in
           foldM (fun choices column_from =>
                    cells <- getitem (df_from self) column_from ;;
                    match dict_get String.eqb column_to choices with
                    | None => Ok (dict_set String.eqb column_to cells choices)
                    | Some cur =>
                        Ok (dict_set String.eqb column_to
                              (map (fun ab : string * string =>
                                      (fst ab ++ " " ++ snd ab)%string)
                                   (combine cur cells))
                              choices)
                    end)
                 (snd item) choices)
        (columns_to_match self) [].

(** [__subset]: the positions of the reference rows that agree with [row] on
    every group column. *)
Definition __subset (self : PandasMatcher) (row : list (string * string))
  : result (list nat) :=
  foldM (fun index group =>
           col <- getitem (df_from self) group ;;
           v <- row_get row group ;;
           Ok (filter (fun p => match nth_error col p with
                                | Some x => String.eqb x v
                                | None => false
                                end) index))
        (column_groups self) (seq 0 (len (df_from self))).

(** [choice.iloc[indices]]: the selected cells, each with its index label. *)
Definition take (choice : list string) (indices : list nat)
  : result (list (nat * string)) :=
  mapM (fun p => match nth_error choice p with
                 | Some s => Ok (p, s)
                 | None => Raise IndexError
                 end) indices.

(** The whole Series with its index labels. *)
Definition items (choice : list string) : list (nat * string) :=
  combine (seq 0 (List.length choice)) choice.

(** Lines 282-284: the restricted pool, or the whole column when it is empty. *)
Definition candidate_query (choice : list string) (indices : list nat)
  : result (list (nat * string)) :=
  query <- take choice indices ;;
  Ok (match query with [] => items choice | _ => query end).

(** [_top_matches]: the candidates at the maximum that clear the threshold. *)
Record TopMatch : Type := { match_status : pyobj; match_score : Q }.

(** [max(y.values())]; Python raises on an empty dict ([None]). *)
Definition max_values (y : dict nat Q) : option Q :=
  match values y with
  | [] => None
  | v0 :: vs => Some (py_max v0 vs)
  end.

(** The comprehension tests [v == max(y.values())] once per item, so an
    empty dict never reaches [max]. *)
Definition filter_highest (y : dict nat Q) : dict nat Q :=
  filter (fun kv : nat * Q =>
            match max_values y with
            | Some highest => Qeq_bool (snd kv) highest
            | None => false
            end) y.

Definition _top_matches (self : PandasMatcher) (match_scores : dict nat Q)
           (optimal_threshold : Q) : dict nat TopMatch :=
  map (fun kv : nat * Q =>
         (fst kv,
          {| match_status :=
               if Qlt_bool (snd kv) optimal_threshold then REVIEW else MATCHED;
             match_score := snd kv |}))
      (filter (fun kv : nat * Q =>
                 Qle_bool (py_round (required_threshold self) 2)
                          (py_round (snd kv) 2))
              (filter_highest match_scores)).

(** An entry of the summary: a number rendered with a trailing percent sign
    by the f-string, or a status count taken over from [value_counts]. *)
Inductive info : Type :=
| Percent (v : pyobj)
| Count (n : nat).

Section Matcher.

(** [fuzz.WRatio], composed with the library's default preprocessing. *)
Variable WRatio : string -> string -> Q.

(** [process.extract(query, choices, scorer, limit, score_cutoff)]: every
    choice is scored, scores below the cutoff are dropped, and the [limit]
    best are returned, best first, as (choice, score, key). *)
Definition extract (query : string) (choices : list (nat * string))
           (limit : nat) (score_cutoff : Q) : list (string * Q * nat) :=
  let scored := map (fun kc : nat * string =>
                       (snd kc, WRatio query (snd kc), fst kc)) choices in
  let kept := filter (fun r : string * Q * nat =>
                        Qle_bool score_cutoff (snd (fst r))) scored in
  firstn limit
         (sort_desc (fun a b : string * Q * nat =>
                       Qle_bool (snd (fst a)) (snd (fst b))) kept).

(** Lines 292-293: the matches of one column are added to the running
    totals. *)
Definition accumulate (uniqueness : dict string Q) (column_to : string)
           (matches : list (string * Q * nat)) (match_scores : dict nat Q)
  : result (dict nat Q) :=
  foldM (fun ms (m : string * Q * nat) =>
           let score := snd (fst m) in
           let index_from := snd m in
           w <- series_get uniqueness column_to ;;
           Ok (dict_update Nat.eqb 0%Q (fun x => (x + score * w)%Q) index_from ms))
        matches match_scores.

(** Lines 280-293: one mapped column of [_compute_score]. *)
Definition score_column (self : PandasMatcher)
           (choices : dict string (list string)) (uniqueness : dict string Q)
           (row_to : list (string * string)) (indices_to_compare : list nat)
           (match_scores : dict nat Q) (item : string * list string)
  : result (dict nat Q) :=
  let column_to := fst item in
  match snd item with
  | [] => Ok match_scores
  | _ :: _ =>
      value_to_compare <- row_get row_to column_to ;;
      choice <- series_get choices column_to ;;
      query <- candidate_query choice indices_to_compare ;;
      let matches :=
        extract value_to_compare query (len (df_from self))
                (if negb (cutoff self) then 0%Q
                 else threshold_of self column_to) in
      accumulate uniqueness column_to matches match_scores
  end.

(** [_compute_score] *)
Definition _compute_score (self : PandasMatcher)
           (choices : dict string (list string)) (index_to : nat)
           (uniqueness : dict string Q) : result (dict nat Q) :=
  row_to <- iloc (df_to self) index_to ;;
  indices_to_compare <- __subset self row_to ;;
  foldM (score_column self choices uniqueness row_to indices_to_compare)
        (columns_to_match self) [].

(** One iteration of the loop of [match] (lines 334-356). *)
Definition match_row (self : PandasMatcher)
           (choices : dict string (list string)) (uniqueness : dict string Q)
           (optimal_threshold : Q)
           (st : DataFrame pyobj * list Q) (index_to : nat)
  : result (DataFrame pyobj * list Q) :=
  let df_matched := fst st in
  let scores := snd st in
  match_scores <- _compute_score self choices index_to uniqueness ;;
  let top_matches := _top_matches self match_scores optimal_threshold in
  match top_matches with
  | [(index_from, top)] =>
      (* len(top_matches) == 1 *)
      df_matched <-
        foldM (fun df column =>
                 match at_get (df_from self) index_from column with
                 | Some v => Ok (at_set df index_to column (PStr v))
                 | None => Raise (KeyError column)
                 end)
              (columns_to_get self) df_matched ;;
      let df_matched :=
        at_set df_matched index_to "row_index"
               (PInt (Z.of_nat index_from + 2)) in
      let df_matched :=
        at_set df_matched index_to "match_score" (PFloat (match_score top)) in
      let df_matched :=
        at_set df_matched index_to "match_status" (match_status top) in
      Ok (df_matched, scores ++ [match_score top])
  | _ :: _ :: _ =>
      (* len(top_matches) > 1 *)
      let df_matched :=
        at_set df_matched index_to "row_index"
               (PStr (join ", "
                        (map (fun key => str_of_Z (Z.of_nat key + 2))
                             (keys top_matches)))) in
      Ok (at_set df_matched index_to "match_status" AMBIGUOUS, scores)
  | [] =>
      Ok (at_set df_matched index_to "match_status" UNMATCHED, scores)
  end.

(** Line 317 *)
Definition optimal_threshold_of (self : PandasMatcher)
           (uniqueness : dict string Q) (columns_to_match : list string)
  : result Q :=
  terms <- mapM (fun column =>
                   w <- series_get uniqueness column ;;
                   Ok (threshold_of self column * w)%Q)
                columns_to_match ;;
  Ok (py_sum terms).

(** Lines 320-330: the result table before the loop. *)
Definition init_df_matched (self : PandasMatcher) : DataFrame pyobj :=
  let df_matched : DataFrame pyobj :=
    map (fun col : string * list string => (fst col, map PStr (snd col)))
        (df_to self) in
  let df_matched :=
    fold_left (fun df column =>
                 if has_column column df then df else set_column df column blank)
              (columns_to_get self) df_matched in
  let df_matched := set_column df_matched "match_status" blank in
  let df_matched := set_column df_matched "row_index" blank in
  set_column df_matched "match_score" blank.

(** [match], lines 315-356: weights, optimal threshold, choices and the
    classification of every target row. *)
Definition match_rows (self : PandasMatcher)
  : result (DataFrame pyobj * list Q) :=
  let columns_to_match := active_columns self in
  uniqueness <- adjusted_uniqueness (df_to self) columns_to_match ;;
  optimal_threshold <- optimal_threshold_of self uniqueness columns_to_match ;;
  choices <- _choices self ;;
  foldM (match_row self choices uniqueness optimal_threshold)
        (seq 0 (len (df_to self)))
        (init_df_matched self, []).

(** Lines 361-370: the summary. *)
Definition summary (self : PandasMatcher) (df_matched : DataFrame pyobj)
           (scores : list Q) : result (dict pyobj info) :=
  status <- getitem df_matched "match_status" ;;
  let m_stat := value_counts status in
  total <- match dict_get pyobj_eqb MATCHED m_stat with
           | Some n =>
               x <- py_div (inject_Z (Z.of_nat n)) (len (df_to self)) ;;
               Ok (PFloat (py_round (x * 100) 2))
           | None => Ok (PInt 0)
           end ;;
  let average :=
    match scores with
    | [] => PInt 0
    | _ :: _ =>
        PFloat (py_round (py_sum scores
                          / inject_Z (Z.of_nat (List.length scores))) 2)
    end in
  let highest :=
    match scores with
    | [] => PInt (-1)
    | x :: tl => PFloat (py_round (py_max x tl) 2)
    end in
  let lowest :=
    match scores with
    | [] => PInt (-1)
    | x :: tl => PFloat (py_round (py_min x tl) 2)
    end in
  let m_info : dict pyobj info :=
    [(PStr "Total Match Score", Percent total);
     (PStr "Average Match Score", Percent average);
     (PStr "Highest Match Score", Percent highest);
     (PStr "Lowest Match Score", Percent lowest)] in
  Ok (fold_left (fun d (kv : pyobj * nat) =>
                   dict_set pyobj_eqb (fst kv) (Count (snd kv)) d)
                m_stat m_info).

(** [match]: the classification loop, then duplicate resolution (lines
    358-359) and the summary. *)
Definition match_ (self : PandasMatcher)
  : result (DataFrame pyobj * dict pyobj info) :=
  st <- match_rows self ;;
  let df_matched := fst st in
  let scores := snd st in
  dupes <- get_column_dupes df_matched "row_index" ;;
  let dupe_index := fst dupes in
  let df_matched := loc_set df_matched dupe_index "match_status" DUPLICATES in
  m_info <- summary self df_matched scores ;;
  Ok (df_matched, m_info).

End Matcher.

(** ** Notions used in the statements *)

(** Column [c] exists and reaches row [i]. *)
Definition in_range {A} (df : DataFrame A) (i : nat) (c : string) : Prop :=
  exists cells, dict_get String.eqb c df = Some cells /\ (i < List.length cells)%nat.

(** The first step of [adjusted_uniqueness]: the distinct-value ratio. *)
Definition ratio (df : DataFrame string) (col : string * list string)
  : string * Q :=
  (fst col, inject_Z (Z.of_nat (nunique (snd col))) / inject_Z (Z.of_nat (len df)))%Q.

(** [uniqueness[c]], read as 0 for a column without a weight. *)
Definition weight (uniqueness : dict string Q) (c : string) : Q :=
  match dict_get String.eqb c uniqueness with
  | Some w => w
  | None => 0%Q
  end.

(** Lines 315-319 ran without raising and produced these values. *)
Definition prepared (self : PandasMatcher) (uniqueness : dict string Q)
           (optimal_threshold : Q) (choices : dict string (list string)) : Prop :=
  adjusted_uniqueness (df_to self) (active_columns self) = Ok uniqueness
  /\ optimal_threshold_of self uniqueness (active_columns self)
     = Ok optimal_threshold
  /\ _choices self = Ok choices.


(** Candidate [k] with score [v] is among the top matches, with the status
    [_top_matches] gives to that score. *)
Definition collected (self : PandasMatcher) (match_scores : dict nat Q)
           (optimal_threshold : Q) (k : nat) (v : Q) : Prop :=
  In (k, {| match_status :=
              if Qlt_bool v optimal_threshold then REVIEW else MATCHED;
            match_score := v |})
     (_top_matches self match_scores optimal_threshold).

(** The three result cells of a row after its iteration of the loop, and the
    scores the iteration appends, as a function of the row's top matches. *)
Definition outcome_status (top_matches : dict nat TopMatch) : pyobj :=
  match top_matches with
  | [] => UNMATCHED
  | [(_, top)] => match_status top
  | _ :: _ :: _ => AMBIGUOUS
  end.

Definition outcome_row_index (top_matches : dict nat TopMatch) : pyobj :=
  match top_matches with
  | [] => blank
  | [(index_from, _)] => PInt (Z.of_nat index_from + 2)
  | _ :: _ :: _ =>
      PStr (join ", " (map (fun key => str_of_Z (Z.of_nat key + 2))
                           (keys top_matches)))
  end.

Definition outcome_score (top_matches : dict nat TopMatch) : pyobj :=
  match top_matches with
  | [(_, top)] => PFloat (match_score top)
  | _ => blank
  end.

Definition outcome_scores (top_matches : dict nat TopMatch) : list Q :=
  match top_matches with
  | [(_, top)] => [match_score top]
  | _ => []
  end.

(** The cells of row [i] are those its own iteration of the loop wrote. *)
Definition row_done (WRatio : string -> string -> Q) (self : PandasMatcher)
           (choices : dict string (list string)) (uniqueness : dict string Q)
           (optimal_threshold : Q) (df : DataFrame pyobj) (i : nat) : Prop :=
  exists ms,
    _compute_score WRatio self choices i uniqueness = Ok ms
    /\ at_get df i "match_status"
       = Some (outcome_status (_top_matches self ms optimal_threshold))
    /\ at_get df i "row_index"
       = Some (outcome_row_index (_top_matches self ms optimal_threshold))
    /\ at_get df i "match_score"
       = Some (outcome_score (_top_matches self ms optimal_threshold)).

(** The entries of [l] that name a column of [df]: what a mapping list would
    hold if assigning the reference table kept the entries present in it. *)
Definition kept_entries (df : DataFrame string) (l : list string) : list string :=
  filter (fun c => has_column c df) l.


(** ** Worked configurations

    Small tables and deterministic scorers on which the definitions above
    are evaluated. *)

(** An exact-match scorer: 100 for equal strings, 0 otherwise. *)
Definition exact_ratio (a b : string) : Q :=
  if String.eqb a b then 100%Q else 0%Q.

(** Four target rows and three reference rows with the same two columns. *)
Definition targets : DataFrame string :=
  [("name"%string, ["Ann"; "Bob"; "Bob"; "Zed"]%string);
   ("city"%string, ["NY"; "LA"; "LA"; "SF"]%string)].

Definition references : DataFrame string :=
  [("name"%string, ["Ann"; "Ann"; "Bob"]%string);
   ("city"%string, ["NY"; "LA"; "LA"]%string)].

(** [m = PandasMatcher(); m.df_to = targets; m.df_from = references] *)
Definition demo : PandasMatcher :=
  set_df_from (set_df_to init targets) references.

(** The result of [match] on [demo] with the exact-match scorer. *)
Definition demo_matched : DataFrame pyobj * dict pyobj info :=
  Eval vm_compute in
    match match_ exact_ratio demo with
    | Ok r => r
    | Raise _ => ([], [])
    end.

(** The weights, optimal threshold, choices and per-row score maps of
    [demo]. *)
Definition demo_uniqueness : dict string Q :=
  Eval vm_compute in
    match adjusted_uniqueness (df_to demo) (active_columns demo) with
    | Ok u => u
    | Raise _ => []
    end.

Definition demo_optimal : Q :=
  Eval vm_compute in
    match optimal_threshold_of demo demo_uniqueness (active_columns demo) with
    | Ok o => o
    | Raise _ => 0%Q
    end.

Definition demo_choices : dict string (list string) :=
  Eval vm_compute in
    match _choices demo with
    | Ok c => c
    | Raise _ => []
    end.

Definition demo_row_scores (i : nat) : dict nat Q :=
  match _compute_score exact_ratio demo demo_choices i demo_uniqueness with
  | Ok ms => ms
  | Raise _ => []
  end.

(** [demo] with the reference rows grouped by [city]: the last target row
    (Zed, SF) has no reference row in its group. *)
Definition grouped : PandasMatcher :=
  {| df_to := df_to demo; df_from := df_from demo;
     column_threshold := column_threshold demo;
     columns_to_match := columns_to_match demo;
     columns_to_get := columns_to_get demo;
     column_groups := ["city"%string];
     required_threshold := required_threshold demo; cutoff := cutoff demo |}.

Definition grouped_row : list (string * string) :=
  [("name"%string, "Zed"%string); ("city"%string, "SF"%string)].

(** A reference table and a target table with columns but no rows. *)
Definition no_rows : DataFrame string :=
  [("name"%string, []); ("city"%string, [])].



(** A matcher whose target column [name] is linked by hand to the reference
    column [full_name]. *)
Definition cross_linked : PandasMatcher :=
  {| df_to := [("name"%string, ["Ann"%string])]; df_from := [];
     column_threshold := [("name"%string, 75%Q)];
     columns_to_match := [("name"%string, ["full_name"%string])];
     columns_to_get := ["full_name"%string]; column_groups := [];
     required_threshold := 75; cutoff := false |}.

Definition full_name_table : DataFrame string :=
  [("full_name"%string, ["Ann"%string; "Bob"%string])].

(** Two candidate scores 0.001 apart: equal after rounding to 2 decimals. *)
Definition near_tie : dict nat Q :=
  [(1%nat, 80002 # 1000); (0%nat, 80001 # 1000)].

(** A scorer that produces the two scores of [near_tie]. *)
Definition near_ratio (a b : string) : Q :=
  if String.eqb b "Anna" then 80001 # 1000 else 80002 # 1000.

Definition near_tie_matcher : PandasMatcher :=
  set_df_from (set_df_to init [("name"%string, ["Ann"%string])])
              [("name"%string, ["Anna"; "Anne"]%string)].

(** Two candidates with the same score. *)
Definition exact_tie : dict nat Q :=
  [(0%nat, 80 # 1); (1%nat, 160 # 2); (2%nat, 50 # 1)].
(** One target row (Ann, NY) against the reference rows (Ann, NY) and
    (Ann, LA). *)
Definition ann_matcher : PandasMatcher :=
  set_df_from
    (set_df_to init [("name"%string, ["Ann"%string]); ("city"%string, ["NY"%string])])
    [("name"%string, ["Ann"; "Ann"]%string); ("city"%string, ["NY"; "LA"]%string)].

(** Required threshold 40 with column thresholds of 90: a score of 75 is
    accepted but stays below the optimal threshold. *)
Definition lenient : PandasMatcher :=
  {| df_to := [("name"%string, ["Bob"; "Cy"; "Di"]%string);
               ("city"%string, ["NY"; "NY"; "NY"]%string)];
     df_from := references;
     column_threshold := [("name"%string, 90%Q); ("city"%string, 90%Q)];
     columns_to_match := [("name"%string, ["name"%string]);
                          ("city"%string, ["city"%string])];
     columns_to_get := ["city"%string]; column_groups := [];
     required_threshold := 40; cutoff := false |}.

(** ** The other functions of the module *)

(** [uniqueness(df)] *)
Definition uniqueness (df : DataFrame string) : result (dict string Q) :=
  mapM (fun col : string * list string =>
          x <- py_div (inject_Z (Z.of_nat (nunique (snd col)))) (len df) ;;
          Ok (fst col, x)) df.

(** [column_group_percentage(df, col)]: [groupby] lists the distinct values
    of the column in ascending order, [size] counts their rows. *)
Definition column_group_percentage (df : DataFrame string) (col : string)
  : result (dict string Q) :=
  cells <- getitem df col ;;
  let groups := sort_desc (fun y x => String.leb x y) (nodup string_dec cells) in
  mapM (fun v =>
          x <- py_div (inject_Z (Z.of_nat (count_occ string_dec cells v))) (len df) ;;
          Ok (v, x * 100)%Q) groups.

(** [get_column_blanks(df, column)]; as in [get_column_dupes], of the
    selected rows only the index and the cell in [column] are kept. *)
Definition get_column_blanks (df : DataFrame pyobj) (column : string)
  : result (list nat * list pyobj) :=
  let temp_df := replace_blank df in
  cells <- getitem temp_df column ;;
  let column_check := map (fun v => negb (notna v)) cells in
  let df_blank :=
    filter (fun row : nat * (bool * pyobj) => fst (snd row))
           (combine (seq 0 (List.length cells)) (combine column_check cells)) in
  Ok (map fst df_blank, map (fun row => snd (snd row)) df_blank).

(** [len(set(a).intersection(set(b)))] *)
Definition intersected_count (a b : list string) : nat :=
  List.length (filter (fun v => existsb (String.eqb v) b) (nodup string_dec a)).

(** The property [similarities]. *)
Definition similarities (self : PandasMatcher) : result (dict string (Q * Q)) :=
  foldM (fun similarities column =>
           if has_column column (df_from self) then
             cells_to <- getitem (df_to self) column ;;
             cells_from <- getitem (df_from self) column ;;
             let full_length := nunique cells_to in
             let intersected := intersected_count cells_to cells_from in
             ratio <- py_div (inject_Z (Z.of_nat intersected)) full_length ;;
             let score := py_round (ratio * 100) 2 in
             average_rows_to_compare <-
               py_div (inject_Z (Z.of_nat (len (df_to self)))) intersected ;;
             Ok (dict_set String.eqb column (score, average_rows_to_compare)
                          similarities)
           else Ok similarities)
        (columns (df_to self)) [].

Section Spreadsheets.

(** [os.path.splitext], [os.path.basename] and [os.path.abspath]. *)
Variable splitext : string -> string * string.
Variable basename : string -> string.
Variable abspath : string -> string.

(** The pandas readers, with the keyword arguments of the call fixed: the
    table read, or the text of the exception raised. *)
Variables read_excel read_csv read_table : string -> DataFrame string + string.

(** The pandas writers ([to_csv] with its separator): [None] when the file
    was written, or the text of the exception raised. *)
Variable to_excel : DataFrame string -> string -> option string.
Variable to_csv : DataFrame string -> string -> string -> option string.

Definition tab : string := String (ascii_of_nat 9) EmptyString.

(** [read_spreadsheet(filepath, **kwargs)] *)
Definition read_spreadsheet (filepath : string) : DataFrame string * string :=
  let ext := snd (splitext filepath) in
  let imported (r : DataFrame string + string) : DataFrame string * string :=
    match r with
    | inl df =>
        (df, "File successfully imported as '" ++ basename filepath ++ "'")
    | inr e => ([], "ERROR: " ++ e)
    end%string in
  if existsb (String.eqb ext) [".xls"; ".xlsx"; ".xlsm"; ".xlsb"; ".ods"]%string
  then imported (read_excel filepath)
  else if String.eqb ext ".csv" then imported (read_csv filepath)
  else if String.eqb ext ".tsv" then imported (read_table filepath)
  else ([], "File not imported. Extension: '" ++ ext ++ "' not recognized")%string.

(** [to_spreadsheet(df, filepath)] *)
Definition to_spreadsheet (df : DataFrame string) (filepath : string)
  : bool * string :=
  let ext := snd (splitext filepath) in
  let exported (r : option string) : bool * string :=
    match r with
    | None =>
        (true, "File successfully exported to '" ++ abspath filepath ++ "'")
    | Some e => (false, "ERROR: " ++ e)
    end%string in
  if existsb (String.eqb ext) [".ods"; ".xlsx"; ".xlsm"; ".xlsb"]%string
  then exported (to_excel df filepath)
  else if String.eqb ext ".csv" then exported (to_csv df filepath ",")
  else if String.eqb ext ".tsv" then exported (to_csv df filepath tab)
  else (false, "File not exported. Extension: '" ++ ext ++ "' not recognized")%string.

End Spreadsheets.

(** ** Notions used in the further statements *)

(** The number of distinct values of column [c] (0 for a missing column). *)
Definition distinct_count (df : DataFrame string) (c : string) : nat :=
  match dict_get String.eqb c df with
  | Some cells => nunique cells
  | None => 0%nat
  end.

(** A cell that [df.replace('', numpy.nan)] leaves missing: the empty
    string or a missing value. *)
Definition is_blank (v : pyobj) : bool :=
  pyobj_eqb v blank || negb (notna v).

(** A result column with blanks, a missing value and repeated values. *)
Definition mixed_column : DataFrame pyobj :=
  [("a"%string, [PStr "x"; PStr ""; PNaN; PStr "x"; PInt 3; PStr ""; PFloat 3])].

(** What [similarities] returns on [demo]. *)
Definition demo_similarities : dict string (Q * Q) :=
  Eval vm_compute in
    match similarities demo with Ok s => s | Raise _ => [] end.

(** Reference row [p] holds, in the group column [g], the value the target
    row has in that column. *)
Definition agrees_on (self : PandasMatcher) (row : list (string * string))
           (p : nat) (g : string) : bool :=
  match at_get (df_from self) p g, dict_get String.eqb g row with
  | Some x, Some v => String.eqb x v
  | _, _ => false
  end.

(** A target row whose city occurs in [references]. *)
Definition bob_la : list (string * string) :=
  [("name"%string, "Bob"%string); ("city"%string, "LA"%string)].





(** The result of [match] on [lenient] with the exact-match scorer. *)
Definition lenient_matched : DataFrame pyobj * dict pyobj info :=
  Eval vm_compute in
    match match_ exact_ratio lenient with
    | Ok r => r
    | Raise _ => ([], [])
    end.

(** The five values [match] writes to the column [match_status]. *)
Definition statuses : list pyobj :=
  [MATCHED; REVIEW; AMBIGUOUS; UNMATCHED; DUPLICATES].





(** Every cell is a string. *)
Definition all_str (l : list pyobj) : Prop :=
  forall x, In x l -> exists s, x = PStr s.

(** The cell a column to fetch holds in row [i] before the loop: the
    target's own cell when the target has a column of that name, the empty
    string otherwise. *)
Definition fetched_cell (self : PandasMatcher) (i : nat) (c : string) : option pyobj :=
  if has_column c (df_to self)
  then option_map PStr (at_get (df_to self) i c)
  else Some blank.

(** The weights, optimal threshold, choices and first-row score map of
    [lenient]. *)
Definition lenient_uniqueness : dict string Q :=
  Eval vm_compute in
    match adjusted_uniqueness (df_to lenient) (active_columns lenient) with
    | Ok u => u
    | Raise _ => []
    end.

Definition lenient_optimal : Q :=
  Eval vm_compute in
    match optimal_threshold_of lenient lenient_uniqueness (active_columns lenient) with
    | Ok o => o
    | Raise _ => 0%Q
    end.

Definition lenient_choices : dict string (list string) :=
  Eval vm_compute in
    match _choices lenient with
    | Ok c => c
    | Raise _ => []
    end.

Definition lenient_row_scores : dict nat Q :=
  Eval vm_compute in
    match _compute_score exact_ratio lenient lenient_choices 0 lenient_uniqueness with
    | Ok ms => ms
    | Raise _ => []
    end.

(** The score cutoff handed to [process.extract] for a column (lines
    289-290). *)
Definition cutoff_of (self : PandasMatcher) (column_to : string) : Q :=
  if cutoff self then threshold_of self column_to else 0.

(** Reference row [k] is in the choices of the mapped column [item], and the
    scorer gives its cell there, against the target row's cell, at least
    the cutoff. *)
Definition scored_in (WRatio : string -> string -> Q) (self : PandasMatcher)
           (choices : dict string (list string)) (row_to : list (string * string))
           (k : nat) (item : string * list string) : Prop :=
  snd item <> []
  /\ exists v choice cell,
       dict_get String.eqb (fst item) row_to = Some v
       /\ dict_get String.eqb (fst item) choices = Some choice
       /\ nth_error choice k = Some cell
       /\ cutoff_of self (fst item) <= WRatio v cell.

(** [lenient] with the score cutoff switched on. *)
Definition strict : PandasMatcher :=
  {| df_to := df_to lenient; df_from := df_from lenient;
     column_threshold := column_threshold lenient;
     columns_to_match := columns_to_match lenient;
     columns_to_get := columns_to_get lenient;
     column_groups := column_groups lenient;
     required_threshold := required_threshold lenient; cutoff := true |}.

Definition strict_row_scores : dict nat Q :=
  Eval vm_compute in
    match _compute_score exact_ratio strict lenient_choices 0 lenient_uniqueness with
    | Ok ms => ms
    | Raise _ => []
    end.

(** The answer of [read_spreadsheet] for an extension it does not know. *)
Definition not_imported (ext : string) : string :=
  ("File not imported. Extension: '" ++ ext ++ "' not recognized")%string.

(** Stand-ins for the path functions, the readers and the writers. *)
Definition csv_only (filepath : string) : string * string := (filepath, ".csv"%string).
Definition no_table (filepath : string) : DataFrame string + string := inl [].
Definition written (df : DataFrame string) (filepath sep : string)
  : option string := None.
Definition refused (df : DataFrame string) (filepath : string)
  : option string := Some "refused"%string.

(** ** The command-line helpers *)

(** What [will_it_int] returns: [True], or the pair of [False] and a
    message. *)
Inductive verdict : Type :=
| Plain (b : bool)
| WithMessage (b : bool) (message : string).

(** Python's truth value of such a result: a tuple of two items is true
    whatever it holds. *)
Definition truth (v : verdict) : bool :=
  match v with
  | Plain b => b
  | WithMessage _ _ => true
  end.

(** [will_it_int(response)]; [int_accepts] tells whether [int(response)]
    returns rather than raising ValueError. *)
Definition will_it_int (int_accepts : string -> bool) (response : string)
  : verdict :=
  if int_accepts response then Plain true
  else WithMessage false "Input must be an integer".

(** * Properties *)

Unset Implicit Arguments.

(** ** The error monad *)

Lemma bind_ok {A B : Type} (r : result A) (k : A -> result B) (b : B) :
  bind r k = Ok b -> exists a, r = Ok a /\ k a = Ok b.
Proof. destruct r as [a|e]; simpl; [eauto | discriminate]. Qed.

Ltac inv_bind H :=
  let a := fresh "a" in
  let Ha := fresh "Hbind" in
  apply bind_ok in H; destruct H as (a & Ha & H).

Ltac inv_ok H := injection H as H; subst.

Lemma mapM_ok_length {A B : Type} (f : A -> result B) l r :
  mapM f l = Ok r -> List.length r = List.length l.
Proof.
  revert r; induction l as [|x tl IH]; simpl; intros r H.
  - inv_ok H. reflexivity.
  - inv_bind H. inv_bind H. inv_ok H. simpl. f_equal. eauto.
Qed.


(** ** Dictionaries *)

Section DictFacts.
Context {K V : Type}.
Variable eqb : K -> K -> bool.
Hypothesis eqb_eq : forall a b, eqb a b = true <-> a = b.

Lemma eqb_same a : eqb a a = true.
Proof. now apply eqb_eq. Qed.

Lemma eqb_trans_l a b c : eqb a b = true -> eqb a c = eqb b c.
Proof. intros H. apply eqb_eq in H. now subst. Qed.

Lemma dict_get_set (k c : K) (v : V) d :
  dict_get eqb k (dict_set eqb c v d)
  = if eqb c k then Some v else dict_get eqb k d.
Proof.
  induction d as [|[k' v'] tl IH]; simpl.
  - reflexivity.
  - destruct (eqb k' c) eqn:Hc; simpl.
    + rewrite (eqb_trans_l _ _ k Hc). now destruct (eqb c k).
    + rewrite IH. destruct (eqb k' k) eqn:Hk; [|reflexivity].
      destruct (eqb c k) eqn:Hck; [|reflexivity].
      apply eqb_eq in Hk, Hck. subst. now rewrite eqb_same in Hc.
Qed.

Lemma dict_get_In (k : K) (v : V) d :
  dict_get eqb k d = Some v -> In (k, v) d.
Proof.
  induction d as [|[k' v'] tl IH]; simpl; [discriminate|].
  destruct (eqb k' k) eqn:Hk; intros H.
  - apply eqb_eq in Hk. inv_ok H. now left.
  - right. auto.
Qed.

Lemma dict_get_keys (k : K) (d : dict K V) :
  In k (keys d) -> exists v, dict_get eqb k d = Some v.
Proof.
  induction d as [|[k' v'] tl IH]; simpl; [tauto|].
  intros [->|H].
  - rewrite eqb_same. eauto.
  - destruct (eqb k' k); eauto.
Qed.

Lemma dict_get_some_keys (k : K) (v : V) d :
  dict_get eqb k d = Some v -> In k (keys d).
Proof.
  intros H. apply dict_get_In in H. unfold keys.
  change k with (fst (k, v)). now apply in_map.
Qed.

Lemma keys_dict_set_present (c : K) (v : V) d :
  dict_mem eqb c d = true -> keys (dict_set eqb c v d) = keys d.
Proof.
  unfold dict_mem.
  induction d as [|[k' v'] tl IH]; simpl; [discriminate|].
  destruct (eqb k' c) eqn:Hc; simpl; [reflexivity|].
  intros H. f_equal. auto.
Qed.

Lemma keys_dict_update_present dflt (f : V -> V) (c : K) d :
  dict_mem eqb c d = true -> keys (dict_update eqb dflt f c d) = keys d.
Proof.
  intros H. unfold dict_update.
  destruct (dict_get eqb c d); now apply keys_dict_set_present.
Qed.

Lemma keys_dict_set_incl (c : K) (v : V) d k :
  In k (keys d) -> In k (keys (dict_set eqb c v d)).
Proof.
  induction d as [|[k' v'] tl IH]; simpl; [tauto|].
  destruct (eqb k' c); simpl; tauto.
Qed.

Lemma keys_dict_set_key (c : K) (v : V) d : In c (keys (dict_set eqb c v d)).
Proof.
  induction d as [|[k' v'] tl IH]; simpl; [now left|].
  destruct (eqb k' c) eqn:Hc; simpl.
  - left. now apply eqb_eq.
  - now right.
Qed.
End DictFacts.

(** ** Tables *)

Lemma length_list_set {A} i (v : A) l :
  List.length (list_set i v l) = List.length l.
Proof.
  revert i; induction l as [|x tl IH]; intros [|i]; simpl; auto.
Qed.

Lemma nth_error_list_set_same {A} i (v : A) l :
  (i < List.length l)%nat -> nth_error (list_set i v l) i = Some v.
Proof.
  revert i; induction l as [|x tl IH]; intros [|i]; simpl; intros H;
    try lia; auto. apply IH. lia.
Qed.

Lemma nth_error_list_set_other {A} i j (v : A) l :
  i <> j -> nth_error (list_set j v l) i = nth_error l i.
Proof.
  revert i j; induction l as [|x tl IH]; intros [|i] [|j] H; simpl; auto;
    congruence.
Qed.

Lemma dict_get_at_set {A} c (df : DataFrame A) j c' (v : A) :
  dict_get String.eqb c (at_set df j c' v)
  = match dict_get String.eqb c df with
    | Some cells => Some (if String.eqb c c' then list_set j v cells else cells)
    | None => None
    end.
Proof.
  induction df as [|[k cells] tl IH]; simpl; [reflexivity|].
  destruct (String.eqb k c') eqn:Hk'; simpl;
    destruct (String.eqb k c) eqn:Hk; auto.
  - apply String.eqb_eq in Hk. subst. now rewrite Hk'.
  - apply String.eqb_eq in Hk. subst. now rewrite Hk'.
Qed.

Lemma in_range_at_set {A} (df : DataFrame A) i c j c' v :
  in_range df i c -> in_range (at_set df j c' v) i c.
Proof.
  intros (cells & Hc & Hi). unfold in_range. rewrite dict_get_at_set, Hc.
  eexists; split; [reflexivity|].
  destruct (String.eqb c c'); [rewrite length_list_set|]; assumption.
Qed.

Lemma at_get_at_set_same {A} (df : DataFrame A) i c v :
  in_range df i c -> at_get (at_set df i c v) i c = Some v.
Proof.
  intros (cells & Hc & Hi). unfold at_get. rewrite dict_get_at_set, Hc.
  rewrite String.eqb_refl. now apply nth_error_list_set_same.
Qed.

Lemma at_get_at_set_row {A} (df : DataFrame A) i j c c' v :
  i <> j -> at_get (at_set df j c' v) i c = at_get df i c.
Proof.
  intros Hij. unfold at_get. rewrite dict_get_at_set.
  destruct (dict_get String.eqb c df) as [cells|]; [|reflexivity].
  destruct (String.eqb c c'); [now apply nth_error_list_set_other | reflexivity].
Qed.

Lemma at_get_at_set_col {A} (df : DataFrame A) i j c c' v :
  c <> c' -> at_get (at_set df j c' v) i c = at_get df i c.
Proof.
  intros Hc. unfold at_get. rewrite dict_get_at_set.
  destruct (dict_get String.eqb c df) as [cells|]; [|reflexivity].
  destruct (String.eqb c c') eqn:E; [|reflexivity].
  apply String.eqb_eq in E. contradiction.
Qed.

Lemma at_get_in_range {A} (df : DataFrame A) i c :
  in_range df i c <-> exists v, at_get df i c = Some v.
Proof.
  unfold in_range, at_get. split.
  - intros (cells & -> & Hi).
    destruct (nth_error cells i) eqn:E; eauto.
    apply nth_error_None in E. lia.
  - intros (v & H). destruct (dict_get String.eqb c df) as [cells|]; [|discriminate].
    exists cells. split; [reflexivity|]. apply nth_error_Some. congruence.
Qed.

(** ** The setter of the reference table *)

Lemma columns_replace_nan df : columns (replace_nan df) = columns df.
Proof. unfold columns, replace_nan. rewrite map_map. reflexivity. Qed.

Lemma dict_get_cleared (k : string) (d : dict string (list string)) :
  dict_get String.eqb k (map (fun kv : string * list string => (fst kv, @nil string)) d)
  = match dict_get String.eqb k d with Some _ => Some [] | None => None end.
Proof.
  induction d as [|[k' l] tl IH]; simpl; [reflexivity|].
  now destruct (String.eqb k' k).
Qed.

(** The second loop of the setter: one same-name link per column of the new
    table that is a key of the mapping. *)
Lemma relink_get (cols : list string) (d : dict string (list string)) (k : string) :
  dict_get String.eqb k
    (fold_left (fun (d : dict string (list string)) column_from =>
                  if dict_mem String.eqb column_from d
                  then dict_update String.eqb [] (fun l => l ++ [column_from])
                                   column_from d
                  else d) cols d)
  = match dict_get String.eqb k d with
    | Some l => Some (l ++ filter (String.eqb k) cols)
    | None => None
    end.
Proof.
  revert d; induction cols as [|c cols IH]; intros d; simpl.
  - destruct (dict_get String.eqb k d); [now rewrite app_nil_r | reflexivity].
  - rewrite IH. unfold dict_mem, dict_update.
    destruct (dict_get String.eqb c d) as [lc|] eqn:Hc.
    + rewrite (dict_get_set String.eqb String.eqb_eq).
      rewrite (String.eqb_sym k c).
      destruct (String.eqb c k) eqn:Hck.
      * apply String.eqb_eq in Hck. subst. rewrite Hc.
        now rewrite <- app_assoc.
      * reflexivity.
    + rewrite (String.eqb_sym k c).
      destruct (String.eqb c k) eqn:Hck; [|reflexivity].
      apply String.eqb_eq in Hck. subst. now rewrite Hc.
Qed.

Lemma relink_keys (cols : list string) (d : dict string (list string)) :
  keys (fold_left (fun (d : dict string (list string)) column_from =>
                     if dict_mem String.eqb column_from d
                     then dict_update String.eqb [] (fun l => l ++ [column_from])
                                      column_from d
                     else d) cols d)
  = keys d.
Proof.
  revert d; induction cols as [|c cols IH]; intros d; simpl; [reflexivity|].
  rewrite IH. destruct (dict_mem String.eqb c d) eqn:Hc; [|reflexivity].
  now apply (keys_dict_update_present String.eqb).
Qed.

Lemma set_df_from_get self df k :
  dict_get String.eqb k (columns_to_match (set_df_from self df))
  = match dict_get String.eqb k (columns_to_match self) with
    | Some _ => Some (filter (String.eqb k) (columns df))
    | None => None
    end.
Proof.
  unfold set_df_from; simpl. rewrite relink_get, dict_get_cleared.
  rewrite columns_replace_nan.
  now destruct (dict_get String.eqb k (columns_to_match self)).
Qed.

(** C7 (as stated, refuted): a hand-made link from [name] to [full_name] is
    dropped although the new reference table has a column [full_name]. *)
Lemma set_df_from_drops_cross_link :
  let after := set_df_from cross_linked full_name_table in
  dict_get String.eqb "name"%string (columns_to_match cross_linked)
    = Some ["full_name"%string]
  /\ kept_entries (df_from after) ["full_name"%string] = ["full_name"%string]
  /\ dict_get String.eqb "name"%string (columns_to_match after) = Some []
  /\ dict_get String.eqb "name"%string (columns_to_match after)
     <> Some (kept_entries (df_from after) ["full_name"%string]).
Proof. repeat split; try reflexivity. discriminate. Qed.

(** C7 (amended): after the reference table is assigned, the list of every
    mapping key holds the key's own name once per same-named column of the
    new table and nothing else; whatever was listed before is gone, whether
    or not the new table has a column of that name. *)
Theorem set_df_from_relinks_same_name self df k :
  In k (keys (columns_to_match self)) ->
  dict_get String.eqb k (columns_to_match (set_df_from self df))
  = Some (filter (String.eqb k) (columns df)).
Proof.
  intros Hk. rewrite set_df_from_get.
  destruct (dict_get_keys String.eqb String.eqb_eq _ _ Hk) as [l ->]. reflexivity.
Qed.

Lemma set_df_from_relinks_same_name_witness :
  dict_get String.eqb "name"%string
    (columns_to_match (set_df_from cross_linked full_name_table))
  = Some (filter (String.eqb "name") (columns full_name_table)).
Proof.
  apply set_df_from_relinks_same_name. simpl. now left.
Defined.

(** C10: assigning the reference table empties [columns_to_get] and rebuilds
    every mapping list from the new table alone (the old contents of the
    list play no part), keeps the keys, and leaves the thresholds, the group
    columns and the cutoff flag as they were. *)
Theorem set_df_from_resets self df :
  let after := set_df_from self df in
  columns_to_get after = []
  /\ keys (columns_to_match after) = keys (columns_to_match self)
  /\ (forall k,
        dict_get String.eqb k (columns_to_match after)
        = match dict_get String.eqb k (columns_to_match self) with
          | Some _ => Some (filter (String.eqb k) (columns df))
          | None => None
          end)
  /\ required_threshold after = required_threshold self
  /\ column_threshold after = column_threshold self
  /\ column_groups after = column_groups self
  /\ cutoff after = cutoff self.
Proof.
  cbv zeta. repeat split; try reflexivity.
  - unfold set_df_from; simpl. rewrite relink_keys. unfold keys.
    rewrite map_map. reflexivity.
  - intros k. apply set_df_from_get.
Qed.

(** ** Sums, maxima and rounding *)

Lemma fold_left_Qplus_shift l a : fold_left Qplus l a == a + py_sum l.
Proof.
  unfold py_sum. revert a; induction l as [|x l IH]; intros a; simpl.
  - ring.
  - rewrite IH, (IH (0 + x)). ring.
Qed.

Lemma py_sum_cons x l : py_sum (x :: l) == x + py_sum l.
Proof. unfold py_sum at 1. simpl. rewrite fold_left_Qplus_shift. ring. Qed.

Lemma py_sum_scale l s : py_sum (map (fun x => x / s) l) == py_sum l / s.
Proof.
  induction l as [|x l IH]; simpl.
  - unfold py_sum; simpl. unfold Qdiv. ring.
  - rewrite !py_sum_cons, IH. unfold Qdiv. ring.
Qed.

Lemma py_sum_scale_snd {A} (u : list (A * Q)) s :
  py_sum (map (fun x : A * Q => snd x / s) u) == py_sum (map snd u) / s.
Proof. rewrite <- py_sum_scale, map_map. reflexivity. Qed.

Lemma py_sum_pos l :
  l <> [] -> (forall x, In x l -> 0 < x) -> 0 < py_sum l.
Proof.
  intros Hne Hpos.
  assert (H : forall l', (forall x, In x l' -> 0 < x) -> 0 <= py_sum l').
  { induction l' as [|y l' IH]; intros Hl'.
    - unfold py_sum; simpl. apply Qle_refl.
    - rewrite py_sum_cons.
      assert (0 < y) by (apply Hl'; now left).
      assert (0 <= py_sum l') by (apply IH; intros; apply Hl'; now right).
      lra. }
  destruct l as [|y l]; [congruence|].
  rewrite py_sum_cons.
  assert (0 < y) by (apply Hpos; now left).
  assert (0 <= py_sum l) by (apply H; intros; apply Hpos; now right).
  lra.
Qed.

Lemma mapM_pure {A B : Type} (f : A -> result B) (g : A -> B) l :
  (forall x, In x l -> f x = Ok (g x)) -> mapM f l = Ok (map g l).
Proof.
  induction l as [|x tl IH]; simpl; intros H; [reflexivity|].
  rewrite (H x (or_introl eq_refl)). simpl.
  rewrite IH by (intros; apply H; now right). reflexivity.
Qed.

(** ** Uniqueness weights *)

Lemma has_column_get {A} c (df : DataFrame A) :
  has_column c df = true -> exists cells, dict_get String.eqb c df = Some cells.
Proof.
  unfold has_column, dict_mem.
  destruct (dict_get String.eqb c df); [eauto | discriminate].
Qed.

Lemma wf_df_column {A} (df : DataFrame A) c cells :
  wf_df df -> dict_get String.eqb c df = Some cells -> List.length cells = len df.
Proof.
  intros Hwf Hc. apply (dict_get_In String.eqb String.eqb_eq) in Hc.
  unfold wf_df in Hwf. rewrite Forall_forall in Hwf. apply (Hwf _ Hc).
Qed.

Lemma nunique_pos cells : cells <> [] -> (0 < nunique cells)%nat.
Proof.
  destruct cells as [|x tl]; [congruence|]. intros _. unfold nunique.
  assert (H : In x (nodup string_dec (x :: tl))) by (apply nodup_In; now left).
  destruct (nodup string_dec (x :: tl)); [destruct H | simpl; lia].
Qed.

Lemma getitems_ok {A} (df : DataFrame A) cols :
  (forall c, In c cols -> has_column c df = true) ->
  exists sub, getitems df cols = Ok sub
              /\ map fst sub = cols
              /\ forall col, In col sub ->
                             dict_get String.eqb (fst col) df = Some (snd col).
Proof.
  unfold getitems. induction cols as [|c cols IH]; simpl; intros H.
  - exists []. repeat split; simpl; tauto.
  - destruct (has_column_get _ _ (H c (or_introl eq_refl))) as [cells Hc].
    destruct IH as (sub & Hsub & Hfst & Hin); [intros; apply H; now right|].
    unfold getitem at 1. rewrite Hc. simpl. rewrite Hsub. simpl.
    exists ((c, cells) :: sub). repeat split; simpl; [now f_equal|].
    intros col [<-|Hcol]; simpl; auto.
Qed.

Lemma adjusted_uniqueness_ok df cols sub :
  len df <> 0%nat -> getitems df cols = Ok sub ->
  adjusted_uniqueness df cols
  = Ok (map (fun cx : string * Q =>
               (fst cx, snd cx / py_sum (values (map (ratio df) sub))))
            (map (ratio df) sub)).
Proof.
  intros Hlen Hsub. unfold adjusted_uniqueness. rewrite Hsub. simpl.
  rewrite (mapM_pure _ (ratio df)); [reflexivity|].
  intros col _. unfold py_div, ratio.
  destruct (len df); [congruence | reflexivity].
Qed.

(** C4: on a non-empty table, the weights of a non-empty set of selected
    columns are returned (one per column, in order) and sum to 1; the sum
    is exact because floats are read as exact rationals. *)
Theorem adjusted_uniqueness_sums_to_one df cols :
  wf_df df -> len df <> 0%nat -> cols <> [] ->
  (forall c, In c cols -> has_column c df = true) ->
  exists u, adjusted_uniqueness df cols = Ok u
            /\ keys u = cols
            /\ py_sum (values u) == 1.
Proof.
  intros Hwf Hlen Hne Hcols.
  destruct (getitems_ok df cols Hcols) as (sub & Hsub & Hfst & Hin).
  rewrite (adjusted_uniqueness_ok _ _ _ Hlen Hsub).
  eexists; split; [reflexivity|]. split.
  - unfold keys. rewrite !map_map. simpl. exact Hfst.
  - set (u := map (ratio df) sub).
    assert (Hpos : 0 < py_sum (values u)).
    { apply py_sum_pos.
      - unfold values, u. destruct sub; [simpl in Hfst; congruence | discriminate].
      - intros x Hx. unfold values, u in Hx. rewrite map_map in Hx.
        apply in_map_iff in Hx. destruct Hx as (col & <- & Hcol). simpl.
        pose proof (wf_df_column _ _ _ Hwf (Hin _ Hcol)) as Hl.
        assert (0 < nunique (snd col))%nat.
        { apply nunique_pos. intros E. rewrite E in Hl. simpl in Hl. lia. }
        apply Qlt_shift_div_l.
        + change 0 with (inject_Z 0). rewrite <- Zlt_Qlt. lia.
        + rewrite Qmult_0_l. change 0 with (inject_Z 0). rewrite <- Zlt_Qlt. lia. }
    unfold values. rewrite map_map. simpl.
    rewrite py_sum_scale_snd. unfold values in Hpos. field. lra.
Qed.

Lemma adjusted_uniqueness_sums_to_one_witness :
  exists u, adjusted_uniqueness targets ["name"; "city"]%string = Ok u
            /\ keys u = ["name"; "city"]%string
            /\ py_sum (values u) == 1.
Proof.
  apply adjusted_uniqueness_sums_to_one.
  - repeat constructor.
  - simpl. lia.
  - discriminate.
  - intros c [<-|[<-|[]]]; reflexivity.
Defined.

(** ** Maximum and rounding *)

Lemma Qlt_bool_iff a b : Qlt_bool a b = true <-> a < b.
Proof.
  unfold Qlt_bool. rewrite negb_true_iff. split.
  - intros H. apply Qnot_le_lt. intros Hle.
    apply Qle_bool_iff in Hle. congruence.
  - intros H. destruct (Qle_bool b a) eqn:E; [|reflexivity].
    apply Qle_bool_iff in E. lra.
Qed.

Lemma Qlt_bool_false_iff a b : Qlt_bool a b = false <-> b <= a.
Proof.
  unfold Qlt_bool. rewrite negb_false_iff. apply Qle_bool_iff.
Qed.

Lemma Qle_bool_false_iff a b : Qle_bool a b = false <-> b < a.
Proof.
  split.
  - intros H. apply Qnot_le_lt. intros Hle.
    apply Qle_bool_iff in Hle. congruence.
  - intros H. destruct (Qle_bool a b) eqn:E; [|reflexivity].
    apply Qle_bool_iff in E. lra.
Qed.

Lemma py_max_ge l : forall x,
  x <= py_max x l /\ forall w, In w l -> w <= py_max x l.
Proof.
  unfold py_max. induction l as [|y l IH]; intros x; simpl.
  - split; [apply Qle_refl | tauto].
  - destruct (IH (if Qlt_bool x y then y else x)) as [H1 H2].
    destruct (Qlt_bool x y) eqn:E.
    + apply Qlt_bool_iff in E. split; [lra|].
      intros w [<-|Hw]; auto.
    + apply Qlt_bool_false_iff in E. split; [assumption|].
      intros w [<-|Hw]; [lra | auto].
Qed.

Lemma py_max_in l : forall x, In (py_max x l) (x :: l).
Proof.
  unfold py_max. induction l as [|y l IH]; intros x; simpl.
  - now left.
  - destruct (IH (if Qlt_bool x y then y else x)) as [H|H].
    + destruct (Qlt_bool x y); rewrite <- H; auto.
    + auto.
Qed.

Lemma round_half_even_compat a b :
  a == b -> round_half_even a = round_half_even b.
Proof.
  intros H. unfold round_half_even. rewrite (Qfloor_comp _ _ H).
  assert (E : (a - inject_Z (Qfloor b) ?= 1 # 2)
              = (b - inject_Z (Qfloor b) ?= 1 # 2)).
  { apply Qcompare_comp; [now rewrite H | reflexivity]. }
  now rewrite E.
Qed.

Lemma py_round_compat a b n : a == b -> py_round a n = py_round b n.
Proof.
  intros H. unfold py_round.
  set (scale := inject_Z (10 ^ Z.of_nat n)).
  rewrite (round_half_even_compat (a * scale) (b * scale)); [reflexivity|].
  now rewrite H.
Qed.

(** ** The classifier *)

Lemma max_values_spec ms mx :
  max_values ms = Some mx ->
  (exists k, In (k, mx) ms) /\ forall w, In w (values ms) -> w <= mx.
Proof.
  unfold max_values, values. destruct ms as [|[k0 v0] rest]; simpl; [discriminate|].
  intros H. inv_ok H. split.
  - destruct (py_max_in (map snd rest) v0) as [E|E].
    + exists k0. left. now rewrite <- E.
    + apply in_map_iff in E. destruct E as ([k v] & E & Hin). simpl in E.
      exists k. right. now rewrite <- E.
  - destruct (py_max_ge (map snd rest) v0) as [H1 H2].
    intros w [<-|Hw]; auto.
Qed.

Lemma max_values_nonempty ms kv :
  In kv ms -> exists mx, max_values ms = Some mx.
Proof.
  unfold max_values, values. destruct ms; simpl; [tauto | eauto].
Qed.

Lemma is_highest_iff ms mx v :
  max_values ms = Some mx -> In v (values ms) ->
  (v == mx <-> forall w, In w (values ms) -> w <= v).
Proof.
  intros Hmx Hin. destruct (max_values_spec _ _ Hmx) as [[k Hk] Hge].
  split.
  - intros E w Hw. rewrite E. auto.
  - intros Hv. apply Qle_antisym; [now apply Hge|].
    apply Hv. unfold values. change mx with (snd (k, mx)). now apply in_map.
Qed.

Lemma values_In (ms : dict nat Q) k v : In (k, v) ms -> In v (values ms).
Proof. intros H. unfold values. change v with (snd (k, v)). now apply in_map. Qed.

Lemma top_matches_In self ms opt k t :
  In (k, t) (_top_matches self ms opt) <->
  exists v mx,
    In (k, v) ms /\ max_values ms = Some mx /\ v == mx
    /\ py_round (required_threshold self) 2 <= py_round v 2
    /\ t = {| match_status := if Qlt_bool v opt then REVIEW else MATCHED;
              match_score := v |}.
Proof.
  unfold _top_matches, filter_highest. rewrite in_map_iff. split.
  - intros ([k' v] & E & Hin). simpl in E. inv_ok E.
    apply filter_In in Hin. destruct Hin as [Hin Hthr].
    apply filter_In in Hin. destruct Hin as [Hin Hmax]. simpl in *.
    destruct (max_values ms) as [mx|]; [|discriminate].
    exists v, mx. repeat split; auto.
    + now apply Qeq_bool_iff.
    + now apply Qle_bool_iff.
  - intros (v & mx & Hin & Hmx & Hv & Hthr & ->).
    exists (k, v). split; [reflexivity|].
    apply filter_In. split; [apply filter_In; split; [assumption|] |]; simpl.
    + rewrite Hmx. now apply Qeq_bool_iff.
    + now apply Qle_bool_iff.
Qed.

Lemma collected_iff self ms opt k v :
  In (k, v) ms ->
  (collected self ms opt k v <->
   (forall w, In w (values ms) -> w <= v)
   /\ py_round (required_threshold self) 2 <= py_round v 2).
Proof.
  intros Hin. unfold collected. rewrite top_matches_In.
  destruct (max_values_nonempty _ _ Hin) as [mx Hmx].
  pose proof (is_highest_iff _ _ v Hmx (values_In _ _ _ Hin)) as Hhigh.
  split.
  - intros (v' & mx' & _ & Hmx' & Hv' & Hthr & E). inv_ok E.
    rewrite Hmx in Hmx'. inv_ok Hmx'. split; [now apply Hhigh | assumption].
  - intros [Hmax Hthr]. exists v, mx. repeat split; auto. now apply Hhigh.
Qed.

(** C3 (as stated, refuted): the scores 80.001 and 80.002 are equal after
    rounding to 2 decimals and clear the threshold of 75, yet only the
    second candidate is collected, and [match] reports the row as MATCHED
    with that one candidate instead of AMBIGUOUS. *)
Lemma rounded_tie_is_not_a_tie :
  py_round (80001 # 1000) 2 == py_round (80002 # 1000) 2
  /\ py_round (required_threshold near_tie_matcher) 2 <= py_round (80001 # 1000) 2
  /\ keys (_top_matches near_tie_matcher near_tie 75) = [1%nat]
  /\ match _compute_score near_ratio near_tie_matcher
             [("name"%string, ["Anna"; "Anne"]%string)] 0 [("name"%string, 1)]
     with
     | Ok [(1%nat, b); (0%nat, a)] => a == 80001 # 1000 /\ b == 80002 # 1000
     | _ => False
     end
  /\ match match_ near_ratio near_tie_matcher with
     | Ok (df_matched, _) =>
         at_get df_matched 0 "match_status" = Some MATCHED
         /\ at_get df_matched 0 "row_index" = Some (PInt 3)
     | Raise _ => False
     end.
Proof.
  split; [reflexivity|]. split; [discriminate|]. split; [reflexivity|].
  split; [vm_compute; split; reflexivity|]. vm_compute. split; reflexivity.
Qed.


(** ** Duplicate detection *)

Lemma dict_get_replace_blank c df :
  dict_get String.eqb c (replace_blank df)
  = option_map (map blank_to_nan) (dict_get String.eqb c df).
Proof.
  induction df as [|[k cells] tl IH]; simpl; [reflexivity|].
  now destruct (String.eqb k c).
Qed.

Lemma combine_map_self {A B} (g : A -> B) (l : list A) :
  combine (map g l) l = map (fun v => (g v, v)) l.
Proof. induction l; simpl; congruence. Qed.

Lemma In_combine_seq {A} (l : list A) : forall s i x,
  In (i, x) (combine (seq s (List.length l)) l)
  <-> (s <= i)%nat /\ nth_error l (i - s) = Some x.
Proof.
  induction l as [|y l IH]; intros s i x; simpl.
  - split; [tauto|]. intros [_ H]. destruct (i - s)%nat; discriminate.
  - rewrite IH. split.
    + intros [E|[Hle Hn]].
      * inv_ok E. rewrite Nat.sub_diag. auto.
      * split; [lia|]. replace (i - s)%nat with (S (i - S s)) by lia. exact Hn.
    + intros [Hle Hn]. destruct (Nat.eq_dec s i) as [->|Hne].
      * left. rewrite Nat.sub_diag in Hn. simpl in Hn. congruence.
      * right. split; [lia|].
        replace (i - s)%nat with (S (i - S s)) in Hn by lia. exact Hn.
Qed.

Lemma get_column_dupes_In df column idx vals :
  get_column_dupes df column = Ok (idx, vals) ->
  exists cells,
    dict_get String.eqb column df = Some cells
    /\ forall i,
        In i idx <->
        exists v, nth_error (map blank_to_nan cells) i = Some v
                  /\ notna v = true
                  /\ (2 <= occurrences v (map blank_to_nan cells))%nat.
Proof.
  unfold get_column_dupes, getitem. rewrite dict_get_replace_blank.
  destruct (dict_get String.eqb column df) as [cells|]; simpl; [|discriminate].
  intros H. inv_ok H. exists cells. split; [reflexivity|].
  set (cells' := map blank_to_nan cells).
  intros i. rewrite in_map_iff. unfold duplicated. rewrite combine_map_self.
  split.
  - intros ([i' [b v]] & E & Hin). simpl in E. subst i'.
    apply filter_In in Hin. destruct Hin as [Hin Hp]. simpl in Hp.
    rewrite <- (length_map (fun v => ((2 <=? occurrences v cells')%nat, v))) in Hin.
    apply In_combine_seq in Hin. destruct Hin as [_ Hn].
    rewrite Nat.sub_0_r, nth_error_map in Hn.
    destruct (nth_error cells' i) as [v'|]; [|discriminate].
    simpl in Hn. injection Hn as Hb Hv. subst v' b.
    apply andb_true_iff in Hp. destruct Hp as [Hocc Hna].
    exists v. repeat split; auto. now apply Nat.leb_le.
  - intros (v & Hn & Hna & Hocc).
    exists (i, ((2 <=? occurrences v cells')%nat, v)). split; [reflexivity|].
    apply filter_In. split.
    + rewrite <- (length_map (fun v => ((2 <=? occurrences v cells')%nat, v))).
      apply In_combine_seq. split; [lia|].
      rewrite Nat.sub_0_r, nth_error_map, Hn. reflexivity.
    + cbn [fst snd]. apply andb_true_iff.
      split; [now apply Nat.leb_le | assumption].
Qed.

Lemma occurrences_one v l i a :
  nth_error l i = Some a -> pyobj_eqb v a = true -> (1 <= occurrences v l)%nat.
Proof.
  unfold occurrences. revert i; induction l as [|x l IH]; intros [|i] H E;
    simpl in *; try discriminate.
  - inv_ok H. rewrite E. simpl. lia.
  - specialize (IH _ H E). destruct (pyobj_eqb v x); simpl; lia.
Qed.

Lemma occurrences_two v l i j a b :
  i <> j -> nth_error l i = Some a -> nth_error l j = Some b ->
  pyobj_eqb v a = true -> pyobj_eqb v b = true -> (2 <= occurrences v l)%nat.
Proof.
  revert i j; induction l as [|x l IH]; intros [|i] [|j] Hij Hi Hj Ea Eb;
    simpl in *; try discriminate; try congruence.
  - inv_ok Hi. pose proof (occurrences_one _ _ _ _ Hj Eb) as H.
    unfold occurrences in *. simpl. rewrite Ea. simpl. lia.
  - inv_ok Hj. pose proof (occurrences_one _ _ _ _ Hi Ea) as H.
    unfold occurrences in *. simpl. rewrite Eb. simpl. lia.
  - assert (Hij' : i <> j) by congruence.
    specialize (IH _ _ Hij' Hi Hj Ea Eb).
    unfold occurrences in *. simpl. destruct (pyobj_eqb v x); simpl; lia.
Qed.

(** ** Writing into the result table *)

Lemma in_range_loc_set df idx c v i c' :
  in_range df i c' -> in_range (loc_set df idx c v) i c'.
Proof.
  unfold loc_set. revert df; induction idx as [|j idx IH]; intros df H; simpl.
  - exact H.
  - apply IH. now apply in_range_at_set.
Qed.

Lemma at_get_loc_set_col df idx c v i c' :
  c' <> c -> at_get (loc_set df idx c v) i c' = at_get df i c'.
Proof.
  intros Hc. unfold loc_set. revert df; induction idx as [|j idx IH]; intros df; simpl.
  - reflexivity.
  - rewrite IH. now apply at_get_at_set_col.
Qed.

Lemma at_get_loc_set_out df idx c v i c' :
  ~ In i idx -> at_get (loc_set df idx c v) i c' = at_get df i c'.
Proof.
  unfold loc_set. revert df; induction idx as [|j idx IH]; intros df Hi; simpl.
  - reflexivity.
  - rewrite IH by (intros H; apply Hi; now right).
    apply at_get_at_set_row. intros ->. apply Hi. now left.
Qed.

Lemma at_get_loc_set_in df idx c v i :
  In i idx -> in_range df i c -> at_get (loc_set df idx c v) i c = Some v.
Proof.
  unfold loc_set. revert df; induction idx as [|j idx IH]; intros df Hi Hr; simpl.
  - destruct Hi.
  - destruct (in_dec Nat.eq_dec i idx) as [Hin|Hout].
    + apply IH; [assumption | now apply in_range_at_set].
    + destruct Hi as [->|Hi]; [|contradiction].
      change (fold_left (fun d i0 => at_set d i0 c v) idx (at_set df i c v))
        with (loc_set (at_set df i c v) idx c v).
      rewrite at_get_loc_set_out by assumption.
      now apply at_get_at_set_same.
Qed.

Lemma len_set_column {A} (df : DataFrame A) c v : len (set_column df c v) = len df.
Proof.
  unfold set_column. destruct df as [|[k cells] tl]; simpl; [reflexivity|].
  destruct (String.eqb k c); simpl; [apply repeat_length | reflexivity].
Qed.

Lemma dict_get_set_column {A} (df : DataFrame A) c v c' :
  dict_get String.eqb c' (set_column df c v)
  = if String.eqb c c' then Some (repeat v (len df)) else dict_get String.eqb c' df.
Proof. unfold set_column. apply (dict_get_set String.eqb String.eqb_eq). Qed.

Lemma at_get_set_column_same {A} (df : DataFrame A) c v i :
  (i < len df)%nat -> at_get (set_column df c v) i c = Some v.
Proof.
  intros Hi. unfold at_get. rewrite dict_get_set_column, String.eqb_refl.
  apply nth_error_repeat. exact Hi.
Qed.

Lemma at_get_set_column_other {A} (df : DataFrame A) c v i c' :
  c <> c' -> at_get (set_column df c v) i c' = at_get df i c'.
Proof.
  intros Hc. unfold at_get. rewrite dict_get_set_column.
  destruct (String.eqb c c') eqn:E; [|reflexivity].
  apply String.eqb_eq in E. contradiction.
Qed.

(** ** The classification loop *)

Lemma len_init_df_matched self : len (init_df_matched self) = len (df_to self).
Proof.
  unfold init_df_matched. rewrite !len_set_column.
  set (df0 := map (fun col : string * list string => (fst col, map PStr (snd col)))
                  (df_to self)).
  assert (H0 : len df0 = len (df_to self)).
  { unfold df0. destruct (df_to self) as [|[k cells] tl]; simpl; [reflexivity|].
    apply length_map. }
  rewrite <- H0. generalize df0. clear.
  induction (columns_to_get self) as [|c cols IH]; intros df; simpl; [reflexivity|].
  rewrite IH. destruct (has_column c df); [reflexivity | apply len_set_column].
Qed.

Lemma init_df_matched_blank self i :
  (i < len (df_to self))%nat ->
  at_get (init_df_matched self) i "match_status" = Some blank
  /\ at_get (init_df_matched self) i "row_index" = Some blank
  /\ at_get (init_df_matched self) i "match_score" = Some blank.
Proof.
  intros Hi. pose proof (len_init_df_matched self) as Hlen.
  unfold init_df_matched in *. rewrite !len_set_column in Hlen.
  repeat split.
  - rewrite !at_get_set_column_other by discriminate.
    apply at_get_set_column_same. now rewrite Hlen.
  - rewrite at_get_set_column_other by discriminate.
    apply at_get_set_column_same. now rewrite len_set_column, Hlen.
  - apply at_get_set_column_same. now rewrite !len_set_column, Hlen.
Qed.

Section Loop.
Variable WRatio : string -> string -> Q.
Variable self : PandasMatcher.
Variable choices : dict string (list string).
Variable uniqueness : dict string Q.
Variable optimal_threshold : Q.

Lemma copy_columns_frame index_from j cols : forall df df',
  foldM (fun df column =>
           match at_get (df_from self) index_from column with
           | Some v => Ok (at_set df j column (PStr v))
           | None => Raise (KeyError column)
           end) cols df = Ok df' ->
  (forall i c, i <> j -> at_get df' i c = at_get df i c)
  /\ (forall i c, in_range df i c -> in_range df' i c).
Proof.
  induction cols as [|col cols IH]; intros df df' H; simpl in H.
  - inv_ok H. auto.
  - inv_bind H. destruct (at_get (df_from self) index_from col); [|discriminate].
    inv_ok Hbind. destruct (IH _ _ H) as [Hf Hr]. split.
    + intros i c Hij. rewrite Hf by assumption. now apply at_get_at_set_row.
    + intros i c Hin. apply Hr. now apply in_range_at_set.
Qed.

Lemma match_row_frame df sc j df' sc' :
  match_row WRatio self choices uniqueness optimal_threshold (df, sc) j
  = Ok (df', sc') ->
  (forall i c, i <> j -> at_get df' i c = at_get df i c)
  /\ (forall i c, in_range df i c -> in_range df' i c).
Proof.
  unfold match_row. intros H. inv_bind H. cbv zeta in H. simpl fst in H.
  simpl snd in H.
  destruct (_top_matches self a optimal_threshold) as [|[k t] [|p rest]].
  - inv_ok H. split; intros.
    + now apply at_get_at_set_row.
    + now apply in_range_at_set.
  - inv_bind H. inv_ok H.
    destruct (copy_columns_frame _ _ _ _ _ Hbind0) as [Hf Hr]. split; intros.
    + rewrite !at_get_at_set_row by assumption. now apply Hf.
    + repeat apply in_range_at_set. now apply Hr.
  - inv_ok H. split; intros.
    + now rewrite !at_get_at_set_row by assumption.
    + now repeat apply in_range_at_set.
Qed.

Lemma match_row_cells df sc j df' sc' :
  match_row WRatio self choices uniqueness optimal_threshold (df, sc) j
  = Ok (df', sc') ->
  in_range df j "match_status" -> in_range df j "row_index" ->
  in_range df j "match_score" ->
  at_get df j "row_index" = Some blank -> at_get df j "match_score" = Some blank ->
  exists ms,
    _compute_score WRatio self choices j uniqueness = Ok ms
    /\ at_get df' j "match_status"
       = Some (outcome_status (_top_matches self ms optimal_threshold))
    /\ at_get df' j "row_index"
       = Some (outcome_row_index (_top_matches self ms optimal_threshold))
    /\ at_get df' j "match_score"
       = Some (outcome_score (_top_matches self ms optimal_threshold))
    /\ sc' = sc ++ outcome_scores (_top_matches self ms optimal_threshold).
Proof.
  unfold match_row. intros H Hst Hri Hsc Bri Bsc. inv_bind H. cbv zeta in H.
  simpl fst in H. simpl snd in H. exists a. split; [assumption|].
  destruct (_top_matches self a optimal_threshold) as [|[k t] [|p rest]].
  - inv_ok H. simpl. rewrite app_nil_r. repeat split.
    + now apply at_get_at_set_same.
    + rewrite at_get_at_set_col by discriminate. assumption.
    + rewrite at_get_at_set_col by discriminate. assumption.
  - inv_bind H. inv_ok H.
    destruct (copy_columns_frame _ _ _ _ _ Hbind0) as [_ Hr].
    simpl. repeat split.
    + apply at_get_at_set_same. repeat apply in_range_at_set. now apply Hr.
    + rewrite !at_get_at_set_col by discriminate.
      apply at_get_at_set_same. now apply Hr.
    + rewrite at_get_at_set_col by discriminate.
      apply at_get_at_set_same. apply in_range_at_set. now apply Hr.
  - inv_ok H. cbn [outcome_status outcome_row_index outcome_score outcome_scores].
    rewrite app_nil_r. repeat split.
    + apply at_get_at_set_same. now apply in_range_at_set.
    + rewrite at_get_at_set_col by discriminate. now apply at_get_at_set_same.
    + rewrite !at_get_at_set_col by discriminate. assumption.
Qed.

Lemma match_loop_rows l : forall df sc df' sc',
  foldM (match_row WRatio self choices uniqueness optimal_threshold) l (df, sc)
  = Ok (df', sc') ->
  NoDup l ->
  (forall i, In i l ->
             in_range df i "match_status" /\ in_range df i "row_index"
             /\ in_range df i "match_score"
             /\ at_get df i "row_index" = Some blank
             /\ at_get df i "match_score" = Some blank) ->
  (forall i, In i l ->
             row_done WRatio self choices uniqueness optimal_threshold df' i)
  /\ (forall i c, ~ In i l -> at_get df' i c = at_get df i c).
Proof.
  induction l as [|j l IH]; intros df sc df' sc' H Hnd Hpre; simpl in H.
  - inv_ok H. split; [intros i [] | reflexivity].
  - inv_bind H. destruct a as [df1 sc1].
    destruct (match_row_frame _ _ _ _ _ Hbind) as [Hf Hr].
    inversion Hnd as [|? ? Hj Hnd']; subst.
    destruct (IH _ _ _ _ H Hnd') as [Hdone Hout].
    { intros i Hi. assert (Hij : i <> j) by (intros ->; contradiction).
      destruct (Hpre i (or_intror Hi)) as (R1 & R2 & R3 & B1 & B2).
      rewrite !Hf by assumption. repeat split; auto. }
    split.
    + intros i [<-|Hi]; [|now apply Hdone].
      destruct (Hpre j (or_introl eq_refl)) as (R1 & R2 & R3 & B1 & B2).
      destruct (match_row_cells _ _ _ _ _ Hbind R1 R2 R3 B1 B2)
        as (ms & Hms & C1 & C2 & C3 & _).
      exists ms. rewrite !Hout by assumption. auto.
    + intros i c Hi. rewrite Hout by (intros Hin; apply Hi; now right).
      apply Hf. intros ->. apply Hi. now left.
Qed.

End Loop.

(** ** The whole of [match] *)

Section MatchFacts.
Variable WRatio : string -> string -> Q.

Lemma match_rows_spec self df_rows scores :
  match_rows WRatio self = Ok (df_rows, scores) ->
  exists uniqueness optimal_threshold choices,
    prepared self uniqueness optimal_threshold choices
    /\ forall i, (i < len (df_to self))%nat ->
                 row_done WRatio self choices uniqueness optimal_threshold df_rows i.
Proof.
  unfold match_rows. intros H. inv_bind H. inv_bind H. inv_bind H.
  exists a, a0, a1. split; [repeat split; assumption|].
  destruct (match_loop_rows _ _ _ _ _ _ _ _ _ _ H (seq_NoDup _ _)) as [Hdone _].
  - intros i Hi. apply in_seq in Hi.
    destruct (init_df_matched_blank self i) as (B1 & B2 & B3); [lia|].
    repeat split; try assumption; apply at_get_in_range; eauto.
  - intros i Hi. apply Hdone. apply in_seq. lia.
Qed.

Lemma match_spec self df_matched m_info :
  match_ WRatio self = Ok (df_matched, m_info) ->
  exists df_rows scores dupe_index dupes,
    match_rows WRatio self = Ok (df_rows, scores)
    /\ get_column_dupes df_rows "row_index" = Ok (dupe_index, dupes)
    /\ df_matched = loc_set df_rows dupe_index "match_status" DUPLICATES
    /\ summary self df_matched scores = Ok m_info.
Proof.
  unfold match_. intros H. inv_bind H. inv_bind H. inv_bind H. inv_ok H.
  destruct a as [df_rows scores]. destruct a0 as [dupe_index dupes].
  exists df_rows, scores, dupe_index, dupes. auto.
Qed.

(** What the final table holds in row [i], given the table after the loop. *)
Lemma final_row self choices uniqueness optimal_threshold df_rows dupe_index dupes i :
  row_done WRatio self choices uniqueness optimal_threshold df_rows i ->
  get_column_dupes df_rows "row_index" = Ok (dupe_index, dupes) ->
  exists ms,
    _compute_score WRatio self choices i uniqueness = Ok ms
    /\ at_get df_rows i "match_status"
       = Some (outcome_status (_top_matches self ms optimal_threshold))
    /\ at_get (loc_set df_rows dupe_index "match_status" DUPLICATES) i "row_index"
       = Some (outcome_row_index (_top_matches self ms optimal_threshold))
    /\ at_get (loc_set df_rows dupe_index "match_status" DUPLICATES) i "match_score"
       = Some (outcome_score (_top_matches self ms optimal_threshold))
    /\ (In i dupe_index ->
        at_get (loc_set df_rows dupe_index "match_status" DUPLICATES) i "match_status"
        = Some DUPLICATES)
    /\ (~ In i dupe_index ->
        at_get (loc_set df_rows dupe_index "match_status" DUPLICATES) i "match_status"
        = Some (outcome_status (_top_matches self ms optimal_threshold)))
    /\ (In i dupe_index <->
        exists cells,
          dict_get String.eqb "row_index"%string df_rows = Some cells
          /\ notna (blank_to_nan
                      (outcome_row_index (_top_matches self ms optimal_threshold)))
             = true
          /\ (2 <= occurrences
                     (blank_to_nan
                        (outcome_row_index (_top_matches self ms optimal_threshold)))
                     (map blank_to_nan cells))%nat).
Proof.
  intros (ms & Hms & Hst & Hri & Hsc) Hd. exists ms.
  split; [assumption|]. split; [assumption|].
  rewrite !at_get_loc_set_col by discriminate.
  split; [assumption|]. split; [assumption|]. split; [|split].
  - intros Hin. apply at_get_loc_set_in; [assumption|].
    apply at_get_in_range. eauto.
  - intros Hout. now rewrite at_get_loc_set_out.
  - destruct (get_column_dupes_In _ _ _ _ Hd) as (cells & Hc & Hiff).
    unfold at_get in Hri. rewrite Hc in Hri.
    rewrite Hiff. split.
    + intros (v & Hn & Hna & Hocc). rewrite nth_error_map, Hri in Hn.
      simpl in Hn. inv_ok Hn. exists cells. auto.
    + intros (cells' & Hc' & Hna & Hocc). rewrite Hc in Hc'. inv_ok Hc'.
      eexists. rewrite nth_error_map, Hri. simpl. eauto.
Qed.

End MatchFacts.

Lemma top_matches_status self ms opt k t :
  In (k, t) (_top_matches self ms opt) ->
  match_status t = (if Qlt_bool (match_score t) opt then REVIEW else MATCHED).
Proof.
  intros H. apply top_matches_In in H.
  destruct H as (v & mx & _ & _ & _ & _ & ->). reflexivity.
Qed.

Lemma top_matches_nil_iff self ms opt :
  _top_matches self ms opt = [] <->
  match max_values ms with
  | Some highest => py_round highest 2 < py_round (required_threshold self) 2
  | None => True
  end.
Proof.
  destruct (max_values ms) as [mx|] eqn:Hmx.
  - destruct (max_values_spec _ _ Hmx) as [[k Hk] _]. split.
    + intros Hnil.
      destruct (Qlt_le_dec (py_round mx 2) (py_round (required_threshold self) 2))
        as [Hlt|Hle]; [assumption|].
      assert (Hin : In (k, {| match_status :=
                                if Qlt_bool mx opt then REVIEW else MATCHED;
                              match_score := mx |})
                       (_top_matches self ms opt)).
      { apply top_matches_In. exists mx, mx. repeat split; auto; reflexivity. }
      rewrite Hnil in Hin. destruct Hin.
    + intros Hlt. destruct (_top_matches self ms opt) as [|[k' t] rest] eqn:E;
        [reflexivity|].
      assert (Hin : In (k', t) (_top_matches self ms opt)) by (rewrite E; now left).
      apply top_matches_In in Hin.
      destruct Hin as (v & mx' & _ & Hmx' & Hv & Hthr & _).
      rewrite Hmx in Hmx'. inv_ok Hmx'.
      rewrite (py_round_compat _ _ 2 Hv) in Hthr. lra.
  - split; [trivial|]. intros _.
    unfold max_values, values in Hmx. destruct ms; [reflexivity | discriminate].
Qed.

Lemma prepared_unique self u o c u' o' c' :
  prepared self u o c -> prepared self u' o' c' -> u = u' /\ o = o' /\ c = c'.
Proof.
  intros (H1 & H2 & H3) (H1' & H2' & H3').
  rewrite H1 in H1'. inv_ok H1'. rewrite H2 in H2'. inv_ok H2'.
  rewrite H3 in H3'. inv_ok H3'. auto.
Qed.

Lemma match_row_final WRatio self df_matched m_info uniqueness optimal_threshold
      choices i ms :
  match_ WRatio self = Ok (df_matched, m_info) ->
  prepared self uniqueness optimal_threshold choices ->
  (i < len (df_to self))%nat ->
  _compute_score WRatio self choices i uniqueness = Ok ms ->
  exists df_rows scores dupe_index dupes cells,
    match_rows WRatio self = Ok (df_rows, scores)
    /\ get_column_dupes df_rows "row_index" = Ok (dupe_index, dupes)
    /\ dict_get String.eqb "row_index"%string df_rows = Some cells
    /\ nth_error cells i
       = Some (outcome_row_index (_top_matches self ms optimal_threshold))
    /\ at_get df_rows i "match_status"
       = Some (outcome_status (_top_matches self ms optimal_threshold))
    /\ at_get df_matched i "row_index"
       = Some (outcome_row_index (_top_matches self ms optimal_threshold))
    /\ at_get df_matched i "match_score"
       = Some (outcome_score (_top_matches self ms optimal_threshold))
    /\ at_get df_matched i "match_status"
       = Some (if in_dec Nat.eq_dec i dupe_index then DUPLICATES
               else outcome_status (_top_matches self ms optimal_threshold))
    /\ (In i dupe_index <->
        notna (blank_to_nan
                 (outcome_row_index (_top_matches self ms optimal_threshold)))
        = true
        /\ (2 <= occurrences
                   (blank_to_nan
                      (outcome_row_index (_top_matches self ms optimal_threshold)))
                   (map blank_to_nan cells))%nat).
Proof.
  intros Hm Hp Hi Hms.
  destruct (match_spec _ _ _ _ Hm) as (df_rows & scores & idx & dupes & Hr & Hd & -> & _).
  destruct (match_rows_spec _ _ _ _ Hr) as (u & o & c & Hp' & Hrows).
  destruct (prepared_unique _ _ _ _ _ _ _ Hp Hp') as (<- & <- & <-).
  pose proof (Hrows i Hi) as Hdone.
  destruct (final_row _ _ _ _ _ _ _ _ _ Hdone Hd)
    as (ms' & Hms' & Hst & Hri & Hsc & Hin & Hout & Hiff).
  rewrite Hms in Hms'. inv_ok Hms'.
  destruct Hdone as (ms'' & Hms'' & _ & Hri0 & _).
  rewrite Hms in Hms''. inv_ok Hms''.
  unfold at_get in Hri0.
  destruct (dict_get String.eqb "row_index"%string df_rows) as [cells|] eqn:Hc;
    [|discriminate].
  exists df_rows, scores, idx, dupes, cells.
  repeat (split; [assumption || reflexivity|]). split.
  - destruct (in_dec Nat.eq_dec i idx); auto.
  - rewrite Hiff. split.
    + intros (cells' & E & H1 & H2). inv_ok E. auto.
    + intros [H1 H2]. eauto.
Qed.

Lemma optimal_threshold_formula self uniqueness cols optimal_threshold :
  optimal_threshold_of self uniqueness cols = Ok optimal_threshold ->
  optimal_threshold
  = py_sum (map (fun c => threshold_of self c * weight uniqueness c) cols).
Proof.
  unfold optimal_threshold_of. intros H. inv_bind H. inv_ok H. f_equal.
  revert a Hbind. induction cols as [|c cols IH]; simpl; intros terms H.
  - now inv_ok H.
  - inv_bind H. inv_bind H. inv_ok H. inv_bind Hbind. inv_ok Hbind.
    unfold series_get in Hbind1. unfold weight.
    destruct (dict_get String.eqb c uniqueness); [|discriminate].
    inv_ok Hbind1. f_equal. now apply IH.
Qed.

(** C1: in the table returned by [match], a row is UNMATCHED exactly when
    none of its maximum-score candidates passes the rounded threshold test
    of [_top_matches], that is, exactly when the maximum composite score of
    the row, rounded to 2 decimals, is strictly below the required
    threshold rounded to 2 decimals (a row without any scored candidate has
    nothing that passes); such a row has an empty [row_index] and an empty
    [match_score]. *)
Theorem unmatched_iff_below_threshold WRatio self df_matched m_info
        uniqueness optimal_threshold choices i ms :
  match_ WRatio self = Ok (df_matched, m_info) ->
  prepared self uniqueness optimal_threshold choices ->
  (i < len (df_to self))%nat ->
  _compute_score WRatio self choices i uniqueness = Ok ms ->
  (at_get df_matched i "match_status" = Some UNMATCHED
   <-> _top_matches self ms optimal_threshold = [])
  /\ (at_get df_matched i "match_status" = Some UNMATCHED
      <-> match max_values ms with
          | Some highest =>
              py_round highest 2 < py_round (required_threshold self) 2
          | None => True
          end)
  /\ (at_get df_matched i "match_status" = Some UNMATCHED ->
      at_get df_matched i "row_index" = Some blank
      /\ at_get df_matched i "match_score" = Some blank).
Proof.
  intros Hm Hp Hi Hms.
  destruct (match_row_final _ _ _ _ _ _ _ _ _ Hm Hp Hi Hms)
    as (df_rows & scores & idx & dupes & cells & _ & _ & _ & _ & _
        & Hri & Hsc & Hst & Hdup).
  assert (Hiff : at_get df_matched i "match_status" = Some UNMATCHED
                 <-> _top_matches self ms optimal_threshold = []).
  { rewrite Hst. split.
    - destruct (in_dec Nat.eq_dec i idx) as [_|_]; [discriminate|].
      destruct (_top_matches self ms optimal_threshold) as [|[k t] [|p rest]] eqn:E;
        simpl; intros H; [reflexivity | | discriminate].
      rewrite (top_matches_status self ms optimal_threshold k t) in H
        by (rewrite E; now left).
      destruct (Qlt_bool (match_score t) optimal_threshold); discriminate.
    - intros E. rewrite E in *. simpl.
      destruct (in_dec Nat.eq_dec i idx) as [Hin|_]; [|reflexivity].
      apply Hdup in Hin. destruct Hin as [Hna _]. discriminate. }
  split; [exact Hiff|]. split.
  - rewrite Hiff. apply top_matches_nil_iff.
  - intros H. apply Hiff in H. rewrite H in Hri, Hsc. auto.
Qed.

Lemma unmatched_iff_below_threshold_witness :
  (at_get (fst demo_matched) 3 "match_status" = Some UNMATCHED
   <-> _top_matches demo (demo_row_scores 3) demo_optimal = [])
  /\ (at_get (fst demo_matched) 3 "match_status" = Some UNMATCHED
      <-> match max_values (demo_row_scores 3) with
          | Some highest =>
              py_round highest 2 < py_round (required_threshold demo) 2
          | None => True
          end)
  /\ (at_get (fst demo_matched) 3 "match_status" = Some UNMATCHED ->
      at_get (fst demo_matched) 3 "row_index" = Some blank
      /\ at_get (fst demo_matched) 3 "match_score" = Some blank).
Proof.
  apply (unmatched_iff_below_threshold exact_ratio demo (fst demo_matched)
           (snd demo_matched) demo_uniqueness demo_optimal demo_choices).
  - vm_compute. reflexivity.
  - repeat split; vm_compute; reflexivity.
  - vm_compute. lia.
  - vm_compute. reflexivity.
Defined.

(** C2: when exactly one candidate of a row is a top match, the loop of
    [match] gives the row the status MATCHED if the candidate's score is at
    least the optimal threshold and REVIEW if it is strictly below, the
    optimal threshold being the sum over the actively mapped columns of the
    column's threshold times its uniqueness weight; the returned table
    carries that status unless duplicate resolution flagged the row. *)
Theorem unique_top_match_status WRatio self df_matched m_info
        uniqueness optimal_threshold choices i ms k top :
  match_ WRatio self = Ok (df_matched, m_info) ->
  prepared self uniqueness optimal_threshold choices ->
  (i < len (df_to self))%nat ->
  _compute_score WRatio self choices i uniqueness = Ok ms ->
  _top_matches self ms optimal_threshold = [(k, top)] ->
  optimal_threshold
  = py_sum (map (fun c => threshold_of self c * weight uniqueness c)
                (active_columns self))
  /\ exists df_rows scores dupe_index dupes,
      match_rows WRatio self = Ok (df_rows, scores)
      /\ get_column_dupes df_rows "row_index" = Ok (dupe_index, dupes)
      /\ (optimal_threshold <= match_score top ->
          at_get df_rows i "match_status" = Some MATCHED)
      /\ (match_score top < optimal_threshold ->
          at_get df_rows i "match_status" = Some REVIEW)
      /\ (~ In i dupe_index ->
          at_get df_matched i "match_status" = at_get df_rows i "match_status")
      /\ (In i dupe_index ->
          at_get df_matched i "match_status" = Some DUPLICATES).
Proof.
  intros Hm Hp Hi Hms Htop. split.
  - destruct Hp as (_ & Ho & _). now apply optimal_threshold_formula.
  - destruct (match_row_final _ _ _ _ _ _ _ _ _ Hm Hp Hi Hms)
      as (df_rows & scores & idx & dupes & cells & Hr & Hd & _ & _ & Hst0
          & _ & _ & Hst & _).
    exists df_rows, scores, idx, dupes.
    split; [assumption|]. split; [assumption|].
    rewrite Hst, Hst0, Htop. simpl.
    rewrite (top_matches_status self ms optimal_threshold k top)
      by (rewrite Htop; now left).
    repeat split.
    + intros Hle. apply Qlt_bool_false_iff in Hle. now rewrite Hle.
    + intros Hlt. apply Qlt_bool_iff in Hlt. now rewrite Hlt.
    + intros Hout. destruct (in_dec Nat.eq_dec i idx); [contradiction | reflexivity].
    + intros Hin. destruct (in_dec Nat.eq_dec i idx); [reflexivity | contradiction].
Qed.

Lemma unique_top_match_status_witness :
  demo_optimal
  = py_sum (map (fun c => threshold_of demo c * weight demo_uniqueness c)
                (active_columns demo))
  /\ exists df_rows scores dupe_index dupes,
      match_rows exact_ratio demo = Ok (df_rows, scores)
      /\ get_column_dupes df_rows "row_index" = Ok (dupe_index, dupes)
      /\ (demo_optimal <= 921600 # 9216 ->
          at_get df_rows 0 "match_status" = Some MATCHED)
      /\ (921600 # 9216 < demo_optimal ->
          at_get df_rows 0 "match_status" = Some REVIEW)
      /\ (~ In 0%nat dupe_index ->
          at_get (fst demo_matched) 0 "match_status"
          = at_get df_rows 0 "match_status")
      /\ (In 0%nat dupe_index ->
          at_get (fst demo_matched) 0 "match_status" = Some DUPLICATES).
Proof.
  apply (unique_top_match_status exact_ratio demo (fst demo_matched)
           (snd demo_matched) demo_uniqueness demo_optimal demo_choices
           0%nat (demo_row_scores 0) 0%nat
           {| match_status := MATCHED; match_score := 921600 # 9216 |}).
  - vm_compute. reflexivity.
  - repeat split; vm_compute; reflexivity.
  - vm_compute. lia.
  - vm_compute. reflexivity.
  - vm_compute. reflexivity.
Defined.

(** C3 (amended): two candidates of a row are both collected as top matches
    exactly when their scores are equal as computed (no rounding), no
    candidate of the row scores higher, and the score rounded to 2 decimals
    reaches the rounded required threshold; rounding is applied only in the
    threshold test.  The loop of [match] marks the row AMBIGUOUS exactly
    when at least two candidates are collected. *)
Theorem top_matches_ties_are_exact self ms opt k1 v1 k2 v2 :
  In (k1, v1) ms -> In (k2, v2) ms ->
  ((collected self ms opt k1 v1 /\ collected self ms opt k2 v2)
   <-> (v1 == v2
        /\ (forall w, In w (values ms) -> w <= v1)
        /\ py_round (required_threshold self) 2 <= py_round v1 2))
  /\ (forall WRatio choices uniqueness df_rows scores i,
        prepared self uniqueness opt choices ->
        match_rows WRatio self = Ok (df_rows, scores) ->
        (i < len (df_to self))%nat ->
        _compute_score WRatio self choices i uniqueness = Ok ms ->
        (at_get df_rows i "match_status" = Some AMBIGUOUS
         <-> (2 <= List.length (_top_matches self ms opt))%nat)).
Proof.
  intros H1 H2. split.
  - rewrite !collected_iff by assumption. split.
    + intros [[Hmax1 Hthr1] [Hmax2 _]]. repeat split; auto.
      apply Qle_antisym.
      * apply Hmax2. now apply values_In with k1.
      * apply Hmax1. now apply values_In with k2.
    + intros (E & Hmax & Hthr). repeat split; auto.
      * intros w Hw. rewrite <- E. auto.
      * now rewrite <- (py_round_compat v1 v2 2 E).
  - intros WRatio choices uniqueness df_rows scores i Hp Hr Hi Hms.
    destruct (match_rows_spec _ _ _ _ Hr) as (u & o & c & Hp' & Hrows).
    destruct (prepared_unique _ _ _ _ _ _ _ Hp Hp') as (<- & <- & <-).
    destruct (Hrows i Hi) as (ms' & Hms' & Hst & _).
    rewrite Hms in Hms'. inv_ok Hms'. rewrite Hst.
    destruct (_top_matches self ms' opt) as [|[k t] [|p rest]] eqn:E; simpl.
    + split; [discriminate | lia].
    + rewrite (top_matches_status self ms' opt k t) by (rewrite E; now left).
      split; [|lia]. destruct (Qlt_bool (match_score t) opt); discriminate.
    + split; [lia | reflexivity].
Qed.

Lemma top_matches_ties_are_exact_witness :
  ((collected init exact_tie 75 0 (80 # 1) /\ collected init exact_tie 75 1 (160 # 2))
   <-> (80 # 1 == 160 # 2
        /\ (forall w, In w (values exact_tie) -> w <= 80 # 1)
        /\ py_round (required_threshold init) 2 <= py_round (80 # 1) 2))
  /\ (forall WRatio choices uniqueness df_rows scores i,
        prepared init uniqueness 75 choices ->
        match_rows WRatio init = Ok (df_rows, scores) ->
        (i < len (df_to init))%nat ->
        _compute_score WRatio init choices i uniqueness = Ok exact_tie ->
        (at_get df_rows i "match_status" = Some AMBIGUOUS
         <-> (2 <= List.length (_top_matches init exact_tie 75))%nat)).
Proof.
  apply top_matches_ties_are_exact; simpl; auto.
Defined.

(** C6: when two distinct target rows each have exactly one top match and it
    is the same reference row, both rows carry DUPLICATES in the table
    returned by [match], whatever status the loop had given them. *)
Theorem shared_reference_row_is_duplicates WRatio self df_matched m_info
        uniqueness optimal_threshold choices i j msi msj k topi topj :
  match_ WRatio self = Ok (df_matched, m_info) ->
  prepared self uniqueness optimal_threshold choices ->
  (i < len (df_to self))%nat -> (j < len (df_to self))%nat -> i <> j ->
  _compute_score WRatio self choices i uniqueness = Ok msi ->
  _compute_score WRatio self choices j uniqueness = Ok msj ->
  _top_matches self msi optimal_threshold = [(k, topi)] ->
  _top_matches self msj optimal_threshold = [(k, topj)] ->
  at_get df_matched i "match_status" = Some DUPLICATES
  /\ at_get df_matched j "match_status" = Some DUPLICATES.
Proof.
  intros Hm Hp Hi Hj Hij Hmsi Hmsj Hti Htj.
  destruct (match_row_final _ _ _ _ _ _ _ _ _ Hm Hp Hi Hmsi)
    as (df_rows & scores & idx & dupes & cells & Hr & Hd & Hc & Hni & _
        & _ & _ & Hsti & Hdi).
  destruct (match_row_final _ _ _ _ _ _ _ _ _ Hm Hp Hj Hmsj)
    as (df_rows' & scores' & idx' & dupes' & cells' & Hr' & Hd' & Hc' & Hnj & _
        & _ & _ & Hstj & Hdj).
  rewrite Hr in Hr'. inv_ok Hr'. rewrite Hd in Hd'. inv_ok Hd'.
  rewrite Hc in Hc'. inv_ok Hc'.
  rewrite Hti in *. rewrite Htj in *. simpl in *.
  assert (Hocc : (2 <= occurrences (PInt (Z.of_nat k + 2))
                                   (map blank_to_nan cells'))%nat).
  { apply (occurrences_two _ _ i j (PInt (Z.of_nat k + 2)) (PInt (Z.of_nat k + 2)));
      auto.
    - rewrite nth_error_map, Hni. reflexivity.
    - rewrite nth_error_map, Hnj. reflexivity.
    - simpl. apply Z.eqb_refl.
    - simpl. apply Z.eqb_refl. }
  assert (Ini : In i idx') by (apply Hdi; split; [reflexivity | exact Hocc]).
  assert (Inj : In j idx') by (apply Hdj; split; [reflexivity | exact Hocc]).
  rewrite Hsti, Hstj.
  destruct (in_dec Nat.eq_dec i idx'); [|contradiction].
  destruct (in_dec Nat.eq_dec j idx'); [|contradiction].
  split; reflexivity.
Qed.

Lemma shared_reference_row_is_duplicates_witness :
  at_get (fst demo_matched) 1 "match_status" = Some DUPLICATES
  /\ at_get (fst demo_matched) 2 "match_status" = Some DUPLICATES.
Proof.
  apply (shared_reference_row_is_duplicates exact_ratio demo (fst demo_matched)
           (snd demo_matched) demo_uniqueness demo_optimal demo_choices
           1%nat 2%nat (demo_row_scores 1) (demo_row_scores 2) 2%nat
           {| match_status := MATCHED; match_score := 921600 # 9216 |}
           {| match_status := MATCHED; match_score := 921600 # 9216 |}).
  - vm_compute. reflexivity.
  - repeat split; vm_compute; reflexivity.
  - vm_compute. lia.
  - vm_compute. lia.
  - discriminate.
  - vm_compute. reflexivity.
  - vm_compute. reflexivity.
  - vm_compute. reflexivity.
  - vm_compute. reflexivity.
Defined.

(** ** The candidate pool *)

Lemma insert_desc_perm {A} (le : A -> A -> bool) x l :
  Permutation (x :: l) (insert_desc le x l).
Proof.
  induction l as [|y l IH]; simpl; [reflexivity|].
  destruct (le y x); [reflexivity|].
  rewrite perm_swap. now apply perm_skip.
Qed.

Lemma sort_desc_perm {A} (le : A -> A -> bool) l :
  Permutation l (sort_desc le l).
Proof.
  unfold sort_desc. induction l as [|x l IH]; simpl; [reflexivity|].
  rewrite <- insert_desc_perm. now apply perm_skip.
Qed.

Lemma filter_all {A} (f : A -> bool) l :
  (forall x, In x l -> f x = true) -> filter f l = l.
Proof.
  induction l as [|x l IH]; simpl; intros H; [reflexivity|].
  rewrite (H x (or_introl eq_refl)). f_equal. apply IH. intros; apply H; now right.
Qed.

Lemma length_items choice : List.length (items choice) = List.length choice.
Proof. unfold items. rewrite length_combine, length_seq. apply Nat.min_id. Qed.

Lemma keys_items choice : map fst (items choice) = seq 0 (List.length choice).
Proof.
  unfold items. generalize 0%nat.
  induction choice as [|x l IH]; intros s; simpl; [reflexivity|].
  now rewrite IH.
Qed.

Lemma take_seq (choice : list string) : forall pre,
  mapM (fun p => match nth_error (pre ++ choice) p with
                 | Some s => Ok (p, s)
                 | None => Raise IndexError
                 end) (seq (List.length pre) (List.length choice))
  = Ok (combine (seq (List.length pre) (List.length choice)) choice).
Proof.
  induction choice as [|x l IH]; intros pre; simpl; [reflexivity|].
  rewrite nth_error_app2, Nat.sub_diag by lia. simpl.
  specialize (IH (pre ++ [x])). rewrite <- app_assoc in IH. simpl in IH.
  rewrite length_app in IH. simpl in IH. rewrite Nat.add_1_r in IH.
  rewrite IH. reflexivity.
Qed.

Lemma candidate_query_all choice :
  candidate_query choice (seq 0 (List.length choice)) = Ok (items choice).
Proof.
  unfold candidate_query, take. pose proof (take_seq choice []) as H.
  simpl in H. rewrite H. simpl.
  unfold items. now destruct (combine (seq 0 (List.length choice)) choice).
Qed.

Lemma foldM_invariant {A S : Type} (P : S -> Prop) (body : S -> A -> result S) l :
  (forall s x s', P s -> body s x = Ok s' -> P s') ->
  forall s s', P s -> foldM body l s = Ok s' -> P s'.
Proof.
  intros Hstep. induction l as [|x l IH]; intros s s' Hs H; simpl in H.
  - now inv_ok H.
  - inv_bind H. eapply IH; [|exact H]. eapply Hstep; eauto.
Qed.

Lemma choices_length self choices :
  wf_df (df_from self) -> _choices self = Ok choices ->
  forall c cells, dict_get String.eqb c choices = Some cells ->
                  List.length cells = len (df_from self).
Proof.
  intros Hwf. unfold _choices.
  apply (foldM_invariant
           (fun d : dict string (list string) =>
              forall c cells, dict_get String.eqb c d = Some cells ->
                              List.length cells = len (df_from self))).
  - intros d item d'.
    apply (foldM_invariant
             (fun d : dict string (list string) =>
                forall c cells, dict_get String.eqb c d = Some cells ->
                                List.length cells = len (df_from self))).
    clear d d'. intros d col d' Hd H. inv_bind H. unfold getitem in Hbind.
    destruct (dict_get String.eqb col (df_from self)) as [cells0|] eqn:Hcol;
      [|discriminate].
    inv_ok Hbind. pose proof (wf_df_column _ _ _ Hwf Hcol) as Hlen0.
    intros c cells.
    destruct (dict_get String.eqb (fst item) d) as [cur|] eqn:Hcur;
      inv_ok H; rewrite (dict_get_set String.eqb String.eqb_eq);
      destruct (String.eqb (fst item) c); try apply Hd; intros E; inv_ok E.
    + rewrite length_map, length_combine, (Hd _ _ Hcur), Hlen0.
      apply Nat.min_id.
    + assumption.
  - intros c cells E. discriminate.
Qed.

Lemma keys_dict_update_key {V} dflt (f : V -> V) (k : nat) (d : dict nat V) :
  In k (keys (dict_update Nat.eqb dflt f k d)).
Proof.
  unfold dict_update.
  destruct (dict_get Nat.eqb k d); apply (keys_dict_set_key Nat.eqb Nat.eqb_eq).
Qed.

Lemma keys_dict_update_incl {V} dflt (f : V -> V) (k p : nat) (d : dict nat V) :
  In p (keys d) -> In p (keys (dict_update Nat.eqb dflt f k d)).
Proof.
  unfold dict_update.
  destruct (dict_get Nat.eqb k d); apply (keys_dict_set_incl Nat.eqb).
Qed.

Section Pool.
Variable WRatio : string -> string -> Q.

Lemma extract_keys v (query : list (nat * string)) limit score_cutoff :
  (List.length query <= limit)%nat ->
  (forall kc, In kc query -> Qle_bool score_cutoff (WRatio v (snd kc)) = true) ->
  forall p, In p (map fst query) ->
            In p (map snd (extract WRatio v query limit score_cutoff)).
Proof.
  intros Hlen Hcut p Hp. unfold extract.
  set (scored := map (fun kc : nat * string => (snd kc, WRatio v (snd kc), fst kc))
                     query).
  rewrite filter_all.
  - set (le := fun a b : string * Q * nat => Qle_bool (snd (fst a)) (snd (fst b))).
    pose proof (sort_desc_perm le scored) as Hperm.
    rewrite firstn_all2.
    + apply in_map_iff in Hp. destruct Hp as (kc & <- & Hkc).
      apply in_map_iff. exists (snd kc, WRatio v (snd kc), fst kc).
      split; [reflexivity|]. apply (Permutation_in _ Hperm).
      unfold scored. apply in_map_iff. eauto.
    + rewrite <- (Permutation_length Hperm). unfold scored.
      now rewrite length_map.
  - intros r Hr. unfold scored in Hr. apply in_map_iff in Hr.
    destruct Hr as (kc & <- & Hkc). simpl. now apply Hcut.
Qed.

Lemma accumulate_keys uniqueness column_to matches : forall acc acc',
  accumulate uniqueness column_to matches acc = Ok acc' ->
  (forall p, In p (keys acc) -> In p (keys acc'))
  /\ (forall m, In m matches -> In (snd m) (keys acc')).
Proof.
  unfold accumulate. induction matches as [|m matches IH]; intros acc acc' H;
    simpl in H.
  - inv_ok H. split; [auto | intros m []].
  - inv_bind H. inv_bind Hbind. inv_ok Hbind.
    destruct (IH _ _ H) as [Hmono Hall]. split.
    + intros p Hp. apply Hmono. now apply keys_dict_update_incl.
    + intros m' [<-|Hm']; [|now apply Hall].
      apply Hmono. apply keys_dict_update_key.
Qed.

Lemma score_column_mono self choices uniqueness row_to indices acc item acc' :
  score_column WRatio self choices uniqueness row_to indices acc item = Ok acc' ->
  forall p, In p (keys acc) -> In p (keys acc').
Proof.
  unfold score_column. destruct (snd item); intros H.
  - now inv_ok H.
  - inv_bind H. inv_bind H. inv_bind H.
    now destruct (accumulate_keys _ _ _ _ _ H).
Qed.

Lemma score_column_all self choices uniqueness row_to indices acc item acc' :
  (forall a b, 0 <= WRatio a b) -> cutoff self = false ->
  (forall c choice, dict_get String.eqb c choices = Some choice ->
                    candidate_query choice indices = Ok (items choice)
                    /\ List.length choice = len (df_from self)) ->
  snd item <> [] ->
  score_column WRatio self choices uniqueness row_to indices acc item = Ok acc' ->
  forall p, (p < len (df_from self))%nat -> In p (keys acc').
Proof.
  intros Hpos Hcut Hch Hact. unfold score_column.
  destruct (snd item) as [|c0 cs]; [congruence|]. intros H p Hp.
  inv_bind H. inv_bind H. inv_bind H.
  unfold series_get in Hbind0.
  destruct (dict_get String.eqb (fst item) choices) as [choice|] eqn:Hc;
    [|discriminate].
  inv_ok Hbind0. destruct (Hch _ _ Hc) as [Hq Hlen].
  rewrite Hq in Hbind1. inv_ok Hbind1. rewrite Hcut in H. simpl in H.
  destruct (accumulate_keys _ _ _ _ _ H) as [_ Hall].
  assert (Hin : In p (map snd (extract WRatio a (items a0) (len (df_from self)) 0))).
  { apply extract_keys.
    - rewrite length_items. lia.
    - intros kc _. apply Qle_bool_iff. apply Hpos.
    - rewrite keys_items. apply in_seq. lia. }
  apply in_map_iff in Hin. destruct Hin as (m & <- & Hm). now apply Hall.
Qed.

Lemma compute_fold_all self choices uniqueness row_to indices items0 :
  (forall a b, 0 <= WRatio a b) -> cutoff self = false ->
  (forall c choice, dict_get String.eqb c choices = Some choice ->
                    candidate_query choice indices = Ok (items choice)
                    /\ List.length choice = len (df_from self)) ->
  forall acc ms,
  (exists item, In item items0 /\ snd item <> []) ->
  foldM (score_column WRatio self choices uniqueness row_to indices) items0 acc
  = Ok ms ->
  forall p, (p < len (df_from self))%nat -> In p (keys ms).
Proof.
  intros Hpos Hcut Hch. induction items0 as [|it rest IH];
    intros acc ms (item & Hin & Hact) H p Hp; simpl in *; [destruct Hin|].
  inv_bind H. destruct Hin as [->|Hin].
  - pose proof (score_column_all _ _ _ _ _ _ _ _ Hpos Hcut Hch Hact Hbind p Hp) as Ha.
    revert H. apply (foldM_invariant (fun d : dict nat Q => In p (keys d)));
      [|exact Ha].
    intros s x s' Hs Hx. eapply score_column_mono; eauto.
  - eapply IH; eauto.
Qed.

End Pool.

Lemma active_columns_item self :
  active_columns self <> [] ->
  exists item, In item (columns_to_match self) /\ snd item <> [].
Proof.
  unfold active_columns. intros H.
  destruct (filter (fun kv : string * list string =>
                      match snd kv with [] => false | _ => true end)
                   (columns_to_match self)) as [|item rest] eqn:E;
    [simpl in H; congruence|].
  assert (Hin : In item (item :: rest)) by now left.
  rewrite <- E in Hin. apply filter_In in Hin. destruct Hin as [Hin Hne].
  exists item. split; [assumption|]. destruct (snd item); [discriminate | congruence].
Qed.

(** C5: when the group restriction of a target row selects no reference row,
    or when there is no group column, the pool handed to the scorer for
    every mapped column is the whole reference column, one entry per
    reference row; and without the score cutoff every reference row then
    receives a composite score for that target row. *)
Theorem empty_group_falls_back_to_full_table WRatio self choices uniqueness
        index_to row_to :
  wf_df (df_from self) ->
  _choices self = Ok choices ->
  iloc (df_to self) index_to = Ok row_to ->
  __subset self row_to = Ok [] \/ column_groups self = [] ->
  exists indices,
    __subset self row_to = Ok indices
    /\ (forall c choice,
          dict_get String.eqb c choices = Some choice ->
          candidate_query choice indices = Ok (items choice)
          /\ keys (items choice) = seq 0 (len (df_from self)))
    /\ ((forall a b, 0 <= WRatio a b) -> cutoff self = false ->
        active_columns self <> [] ->
        forall ms,
          _compute_score WRatio self choices index_to uniqueness = Ok ms ->
          forall p, (p < len (df_from self))%nat -> In p (keys ms)).
Proof.
  intros Hwf Hch Hrow Hcase.
  pose proof (choices_length _ _ Hwf Hch) as Hlen.
  assert (Hsub : exists indices,
             __subset self row_to = Ok indices
             /\ forall c choice,
                 dict_get String.eqb c choices = Some choice ->
                 candidate_query choice indices = Ok (items choice)).
  { destruct Hcase as [He|Hg].
    - exists []. split; [assumption|]. intros c choice _. reflexivity.
    - exists (seq 0 (len (df_from self))). split.
      + unfold __subset. rewrite Hg. reflexivity.
      + intros c choice Hc. rewrite <- (Hlen _ _ Hc). apply candidate_query_all. }
  destruct Hsub as (indices & Hsub & Hq). exists indices.
  split; [assumption|]. split.
  - intros c choice Hc. split; [now apply (Hq c)|].
    unfold keys. rewrite keys_items. now rewrite (Hlen _ _ Hc).
  - intros Hpos Hcut Hact ms Hms p Hp.
    unfold _compute_score in Hms. rewrite Hrow in Hms. simpl in Hms.
    rewrite Hsub in Hms. simpl in Hms.
    assert (Hq' : forall c choice,
               dict_get String.eqb c choices = Some choice ->
               candidate_query choice indices = Ok (items choice)
               /\ List.length choice = len (df_from self)).
    { intros c choice Hc. split; [now apply (Hq c) | now apply (Hlen c)]. }
    exact (compute_fold_all WRatio self choices uniqueness row_to indices
             (columns_to_match self) Hpos Hcut Hq' [] ms
             (active_columns_item self Hact) Hms p Hp).
Qed.

Lemma empty_group_falls_back_to_full_table_witness :
  exists indices,
    __subset grouped grouped_row = Ok indices
    /\ (forall c choice,
          dict_get String.eqb c demo_choices = Some choice ->
          candidate_query choice indices = Ok (items choice)
          /\ keys (items choice) = seq 0 (len (df_from grouped)))
    /\ ((forall a b, 0 <= exact_ratio a b) -> cutoff grouped = false ->
        active_columns grouped <> [] ->
        forall ms,
          _compute_score exact_ratio grouped demo_choices 3 demo_uniqueness = Ok ms ->
          forall p, (p < len (df_from grouped))%nat -> In p (keys ms)).
Proof.
  apply empty_group_falls_back_to_full_table.
  - repeat constructor.
  - vm_compute. reflexivity.
  - vm_compute. reflexivity.
  - left. vm_compute. reflexivity.
Defined.

(** ** Runs that do not raise *)










Section EmptyReference.
Variable WRatio : string -> string -> Q.
Variable self : PandasMatcher.
Hypothesis reference_empty : len (df_from self) = 0%nat.




End EmptyReference.

Lemma init_df_matched_columns self :
  dict_get String.eqb "match_status"%string (init_df_matched self)
  = Some (repeat blank (len (df_to self)))
  /\ dict_get String.eqb "row_index"%string (init_df_matched self)
     = Some (repeat blank (len (df_to self))).
Proof.
  pose proof (len_init_df_matched self) as Hlen.
  unfold init_df_matched in *. rewrite !len_set_column in Hlen.
  rewrite !dict_get_set_column. simpl String.eqb. cbv iota.
  rewrite !len_set_column, Hlen. split; reflexivity.
Qed.

Lemma dict_get_loc_set_other df idx c v c' :
  c' <> c ->
  dict_get String.eqb c' (loc_set df idx c v) = dict_get String.eqb c' df.
Proof.
  intros Hc. unfold loc_set. revert df.
  induction idx as [|i idx IH]; intros df; simpl; [reflexivity|].
  rewrite IH, dict_get_at_set.
  destruct (dict_get String.eqb c' df); [|reflexivity].
  destruct (String.eqb c' c) eqn:E; [|reflexivity].
  apply String.eqb_eq in E. contradiction.
Qed.




Lemma filter_none {A} (f : A -> bool) l :
  (forall x, In x l -> f x = false) -> filter f l = [].
Proof.
  induction l as [|x l IH]; simpl; intros H; [reflexivity|].
  rewrite (H x (or_introl eq_refl)). apply IH. intros; apply H; now right.
Qed.










(** ** Empty input *)





(** ** Worked runs *)

(** The single-match scenario: (Ann, NY) scores 100 against reference row 0
    and less against row 1, so the row is MATCHED and reported as row 2. *)
Example ann_is_matched :
  match match_ exact_ratio ann_matcher with
  | Ok (df_matched, m_info) =>
      at_get df_matched 0 "match_status" = Some MATCHED
      /\ at_get df_matched 0 "row_index" = Some (PInt 2)
      /\ dict_get pyobj_eqb MATCHED m_info = Some (Count 1)
  | Raise _ => False
  end.
Proof. vm_compute. repeat split. Qed.

(** A unique candidate between the required and the optimal threshold is
    flagged REVIEW and its [city] cell is copied; rows without a candidate
    reaching 40 are UNMATCHED. *)
Example lenient_is_review :
  match match_ exact_ratio lenient with
  | Ok (df_matched, m_info) =>
      at_get df_matched 0 "match_status" = Some REVIEW
      /\ at_get df_matched 0 "row_index" = Some (PInt 4)
      /\ at_get df_matched 0 "city" = Some (PStr "LA")
      /\ at_get df_matched 1 "match_status" = Some UNMATCHED
  | Raise _ => False
  end.
Proof. vm_compute. repeat split. Qed.

(** Two target rows claiming reference row 2 end as DUPLICATES. *)
Example demo_statuses :
  dict_get String.eqb "match_status"%string (fst demo_matched)
  = Some [MATCHED; DUPLICATES; DUPLICATES; UNMATCHED].
Proof. reflexivity. Qed.

(** * Further properties of the module *)

(** ** The setter of the target table *)

Lemma fold_left_snoc {A B} (f : A -> B -> A) l x a :
  fold_left f (l ++ [x]) a = f (fold_left f l a) x.
Proof. now rewrite fold_left_app. Qed.

Lemma filter_snoc {A} (f : A -> bool) l x :
  filter f (l ++ [x]) = filter f l ++ (if f x then [x] else []).
Proof. now rewrite filter_app. Qed.

Lemma filter_eqb_nil k cols :
  filter (String.eqb k) cols = [] <-> ~ In k cols.
Proof.
  induction cols as [|c cols IH]; simpl; [tauto|].
  destruct (String.eqb k c) eqn:E.
  - apply String.eqb_eq in E. subst. split; [discriminate | intros H; exfalso; auto].
  - apply String.eqb_neq in E. rewrite IH. split; [intros H [H'|H']; auto | tauto].
Qed.

Lemma set_df_to_fold_split (req : Q) (reference : DataFrame string) cols :
  forall thr map0,
  fold_left
    (fun (st : dict string Q * dict string (list string)) column_to =>
       let thr := dict_set String.eqb column_to req (fst st) in
       if has_column column_to reference
       then (thr, dict_update String.eqb [] (fun l => l ++ [column_to]) column_to (snd st))
       else (thr, dict_set String.eqb column_to [] (snd st)))
    cols (thr, map0)
  = (fold_left (fun t c => dict_set String.eqb c req t) cols thr,
     fold_left (fun m c =>
                  if has_column c reference
                  then dict_update String.eqb [] (fun l => l ++ [c]) c m
                  else dict_set String.eqb c [] m) cols map0).
Proof.
  induction cols as [|c cols IH]; intros thr map0; simpl; [reflexivity|].
  destruct (has_column c reference); apply IH.
Qed.

Lemma thresholds_after k (req : Q) cols : forall thr : dict string Q,
  dict_get String.eqb k
    (fold_left (fun t c => dict_set String.eqb c req t) cols thr)
  = if in_dec string_dec k cols then Some req else dict_get String.eqb k thr.
Proof.
  induction cols as [|c cols IH] using rev_ind; intros thr.
  - reflexivity.
  - rewrite fold_left_snoc, (dict_get_set String.eqb String.eqb_eq), IH.
    destruct (String.eqb c k) eqn:E.
    + apply String.eqb_eq in E. subst.
      destruct (in_dec string_dec k (cols ++ [k])) as [_|H]; [reflexivity|].
      exfalso. apply H. apply in_or_app. right. now left.
    + apply String.eqb_neq in E.
      destruct (in_dec string_dec k cols) as [H|H];
        destruct (in_dec string_dec k (cols ++ [c])) as [H'|H']; try reflexivity.
      * exfalso. apply H'. apply in_or_app. now left.
      * exfalso. apply in_app_or in H'. destruct H' as [H'|[H'|[]]]; auto.
Qed.

Lemma links_after (reference : DataFrame string) k cols :
  dict_get String.eqb k
    (fold_left (fun (m : dict string (list string)) c =>
                  if has_column c reference
                  then dict_update String.eqb [] (fun l => l ++ [c]) c m
                  else dict_set String.eqb c [] m) cols [])
  = match filter (String.eqb k) cols with
    | [] => None
    | (_ :: _) as l => Some (if has_column k reference then l else [])
    end.
Proof.
  induction cols as [|c cols IH] using rev_ind; [reflexivity|].
  rewrite fold_left_snoc, filter_snoc.
  set (m := fold_left (fun (m : dict string (list string)) c =>
                         if has_column c reference
                         then dict_update String.eqb [] (fun l => l ++ [c]) c m
                         else dict_set String.eqb c [] m) cols []) in *.
  destruct (String.eqb k c) eqn:E.
  - apply String.eqb_eq in E. subst c.
    destruct (has_column k reference) eqn:Hk.
    + unfold dict_update. rewrite IH.
      destruct (filter (String.eqb k) cols) as [|x l];
        rewrite (dict_get_set String.eqb String.eqb_eq), String.eqb_refl;
        reflexivity.
    + rewrite (dict_get_set String.eqb String.eqb_eq), String.eqb_refl.
      now destruct (filter (String.eqb k) cols).
  - rewrite app_nil_r. rewrite <- IH.
    assert (Hck : String.eqb c k = false) by (now rewrite String.eqb_sym).
    destruct (has_column c reference); unfold dict_update;
      try destruct (dict_get String.eqb c m);
      rewrite (dict_get_set String.eqb String.eqb_eq), Hck; reflexivity.
Qed.

(** X1: assigning the target table makes its columns the keys of the
    mapping, each linked to the same-named reference column when the
    reference table in place has one (once per target column of that name)
    and to nothing otherwise; every earlier key is forgotten, each target
    column's threshold is reset to the required threshold, thresholds of
    other columns are kept, and no other field changes. *)
Theorem set_df_to_rebuilds_mapping self df k :
  let after := set_df_to self df in
  dict_get String.eqb k (columns_to_match after)
  = (match filter (String.eqb k) (columns df) with
     | [] => None
     | (_ :: _) as l => Some (if has_column k (df_from self) then l else [])
     end)
  /\ threshold_of after k
     = (if in_dec string_dec k (columns df) then required_threshold self
        else threshold_of self k)
  /\ df_to after = replace_nan df
  /\ df_from after = df_from self
  /\ columns_to_get after = columns_to_get self
  /\ column_groups after = column_groups self
  /\ required_threshold after = required_threshold self
  /\ cutoff after = cutoff self.
Proof.
  cbv zeta. unfold set_df_to, threshold_of. cbn [columns_to_match column_threshold
    df_to df_from columns_to_get column_groups required_threshold cutoff].
  rewrite set_df_to_fold_split. cbn [fst snd].
  rewrite columns_replace_nan, links_after, thresholds_after.
  repeat split; try reflexivity.
  now destruct (in_dec string_dec k (columns df)).
Qed.

Lemma has_column_iff {A} c (df : DataFrame A) :
  has_column c df = true <-> In c (columns df).
Proof.
  unfold has_column, dict_mem, columns. split.
  - destruct (dict_get String.eqb c df) as [cells|] eqn:E; [|discriminate].
    intros _. now apply (dict_get_some_keys String.eqb String.eqb_eq) in E.
  - intros H. now destruct (dict_get_keys String.eqb String.eqb_eq _ _ H) as [v ->].
Qed.

Lemma filter_eqb_nodup k cols :
  NoDup cols -> In k cols -> filter (String.eqb k) cols = [k].
Proof.
  induction cols as [|c cols IH]; intros Hnd Hin; [destruct Hin|].
  inversion Hnd as [|? ? Hc Hnd']; subst. simpl.
  destruct (String.eqb k c) eqn:E.
  - apply String.eqb_eq in E. subst c. f_equal. now apply filter_eqb_nil.
  - apply String.eqb_neq in E. destruct Hin as [->|Hin]; [congruence | auto].
Qed.

Lemma set_df_to_get self df k :
  dict_get String.eqb k (columns_to_match (set_df_to self df))
  = match filter (String.eqb k) (columns df) with
    | [] => None
    | (_ :: _) as l => Some (if has_column k (df_from self) then l else [])
    end.
Proof.
  unfold set_df_to. cbn [columns_to_match].
  rewrite set_df_to_fold_split. cbn [snd].
  now rewrite columns_replace_nan, links_after.
Qed.

(** X2: when neither table repeats a column name, assigning the target
    table and then the reference table leaves the matcher with the same
    mapping, thresholds, tables and other settings as assigning them in the
    opposite order. *)
Theorem setters_commute self target reference k :
  NoDup (columns target) -> NoDup (columns reference) ->
  let a := set_df_from (set_df_to self target) reference in
  let b := set_df_to (set_df_from self reference) target in
  dict_get String.eqb k (columns_to_match a)
  = dict_get String.eqb k (columns_to_match b)
  /\ keys (columns_to_match a) = keys (columns_to_match (set_df_to self target))
  /\ column_threshold a = column_threshold b
  /\ df_to a = df_to b /\ df_from a = df_from b
  /\ columns_to_get a = columns_to_get b
  /\ column_groups a = column_groups b
  /\ required_threshold a = required_threshold b /\ cutoff a = cutoff b.
Proof.
  intros Ht Hr. cbv zeta. split; [|split].
  - rewrite set_df_from_get, !set_df_to_get.
    change (df_from (set_df_from self reference)) with (replace_nan reference).
    destruct (filter (String.eqb k) (columns target)) as [|x l] eqn:F;
      [reflexivity|].
    assert (Hk : In k (columns target)).
    { destruct (in_dec string_dec k (columns target)) as [H|H]; [assumption|].
      apply filter_eqb_nil in H. congruence. }
    rewrite (filter_eqb_nodup _ _ Ht Hk) in F. rewrite <- F. f_equal.
    destruct (has_column k (replace_nan reference)) eqn:Hc.
    + apply has_column_iff in Hc. rewrite columns_replace_nan in Hc.
      now apply filter_eqb_nodup.
    + apply filter_eqb_nil. intros Hin.
      rewrite <- (columns_replace_nan reference) in Hin.
      apply has_column_iff in Hin. congruence.
  - unfold set_df_from at 1. cbn [columns_to_match]. rewrite relink_keys.
    unfold keys. now rewrite map_map.
  - unfold set_df_to, set_df_from.
    cbn [column_threshold df_to df_from columns_to_get column_groups
           required_threshold cutoff columns_to_match].
    rewrite !set_df_to_fold_split. cbn [fst]. repeat split; reflexivity.
Qed.

Lemma setters_commute_witness :
  let a := set_df_from (set_df_to init targets) references in
  let b := set_df_to (set_df_from init references) targets in
  dict_get String.eqb "city"%string (columns_to_match a)
  = dict_get String.eqb "city"%string (columns_to_match b)
  /\ keys (columns_to_match a) = keys (columns_to_match (set_df_to init targets))
  /\ column_threshold a = column_threshold b
  /\ df_to a = df_to b /\ df_from a = df_from b
  /\ columns_to_get a = columns_to_get b
  /\ column_groups a = column_groups b
  /\ required_threshold a = required_threshold b /\ cutoff a = cutoff b.
Proof.
  apply setters_commute; repeat constructor; simpl; intuition discriminate.
Defined.

(** X3: the reference table assigned last wins: the state after assigning
    one reference table and then another is the state after assigning the
    second one alone, so nothing of the first survives; in particular,
    assigning the same table twice changes nothing. *)
Theorem set_df_from_last_wins self first second :
  set_df_from (set_df_from self first) second = set_df_from self second.
Proof.
  unfold set_df_from.
  cbn [columns_to_match df_to column_threshold column_groups required_threshold
         cutoff].
  f_equal. f_equal.
  set (step := fun (d : dict string (list string)) column_from =>
                 if dict_mem String.eqb column_from d
                 then dict_update String.eqb [] (fun l => l ++ [column_from])
                                  column_from d
                 else d).
  set (clear := fun kv : string * list string => (fst kv, @nil string)).
  assert (H : forall d : dict string (list string),
             map clear d = map (fun k => (k, @nil string)) (keys d)).
  { intros d. unfold keys. now rewrite map_map. }
  rewrite (H (fold_left step _ _)). unfold step. rewrite relink_keys.
  rewrite <- H. unfold clear. rewrite map_map. reflexivity.
Qed.

(** ** Distinct-value ratios *)

Lemma nunique_le cells : (nunique cells <= List.length cells)%nat.
Proof.
  unfold nunique. induction cells as [|x l IH]; simpl; [lia|].
  destruct (in_dec string_dec x l); simpl; lia.
Qed.

Lemma Qdiv_nat_pos a b : (0 < a)%nat -> (0 < b)%nat ->
  0 < inject_Z (Z.of_nat a) / inject_Z (Z.of_nat b).
Proof.
  intros Ha Hb. apply Qlt_shift_div_l.
  - change 0 with (inject_Z 0). rewrite <- Zlt_Qlt. lia.
  - rewrite Qmult_0_l. change 0 with (inject_Z 0). rewrite <- Zlt_Qlt. lia.
Qed.

Lemma Qdiv_nat_le_1 a b : (a <= b)%nat -> (0 < b)%nat ->
  inject_Z (Z.of_nat a) / inject_Z (Z.of_nat b) <= 1.
Proof.
  intros Hab Hb. apply Qle_shift_div_r.
  - change 0 with (inject_Z 0). rewrite <- Zlt_Qlt. lia.
  - rewrite Qmult_1_l. rewrite <- Zle_Qle. lia.
Qed.

Lemma uniqueness_ok df :
  len df <> 0%nat -> uniqueness df = Ok (map (ratio df) df).
Proof.
  intros Hlen. unfold uniqueness. apply mapM_pure.
  intros col _. unfold py_div, ratio. destruct (len df); [congruence | reflexivity].
Qed.



(** X5: [uniqueness] raises exactly when the table has a column but no row,
    and what it raises is the division-by-zero error. *)
Theorem uniqueness_raises_iff df e :
  uniqueness df = Raise e <-> (e = ZeroDivisionError /\ len df = 0%nat /\ df <> []).
Proof.
  split.
  - intros H. destruct (Nat.eq_dec (len df) 0) as [Hz|Hnz].
    + destruct df as [|col df]; [discriminate|].
      unfold uniqueness in H. cbn [mapM] in H. rewrite Hz in H. simpl in H.
      inv_ok H. repeat split; auto. discriminate.
    + rewrite (uniqueness_ok _ Hnz) in H. discriminate.
  - intros (-> & Hz & Hne). destruct df as [|col df]; [congruence|].
    unfold uniqueness. cbn [mapM]. rewrite Hz. reflexivity.
Qed.

Lemma getitems_missing {A} (df : DataFrame A) cols c :
  In c cols -> has_column c df = false ->
  exists k, getitems df cols = Raise (KeyError k)
            /\ In k cols /\ has_column k df = false.
Proof.
  unfold getitems. induction cols as [|c0 cols IH]; intros Hin Hc; [destruct Hin|].
  simpl. unfold getitem at 1.
  destruct (dict_get String.eqb c0 df) as [cells|] eqn:E.
  - assert (Hc0 : has_column c0 df = true) by (unfold has_column, dict_mem; now rewrite E).
    destruct Hin as [->|Hin]; [congruence|].
    destruct (IH Hin Hc) as (k & Hk & Hin' & Hk'). simpl. rewrite Hk. simpl.
    exists k. repeat split; auto.
  - exists c0. simpl. repeat split; auto.
    unfold has_column, dict_mem. now rewrite E.
Qed.

(** X6: when a selected column is not a column of the table,
    [adjusted_uniqueness] raises KeyError for the first such column, whether
    or not the table has rows: the lookup precedes every division. *)
Theorem adjusted_uniqueness_missing_column df cols c :
  In c cols -> has_column c df = false ->
  exists k, adjusted_uniqueness df cols = Raise (KeyError k)
            /\ In k cols /\ has_column k df = false.
Proof.
  intros Hin Hc. destruct (getitems_missing df cols c Hin Hc) as (k & Hk & H1 & H2).
  exists k. unfold adjusted_uniqueness. rewrite Hk. auto.
Qed.

Lemma adjusted_uniqueness_missing_column_witness :
  exists k, adjusted_uniqueness no_rows ["name"; "zip"]%string = Raise (KeyError k)
            /\ In k ["name"; "zip"]%string /\ has_column k no_rows = false.
Proof.
  apply (adjusted_uniqueness_missing_column no_rows _ "zip"%string).
  - simpl. auto.
  - reflexivity.
Defined.

Lemma py_sum_inject (ns : list nat) (L : Q) :
  py_sum (map (fun n => inject_Z (Z.of_nat n) / L) ns)
  == inject_Z (Z.of_nat (list_sum ns)) / L.
Proof.
  induction ns as [|n ns IH]; simpl.
  - unfold py_sum. simpl. unfold Qdiv. ring.
  - rewrite py_sum_cons, IH, Nat2Z.inj_add, inject_Z_plus. unfold Qdiv. ring.
Qed.

Lemma list_sum_ge n ns : In n ns -> (n <= list_sum ns)%nat.
Proof.
  induction ns as [|m ns IH]; simpl; intros H; [destruct H|].
  destruct H as [->|H]; [lia | specialize (IH H); lia].
Qed.

(** X7: the weight [adjusted_uniqueness] gives a selected column is its
    number of distinct values divided by the total number of distinct
    values over the selected columns: the row count cancels out.  Each
    weight lies in (0, 1]. *)
Theorem adjusted_uniqueness_is_share_of_distinct df cols :
  wf_df df -> len df <> 0%nat ->
  (forall c, In c cols -> has_column c df = true) ->
  exists u, adjusted_uniqueness df cols = Ok u
            /\ forall c w, In (c, w) u ->
                 In c cols
                 /\ w == inject_Z (Z.of_nat (distinct_count df c))
                         / inject_Z (Z.of_nat (list_sum (map (distinct_count df) cols)))
                 /\ 0 < w /\ w <= 1.
Proof.
  intros Hwf Hlen Hcols.
  destruct (getitems_ok df cols Hcols) as (sub & Hsub & Hfst & Hin).
  rewrite (adjusted_uniqueness_ok _ _ _ Hlen Hsub).
  eexists; split; [reflexivity|].
  set (L := inject_Z (Z.of_nat (len df))).
  assert (HL : 0 < L).
  { unfold L. change 0 with (inject_Z 0). rewrite <- Zlt_Qlt. lia. }
  assert (Hns : map (distinct_count df) cols
                = map (fun col : string * list string => nunique (snd col)) sub).
  { rewrite <- Hfst, map_map. apply map_ext_in. intros col Hcol.
    unfold distinct_count. now rewrite (Hin _ Hcol). }
  assert (HS : py_sum (values (map (ratio df) sub))
               == inject_Z (Z.of_nat (list_sum (map (distinct_count df) cols))) / L).
  { rewrite Hns, <- py_sum_inject. unfold values. rewrite !map_map. reflexivity. }
  intros c w Hcw. apply in_map_iff in Hcw. destruct Hcw as ([c' r] & E & Hr).
  simpl in E. injection E as Ec Ew. subst c w.
  apply in_map_iff in Hr. destruct Hr as (col & E & Hcol).
  unfold ratio in E. injection E as Ec Er. subst c' r.
  assert (Hc : In (fst col) cols) by (rewrite <- Hfst; now apply in_map).
  assert (Hd : distinct_count df (fst col) = nunique (snd col))
    by (unfold distinct_count; now rewrite (Hin _ Hcol)).
  assert (Hpos : (0 < nunique (snd col))%nat).
  { apply nunique_pos. intros E. pose proof (wf_df_column _ _ _ Hwf (Hin _ Hcol)) as Hl.
    rewrite E in Hl. simpl in Hl. lia. }
  assert (Hle : (nunique (snd col) <= list_sum (map (distinct_count df) cols))%nat).
  { apply list_sum_ge. rewrite <- Hd. now apply in_map. }
  set (N := list_sum (map (distinct_count df) cols)) in *.
  assert (HN : 0 < inject_Z (Z.of_nat N)).
  { change 0 with (inject_Z 0). rewrite <- Zlt_Qlt. lia. }
  assert (Hw : inject_Z (Z.of_nat (nunique (snd col))) / L
               / py_sum (values (map (ratio df) sub))
               == inject_Z (Z.of_nat (nunique (snd col))) / inject_Z (Z.of_nat N)).
  { rewrite HS. fold L. field. split; lra. }
  split; [assumption|]. rewrite Hd. fold L. split; [exact Hw|].
  rewrite Hw. split; [apply Qdiv_nat_pos; lia | apply Qdiv_nat_le_1; lia].
Qed.

Lemma adjusted_uniqueness_is_share_of_distinct_witness :
  exists u, adjusted_uniqueness targets ["name"; "city"]%string = Ok u
            /\ forall c w, In (c, w) u ->
                 In c ["name"; "city"]%string
                 /\ w == inject_Z (Z.of_nat (distinct_count targets c))
                         / inject_Z (Z.of_nat
                                       (list_sum (map (distinct_count targets)
                                                      ["name"; "city"]%string)))
                 /\ 0 < w /\ w <= 1.
Proof.
  apply adjusted_uniqueness_is_share_of_distinct.
  - repeat constructor.
  - discriminate.
  - intros c [<-|[<-|[]]]; reflexivity.
Defined.

(** ** Group percentages *)










(** X9: on a well-formed table [column_group_percentage] raises only for a
    column the table does not have, and then KeyError: a table without rows
    yields no group and no division by the row count (unlike [uniqueness]). *)
Theorem column_group_percentage_raises_iff df col e :
  wf_df df ->
  (column_group_percentage df col = Raise e
   <-> e = KeyError col /\ has_column col df = false).
Proof.
  intros Hwf. split.
  - intros H. destruct (has_column col df) eqn:Hcol.
    + exfalso. destruct (has_column_get _ _ Hcol) as [cells Hcells].
      pose proof (wf_df_column _ _ _ Hwf Hcells) as Hl.
      unfold column_group_percentage, getitem in H. rewrite Hcells in H.
      cbn [bind] in H. destruct (len df) as [|n] eqn:Hlen.
      * destruct cells; [discriminate | simpl in Hl; lia].
      * rewrite (mapM_pure _ (fun v => (v, inject_Z (Z.of_nat (count_occ string_dec cells v))
                                           / inject_Z (Z.of_nat (S n)) * 100))) in H;
          [discriminate | reflexivity].
    + unfold column_group_percentage, getitem, has_column, dict_mem in *.
      destruct (dict_get String.eqb col df); [discriminate|].
      simpl in H. inv_ok H. auto.
  - intros [-> Hcol]. unfold column_group_percentage, getitem, has_column, dict_mem in *.
    destruct (dict_get String.eqb col df); [discriminate | reflexivity].
Qed.

Lemma column_group_percentage_raises_iff_witness :
  column_group_percentage no_rows "zip" = Raise (KeyError "zip")
  <-> KeyError "zip" = KeyError "zip" /\ has_column "zip" no_rows = false.
Proof.
  apply column_group_percentage_raises_iff. repeat constructor.
Defined.

(** ** Blank and duplicated cells *)

Lemma pyobj_eqb_refl v : pyobj_eqb v v = true.
Proof.
  destruct v; simpl; auto using String.eqb_refl, Z.eqb_refl.
  apply Qeq_bool_iff. reflexivity.
Qed.

Lemma Qeq_bool_sym p q : Qeq_bool p q = Qeq_bool q p.
Proof.
  destruct (Qeq_bool p q) eqn:E1, (Qeq_bool q p) eqn:E2; try reflexivity.
  - apply Qeq_bool_iff in E1. symmetry in E1. apply Qeq_bool_iff in E1. congruence.
  - apply Qeq_bool_iff in E2. symmetry in E2. apply Qeq_bool_iff in E2. congruence.
Qed.

Lemma pyobj_eqb_sym v w : pyobj_eqb v w = pyobj_eqb w v.
Proof.
  destruct v, w; simpl; auto using String.eqb_sym, Z.eqb_sym, Qeq_bool_sym.
Qed.

Lemma is_blank_false v :
  is_blank v = false <-> notna (blank_to_nan v) = true.
Proof.
  unfold is_blank, blank_to_nan.
  destruct (pyobj_eqb v blank); simpl; [split; discriminate|].
  destruct v; simpl; split; auto.
Qed.

Lemma blank_to_nan_id v : is_blank v = false -> blank_to_nan v = v.
Proof.
  unfold is_blank, blank_to_nan.
  destruct (pyobj_eqb v blank); simpl; [discriminate | reflexivity].
Qed.

Lemma blank_to_nan_blank v : is_blank v = true -> blank_to_nan v = PNaN.
Proof.
  unfold is_blank, blank_to_nan.
  destruct (pyobj_eqb v blank); simpl; [reflexivity|].
  destruct v; simpl; intros H; try discriminate; reflexivity.
Qed.

Lemma is_blank_notna v : is_blank v = false -> notna v = true.
Proof.
  unfold is_blank. destruct v; simpl; auto.
Qed.

Lemma is_blank_eqb v w :
  pyobj_eqb v w = true -> is_blank v = false -> is_blank w = false.
Proof.
  unfold is_blank. destruct v, w; simpl; try discriminate; auto.
  intros E. apply String.eqb_eq in E. now subst.
Qed.

Lemma occurrences_ge1 v l :
  (1 <= occurrences v l)%nat ->
  exists j b, nth_error l j = Some b /\ pyobj_eqb v b = true.
Proof.
  unfold occurrences. induction l as [|x l IH]; simpl; [lia|].
  destruct (pyobj_eqb v x) eqn:E; intros H.
  - exists 0%nat, x. auto.
  - destruct (IH H) as (j & b & Hj & Hb). exists (S j), b. auto.
Qed.

Lemma occurrences_ge2 v l :
  (2 <= occurrences v l)%nat ->
  exists j1 j2 b1 b2,
    j1 <> j2 /\ nth_error l j1 = Some b1 /\ pyobj_eqb v b1 = true
    /\ nth_error l j2 = Some b2 /\ pyobj_eqb v b2 = true.
Proof.
  induction l as [|x l IH]; [unfold occurrences; simpl; lia|].
  unfold occurrences in *. simpl. destruct (pyobj_eqb v x) eqn:E; simpl; intros H.
  - destruct (occurrences_ge1 v l) as (j & b & Hj & Hb); [unfold occurrences; lia|].
    exists 0%nat, (S j), x, b. repeat split; auto.
  - destruct (IH H) as (j1 & j2 & b1 & b2 & Hne & H1 & E1 & H2 & E2).
    exists (S j1), (S j2), b1, b2. repeat split; auto.
Qed.

Lemma occurrences_other v l i :
  (2 <= occurrences v l)%nat ->
  exists j b, j <> i /\ nth_error l j = Some b /\ pyobj_eqb v b = true.
Proof.
  intros H. destruct (occurrences_ge2 v l H)
    as (j1 & j2 & b1 & b2 & Hne & H1 & E1 & H2 & E2).
  destruct (Nat.eq_dec j1 i) as [->|Hj1].
  - exists j2, b2. auto.
  - exists j1, b1. auto.
Qed.

Lemma dupes_index_spec df column idx dupes :
  get_column_dupes df column = Ok (idx, dupes) ->
  exists cells,
    dict_get String.eqb column df = Some cells
    /\ forall i,
        In i idx <->
        exists v, nth_error cells i = Some v /\ is_blank v = false
                  /\ exists j w, j <> i /\ nth_error cells j = Some w
                                 /\ pyobj_eqb v w = true.
Proof.
  intros H. destruct (get_column_dupes_In _ _ _ _ H) as (cells & Hc & Hiff).
  exists cells. split; [assumption|]. intros i. rewrite Hiff. split.
  - intros (v' & Hn & Hna & Hocc). rewrite nth_error_map in Hn.
    destruct (nth_error cells i) as [v|] eqn:Hv; [|discriminate].
    simpl in Hn. injection Hn as <-. apply is_blank_false in Hna.
    rewrite (blank_to_nan_id _ Hna) in Hocc.
    destruct (occurrences_other _ _ i Hocc) as (j & b & Hj & Hb & E).
    rewrite nth_error_map in Hb.
    destruct (nth_error cells j) as [w|] eqn:Hw; [|discriminate].
    simpl in Hb. injection Hb as <-.
    exists v. repeat split; auto. exists j, w. repeat split; auto.
    destruct (is_blank w) eqn:Bw.
    + rewrite (blank_to_nan_blank _ Bw) in E.
      unfold is_blank in Hna. destruct v; simpl in *; discriminate.
    + now rewrite (blank_to_nan_id _ Bw) in E.
  - intros (v & Hv & Hna & j & w & Hj & Hw & E).
    pose proof (is_blank_eqb _ _ E Hna) as Bw.
    exists v. rewrite nth_error_map, Hv. simpl.
    rewrite (blank_to_nan_id _ Hna). split; [reflexivity|].
    split; [now apply is_blank_notna|].
    apply (occurrences_two v _ i j v w); auto.
    + rewrite nth_error_map, Hv. simpl. now rewrite blank_to_nan_id.
    + rewrite nth_error_map, Hw. simpl. now rewrite blank_to_nan_id.
    + apply pyobj_eqb_refl.
Qed.

Lemma Forall2_map_in {A B C} (R : B -> C -> Prop) (f : A -> B) (g : A -> C) l :
  (forall x, In x l -> R (f x) (g x)) -> Forall2 R (map f l) (map g l).
Proof.
  induction l as [|x l IH]; simpl; intros H; constructor.
  - apply H. now left.
  - apply IH. intros; apply H; now right.
Qed.

Lemma dupes_rows_spec cells row :
  In row (filter (fun row : nat * (bool * pyobj) =>
                    fst (snd row) && notna (snd (snd row)))
                 (combine (seq 0 (List.length (map blank_to_nan cells)))
                          (combine (duplicated (map blank_to_nan cells))
                                   (map blank_to_nan cells)))) ->
  nth_error cells (fst row) = Some (snd (snd row)).
Proof.
  intros H. apply filter_In in H. destruct H as [Hin Hp].
  destruct row as [i [b v']]. simpl in *.
  unfold duplicated in Hin. rewrite combine_map_self in Hin.
  rewrite <- (length_map (fun v => ((2 <=? occurrences v (map blank_to_nan cells))%nat, v)))
    in Hin.
  apply In_combine_seq in Hin. destruct Hin as [_ Hn].
  rewrite Nat.sub_0_r, !nth_error_map in Hn.
  destruct (nth_error cells i) as [v|]; [|discriminate].
  simpl in Hn. injection Hn as _ <-.
  apply andb_true_iff in Hp. destruct Hp as [_ Hna].
  apply is_blank_false in Hna. now rewrite blank_to_nan_id.
Qed.

(** X10: [get_column_dupes] reports a row exactly when its cell is neither
    empty nor missing and some other row holds an equal cell; the values it
    returns are the cells of the reported rows, in the same order, and it
    never reports a single row. *)
Theorem get_column_dupes_reports_repeated df column idx dupes :
  get_column_dupes df column = Ok (idx, dupes) ->
  exists cells,
    dict_get String.eqb column df = Some cells
    /\ (forall i,
          In i idx <->
          exists v, nth_error cells i = Some v /\ is_blank v = false
                    /\ exists j w, j <> i /\ nth_error cells j = Some w
                                   /\ pyobj_eqb v w = true)
    /\ Forall2 (fun i v => nth_error cells i = Some v) idx dupes
    /\ List.length idx <> 1%nat.
Proof.
  intros H. destruct (dupes_index_spec _ _ _ _ H) as (cells & Hc & Hiff).
  exists cells. split; [assumption|]. split; [assumption|]. split.
  - unfold get_column_dupes, getitem in H. rewrite dict_get_replace_blank, Hc in H.
    simpl option_map in H. cbn [bind] in H. injection H as <- <-.
    apply Forall2_map_in. intros row Hrow. now apply dupes_rows_spec.
  - destruct idx as [|i [|i' rest]]; simpl; try lia.
    exfalso. assert (Hi : In i [i]) by now left.
    apply Hiff in Hi. destruct Hi as (v & Hv & Bv & j & w & Hj & Hw & E).
    assert (Hjin : In j [i]).
    { apply Hiff. exists w. repeat split; auto.
      - now apply (is_blank_eqb v w).
      - exists i, v. repeat split; auto. now rewrite pyobj_eqb_sym. }
    destruct Hjin as [->|[]]. congruence.
Qed.

Lemma get_column_dupes_reports_repeated_witness :
  exists cells,
    dict_get String.eqb "a"%string mixed_column = Some cells
    /\ (forall i,
          In i [0; 3; 4; 6]%nat <->
          exists v, nth_error cells i = Some v /\ is_blank v = false
                    /\ exists j w, j <> i /\ nth_error cells j = Some w
                                   /\ pyobj_eqb v w = true)
    /\ Forall2 (fun i v => nth_error cells i = Some v) [0; 3; 4; 6]%nat
               [PStr "x"; PStr "x"; PInt 3; PFloat 3]
    /\ List.length [0; 3; 4; 6]%nat <> 1%nat.
Proof.
  apply (get_column_dupes_reports_repeated mixed_column "a"). reflexivity.
Defined.

Lemma map_const {A B} (f : A -> B) c l :
  (forall x, In x l -> f x = c) -> map f l = repeat c (List.length l).
Proof.
  induction l as [|x l IH]; simpl; intros H; [reflexivity|].
  rewrite (H x (or_introl eq_refl)), IH; auto.
Qed.

Lemma blanks_index_spec df column idx blanks :
  get_column_blanks df column = Ok (idx, blanks) ->
  exists cells,
    dict_get String.eqb column df = Some cells
    /\ (forall i, In i idx <->
                  exists v, nth_error cells i = Some v /\ is_blank v = true)
    /\ blanks = repeat PNaN (List.length idx).
Proof.
  unfold get_column_blanks, getitem. rewrite dict_get_replace_blank.
  destruct (dict_get String.eqb column df) as [cells|]; simpl; [|discriminate].
  intros H. injection H as <- <-. exists cells. split; [reflexivity|].
  set (cells' := map blank_to_nan cells).
  set (check := fun v => negb (notna v)).
  assert (Hrow : forall row,
             In row (filter (fun row : nat * (bool * pyobj) => fst (snd row))
                            (combine (seq 0 (List.length cells'))
                                     (combine (map check cells') cells')))
             <-> exists v, nth_error cells (fst row) = Some v
                           /\ is_blank v = true
                           /\ snd row = (true, PNaN)).
  { intros [i [b v']]. rewrite filter_In, combine_map_self.
    rewrite <- (length_map (fun v => (check v, v)) cells').
    rewrite In_combine_seq, Nat.sub_0_r. unfold cells'. rewrite !nth_error_map.
    simpl. split.
    - intros [[_ Hn] Hb]. subst b.
      destruct (nth_error cells i) as [v|]; [|discriminate].
      simpl in Hn. injection Hn as Hchk <-. exists v. split; [reflexivity|].
      unfold check in Hchk. apply negb_true_iff in Hchk.
      destruct (is_blank v) eqn:B.
      + now rewrite (blank_to_nan_blank _ B).
      + apply is_blank_false in B. congruence.
    - intros (v & Hv & B & E). injection E as -> ->. rewrite Hv. simpl.
      rewrite (blank_to_nan_blank _ B). repeat split. lia. }
  split.
  - intros i. rewrite in_map_iff. split.
    + intros (row & <- & Hin). apply Hrow in Hin.
      destruct Hin as (v & Hv & B & _). eauto.
    + intros (v & Hv & B). exists (i, (true, PNaN)). split; [reflexivity|].
      apply Hrow. simpl. eauto.
  - rewrite length_map. apply map_const. intros row Hin. apply Hrow in Hin.
    destruct Hin as (v & _ & _ & E). now rewrite E.
Qed.

(** X11: [get_column_blanks] reports a row exactly when its cell is the
    empty string or a missing value, returns a missing value for every
    reported row, and never reports a row that [get_column_dupes] reports
    for the same column. *)
Theorem get_column_blanks_reports_blank df column idx blanks :
  get_column_blanks df column = Ok (idx, blanks) ->
  exists cells,
    dict_get String.eqb column df = Some cells
    /\ (forall i, In i idx <->
                  exists v, nth_error cells i = Some v /\ is_blank v = true)
    /\ blanks = repeat PNaN (List.length idx)
    /\ forall dupe_index dupes,
        get_column_dupes df column = Ok (dupe_index, dupes) ->
        forall i, In i idx -> ~ In i dupe_index.
Proof.
  intros H. destruct (blanks_index_spec _ _ _ _ H) as (cells & Hc & Hiff & Hb).
  exists cells. repeat (split; [assumption|]).
  intros didx dupes Hd i Hi Hdi.
  destruct (dupes_index_spec _ _ _ _ Hd) as (cells' & Hc' & Hiff').
  rewrite Hc in Hc'. injection Hc' as <-.
  apply Hiff in Hi. apply Hiff' in Hdi.
  destruct Hi as (v & Hv & B). destruct Hdi as (v' & Hv' & B' & _).
  congruence.
Qed.

Lemma get_column_blanks_reports_blank_witness :
  exists cells,
    dict_get String.eqb "a"%string mixed_column = Some cells
    /\ (forall i, In i [1; 2; 5]%nat <->
                  exists v, nth_error cells i = Some v /\ is_blank v = true)
    /\ [PNaN; PNaN; PNaN] = repeat PNaN (List.length [1; 2; 5]%nat)
    /\ forall dupe_index dupes,
        get_column_dupes mixed_column "a" = Ok (dupe_index, dupes) ->
        forall i, In i [1; 2; 5]%nat -> ~ In i dupe_index.
Proof.
  apply (get_column_blanks_reports_blank mixed_column "a"). reflexivity.
Defined.

(** ** Column similarities *)

Lemma round_half_even_bounds q (n m : Z) :
  inject_Z n <= q -> q <= inject_Z m -> (n <= round_half_even q <= m)%Z.
Proof.
  intros Hn Hm. unfold round_half_even.
  pose proof (Qfloor_le q) as Hf. pose proof (Qlt_floor q) as Hf'.
  assert (Hnf : (n <= Qfloor q)%Z).
  { rewrite <- (Qfloor_Z n). now apply Qfloor_resp_le. }
  assert (Hfm : (Qfloor q <= m)%Z).
  { rewrite <- (Qfloor_Z m). now apply Qfloor_resp_le. }
  assert (Hstrict : inject_Z (Qfloor q) < q -> (Qfloor q + 1 <= m)%Z).
  { intros Hlt. assert (H : inject_Z (Qfloor q) < inject_Z m) by lra.
    rewrite <- Zlt_Qlt in H. lia. }
  destruct (q - inject_Z (Qfloor q) ?= 1 # 2) eqn:C.
  - apply Qeq_alt in C. destruct (Z.even (Qfloor q)); [lia|].
    split; [lia|]. apply Hstrict. lra.
  - lia.
  - apply Qgt_alt in C. split; [lia|]. apply Hstrict. lra.
Qed.

Lemma py_round_bounds x (n m : Z) d :
  inject_Z n <= x -> x <= inject_Z m ->
  inject_Z n <= py_round x d /\ py_round x d <= inject_Z m.
Proof.
  intros Hn Hm. unfold py_round.
  set (s := (10 ^ Z.of_nat d)%Z).
  assert (Hs : (0 < s)%Z) by (apply Z.pow_pos_nonneg; lia).
  assert (Hsq : 0 < inject_Z s) by (change 0 with (inject_Z 0); now rewrite <- Zlt_Qlt).
  destruct (round_half_even_bounds (x * inject_Z s) (n * s) (m * s)) as [H1 H2].
  - rewrite inject_Z_mult. apply Qmult_le_compat_r; lra.
  - rewrite inject_Z_mult. apply Qmult_le_compat_r; lra.
  - split.
    + apply Qle_shift_div_l; [assumption|]. rewrite <- inject_Z_mult, <- Zle_Qle. lia.
    + apply Qle_shift_div_r; [assumption|]. rewrite <- inject_Z_mult, <- Zle_Qle. lia.
Qed.

Lemma foldM_raises {A S : Type} (body : S -> A -> result S) (bad : A -> Prop) e0 l :
  (forall s x, In x l ->
               (bad x /\ body s x = Raise e0)
               \/ (~ bad x /\ exists s', body s x = Ok s')) ->
  forall s e, foldM body l s = Raise e <-> e = e0 /\ exists x, In x l /\ bad x.
Proof.
  induction l as [|x l IH]; intros Hstep s e; cbn [foldM].
  - split; [discriminate|]. intros (_ & x & [] & _).
  - destruct (Hstep s x (or_introl eq_refl)) as [[Hb Hr]|[Hb [s' Hs']]].
    + rewrite Hr. cbn [bind]. split.
      * intros H. inv_ok H. split; [reflexivity|]. exists x. split; [now left | assumption].
      * intros [-> _]. reflexivity.
    + rewrite Hs'. cbn [bind]. rewrite IH by (intros; apply Hstep; now right).
      split; intros (He & y & Hy & Hbad); (split; [assumption|]); exists y.
      * split; [now right | assumption].
      * destruct Hy as [<-|Hy]; [contradiction | auto].
Qed.

Lemma intersected_count_le a b : (intersected_count a b <= nunique a)%nat.
Proof. unfold intersected_count, nunique. apply filter_length_le. Qed.

Lemma intersected_count_0 a b :
  intersected_count a b = 0%nat <-> forall v, In v a -> ~ In v b.
Proof.
  unfold intersected_count. rewrite length_zero_iff_nil. split.
  - intros H v Ha Hb.
    assert (Hin : In v (filter (fun v => existsb (String.eqb v) b) (nodup string_dec a))).
    { apply filter_In. split; [now apply nodup_In|].
      apply existsb_exists. exists v. split; [assumption | apply String.eqb_refl]. }
    rewrite H in Hin. destruct Hin.
  - intros H. apply filter_none. intros v Hv. apply nodup_In in Hv.
    destruct (existsb (String.eqb v) b) eqn:E; [|reflexivity].
    apply existsb_exists in E. destruct E as (w & Hw & E).
    apply String.eqb_eq in E. subst w. now destruct (H v Hv).
Qed.

Lemma keys_dict_set_inv {V} (c k : string) (v : V) d :
  In k (keys (dict_set String.eqb c v d)) -> k = c \/ In k (keys d).
Proof.
  induction d as [|[k' v'] tl IH]; simpl.
  - intros [<-|[]]. now left.
  - destruct (String.eqb k' c) eqn:Hc; simpl.
    + apply String.eqb_eq in Hc. subst k'. intros [<-|H]; auto.
    + intros [<-|H]; auto. destruct (IH H); auto.
Qed.

Lemma Qdiv_nat_ge_1 a b : (0 < b)%nat -> (b <= a)%nat ->
  1 <= inject_Z (Z.of_nat a) / inject_Z (Z.of_nat b).
Proof.
  intros Hb Hab. apply Qle_shift_div_l.
  - change 0 with (inject_Z 0). rewrite <- Zlt_Qlt. lia.
  - rewrite Qmult_1_l. rewrite <- Zle_Qle. lia.
Qed.

Lemma similarities_column self column cells_to cells_from n
      (similarities : dict string (Q * Q)) :
  has_column column (df_from self) = true ->
  dict_get String.eqb column (df_to self) = Some cells_to ->
  dict_get String.eqb column (df_from self) = Some cells_from ->
  intersected_count cells_to cells_from = S n ->
  (cells_to0 <- getitem (df_to self) column ;;
   cells_from0 <- getitem (df_from self) column ;;
   ratio <- py_div (inject_Z (Z.of_nat (intersected_count cells_to0 cells_from0)))
                   (nunique cells_to0) ;;
   average_rows_to_compare <-
     py_div (inject_Z (Z.of_nat (len (df_to self))))
            (intersected_count cells_to0 cells_from0) ;;
   Ok (dict_set String.eqb column
                (py_round (ratio * 100) 2, average_rows_to_compare) similarities))
  = Ok (dict_set String.eqb column
          (py_round (inject_Z (Z.of_nat (S n))
                     / inject_Z (Z.of_nat (nunique cells_to)) * 100) 2,
           inject_Z (Z.of_nat (len (df_to self))) / inject_Z (Z.of_nat (S n)))
          similarities).
Proof.
  intros _ Hto Hfrom Hn. unfold getitem. rewrite Hto, Hfrom. cbn [bind].
  cbv zeta. rewrite Hn.
  pose proof (intersected_count_le cells_to cells_from) as Hle. rewrite Hn in Hle.
  destruct (nunique cells_to) as [|m] eqn:Hm; [lia|]. reflexivity.
Qed.

(** X12: [similarities] raises exactly when some column that both tables
    have holds no value in common (in particular when the target table has
    such a column and no row), and the error is the division by zero;
    otherwise it returns. *)
Theorem similarities_raises_iff self e :
  similarities self = Raise e
  <-> e = ZeroDivisionError
      /\ exists c cells_to cells_from,
           dict_get String.eqb c (df_to self) = Some cells_to
           /\ dict_get String.eqb c (df_from self) = Some cells_from
           /\ forall v, In v cells_to -> ~ In v cells_from.
Proof.
  unfold similarities.
  rewrite (foldM_raises _
             (fun c => exists cells_to cells_from,
                         dict_get String.eqb c (df_to self) = Some cells_to
                         /\ dict_get String.eqb c (df_from self) = Some cells_from
                         /\ forall v, In v cells_to -> ~ In v cells_from)
             ZeroDivisionError).
  - split; intros [He H]; (split; [assumption|]).
    + destruct H as (c & _ & H). now exists c.
    + destruct H as (c & cells_to & cells_from & Hto & Hfrom & H).
      exists c. split; [|eauto].
      now apply (dict_get_some_keys String.eqb String.eqb_eq) in Hto.
  - intros s c Hc. apply has_column_iff in Hc.
    destruct (has_column_get _ _ Hc) as [cells_to Hto]. cbv beta.
    destruct (has_column c (df_from self)) eqn:Hfrom.
    + destruct (has_column_get _ _ Hfrom) as [cells_from Hcf].
      destruct (intersected_count cells_to cells_from) as [|n] eqn:Hn.
      * left. split.
        { exists cells_to, cells_from. repeat split; auto.
          now apply intersected_count_0. }
        unfold getitem. rewrite Hto, Hcf. cbn [bind]. rewrite Hn.
        destruct (nunique cells_to); reflexivity.
      * right. split.
        { intros (ct & cf & Hto' & Hcf' & Hdis).
          rewrite Hto in Hto'. rewrite Hcf in Hcf'. inv_ok Hto'. inv_ok Hcf'.
          apply intersected_count_0 in Hdis. lia. }
        rewrite (similarities_column self c cells_to cells_from n s Hfrom Hto Hcf Hn).
        eauto.
    + right. split; [|eauto]. intros (ct & cf & _ & Hcf & _).
      unfold has_column, dict_mem in Hfrom. now rewrite Hcf in Hfrom.
Qed.

Lemma similarities_keys self l : forall s0 s,
  foldM (fun similarities column =>
           if has_column column (df_from self) then
             cells_to <- getitem (df_to self) column ;;
             cells_from <- getitem (df_from self) column ;;
             let full_length := nunique cells_to in
             let intersected := intersected_count cells_to cells_from in
             ratio <- py_div (inject_Z (Z.of_nat intersected)) full_length ;;
             let score := py_round (ratio * 100) 2 in
             average_rows_to_compare <-
               py_div (inject_Z (Z.of_nat (len (df_to self)))) intersected ;;
             Ok (dict_set String.eqb column (score, average_rows_to_compare)
                          similarities)
           else Ok similarities) l s0 = Ok s ->
  forall c, In c (keys s)
            <-> In c (keys s0) \/ (In c l /\ has_column c (df_from self) = true).
Proof.
  induction l as [|x l IH]; intros s0 s H c; cbn [foldM] in H.
  - inv_ok H. simpl. tauto.
  - inv_bind H. rewrite (IH _ _ H c). clear IH H.
    destruct (has_column x (df_from self)) eqn:Hx.
    + inv_bind Hbind. inv_bind Hbind. inv_bind Hbind. inv_bind Hbind.
      inv_ok Hbind. simpl. split.
      * intros [Hk|[Hl Hc]]; [|tauto].
        apply keys_dict_set_inv in Hk. destruct Hk as [->|Hk]; auto.
      * intros [Hk|[[->|Hl] Hc]]; auto.
        -- left. now apply keys_dict_set_incl.
        -- left. apply (keys_dict_set_key String.eqb String.eqb_eq).
    + inv_ok Hbind. simpl. split; [tauto|].
      intros [Hk|[[->|Hl] Hc]]; auto. congruence.
Qed.

(** X13: when [similarities] returns, it has one entry per column that both
    tables have and no other; every score lies between 0 and 100 and every
    average number of rows to compare is at least 1. *)
Theorem similarities_scores_bounded self s :
  wf_df (df_to self) -> similarities self = Ok s ->
  (forall c, In c (keys s)
             <-> In c (columns (df_to self)) /\ In c (columns (df_from self)))
  /\ forall c score average_rows_to_compare,
       dict_get String.eqb c s = Some (score, average_rows_to_compare) ->
       0 <= score /\ score <= 100 /\ 1 <= average_rows_to_compare.
Proof.
  intros Hwf H. split.
  - intros c. unfold similarities in H. rewrite (similarities_keys _ _ _ _ H c).
    rewrite has_column_iff. simpl. tauto.
  - revert H. unfold similarities.
    apply (foldM_invariant
             (fun d : dict string (Q * Q) =>
                forall c score avg, dict_get String.eqb c d = Some (score, avg) ->
                                    0 <= score /\ score <= 100 /\ 1 <= avg)).
    + intros d x d' Hd Hstep. destruct (has_column x (df_from self)) eqn:Hx;
        [|now inv_ok Hstep].
      destruct (has_column_get _ _ Hx) as [cells_from Hcf].
      unfold getitem at 1 in Hstep.
      destruct (dict_get String.eqb x (df_to self)) as [cells_to|] eqn:Hto;
        [|discriminate].
      destruct (intersected_count cells_to cells_from) as [|n] eqn:Hn.
      * exfalso. unfold getitem in Hstep. rewrite Hcf in Hstep. cbn [bind] in Hstep.
        cbv zeta in Hstep. rewrite Hn in Hstep.
        destruct (nunique cells_to); discriminate.
      * cbv zeta in Hstep.
        pose proof (similarities_column self x cells_to cells_from n d Hx Hto Hcf Hn) as E.
        unfold getitem at 1 in E. rewrite Hto in E. rewrite E in Hstep. inv_ok Hstep.
        intros c score avg Hc.
        rewrite (dict_get_set String.eqb String.eqb_eq) in Hc.
        destruct (String.eqb x c); [|eauto]. inv_ok Hc.
        pose proof (intersected_count_le cells_to cells_from) as Hle.
        rewrite Hn in Hle.
        pose proof (nunique_le cells_to) as Hle'.
        rewrite (wf_df_column _ _ _ Hwf Hto) in Hle'.
        destruct (py_round_bounds
                    (inject_Z (Z.of_nat (S n)) / inject_Z (Z.of_nat (nunique cells_to))
                     * 100) 0 100 2) as [H0 H100].
        { pose proof (Qdiv_nat_pos (S n) (nunique cells_to)). 
          assert (0 < inject_Z (Z.of_nat (S n)) / inject_Z (Z.of_nat (nunique cells_to)))
            by (apply Qdiv_nat_pos; lia).
          change (inject_Z 0) with 0. lra. }
        { assert (inject_Z (Z.of_nat (S n)) / inject_Z (Z.of_nat (nunique cells_to)) <= 1)
            by (apply Qdiv_nat_le_1; lia).
          change (inject_Z 100) with 100. lra. }
        split; [exact H0 | split; [exact H100 |]].
        apply (Qdiv_nat_ge_1 (len (df_to self)) (S n)); lia.
    + intros c score avg Hc. discriminate.
Qed.

Lemma similarities_scores_bounded_witness :
  (forall c, In c (keys demo_similarities)
             <-> In c (columns (df_to demo)) /\ In c (columns (df_from demo)))
  /\ forall c score average_rows_to_compare,
       dict_get String.eqb c demo_similarities
       = Some (score, average_rows_to_compare) ->
       0 <= score /\ score <= 100 /\ 1 <= average_rows_to_compare.
Proof.
  apply (similarities_scores_bounded demo demo_similarities);
    [repeat constructor | reflexivity].
Defined.

(** ** Group restriction *)

Lemma filter_filter {A} (f g : A -> bool) l :
  filter f (filter g l) = filter (fun x => g x && f x) l.
Proof.
  induction l as [|x l IH]; simpl; [reflexivity|].
  destruct (g x); simpl; [destruct (f x)|]; now rewrite IH.
Qed.

Lemma subset_fold self row groups : forall idx index,
  foldM (fun index group =>
           col <- getitem (df_from self) group ;;
           v <- row_get row group ;;
           Ok (filter (fun p => match nth_error col p with
                                | Some x => String.eqb x v
                                | None => false
                                end) index))
        groups idx = Ok index ->
  index = filter (fun p => forallb (agrees_on self row p) groups) idx.
Proof.
  induction groups as [|g groups IH]; intros idx index H; cbn [foldM] in H.
  - inv_ok H. simpl. symmetry. now apply filter_all.
  - inv_bind H. inv_bind Hbind. inv_bind Hbind. inv_ok Hbind.
    rewrite (IH _ _ H), filter_filter. apply filter_ext. intros p.
    cbn [forallb]. f_equal. unfold agrees_on, at_get.
    unfold getitem in Hbind0. unfold row_get in Hbind1.
    destruct (dict_get String.eqb g (df_from self)); [|discriminate].
    destruct (dict_get String.eqb g row); [|discriminate].
    inv_ok Hbind0. inv_ok Hbind1. reflexivity.
Qed.

(** X14: the successive restrictions of [__subset], one per group column,
    amount to a single pass over the reference rows: the positions returned
    are, in ascending order, exactly the reference rows that hold in every
    group column the value the target row has there. *)
Theorem subset_is_one_filter self row index :
  __subset self row = Ok index ->
  index = filter (fun p => forallb (agrees_on self row p) (column_groups self))
                 (seq 0 (len (df_from self)))
  /\ forall p, In p index
               <-> (p < len (df_from self))%nat
                   /\ forall g, In g (column_groups self) ->
                                exists v, at_get (df_from self) p g = Some v
                                          /\ dict_get String.eqb g row = Some v.
Proof.
  intros H. apply subset_fold in H. split; [exact H|].
  intros p. rewrite H, filter_In, in_seq, forallb_forall. split.
  - intros [Hp Hall]. split; [lia|]. intros g Hg. specialize (Hall g Hg).
    unfold agrees_on in Hall.
    destruct (at_get (df_from self) p g) as [x|]; [|discriminate].
    destruct (dict_get String.eqb g row) as [v|]; [|discriminate].
    apply String.eqb_eq in Hall. subst. eauto.
  - intros [Hp Hall]. split; [lia|]. intros g Hg.
    destruct (Hall g Hg) as (v & Hv & Hr). unfold agrees_on.
    rewrite Hv, Hr. apply String.eqb_refl.
Qed.

Lemma subset_is_one_filter_witness :
  [1; 2]%nat
  = filter (fun p => forallb (agrees_on grouped bob_la p) (column_groups grouped))
           (seq 0 (len (df_from grouped)))
  /\ forall p, In p [1; 2]%nat
               <-> (p < len (df_from grouped))%nat
                   /\ forall g, In g (column_groups grouped) ->
                                exists v, at_get (df_from grouped) p g = Some v
                                          /\ dict_get String.eqb g bob_la = Some v.
Proof. apply (subset_is_one_filter grouped bob_la). reflexivity. Defined.

(** X15: [__subset] raises exactly when some group column is missing from
    the reference table or from the target row; the error is KeyError for
    the first such group column, also when the restriction is already
    empty. *)
Theorem subset_raises_iff self row e :
  __subset self row = Raise e
  <-> exists pre g post,
        column_groups self = pre ++ g :: post
        /\ e = KeyError g
        /\ (forall h, In h pre ->
                      has_column h (df_from self) = true
                      /\ dict_mem String.eqb h row = true)
        /\ (has_column g (df_from self) = false
            \/ dict_mem String.eqb g row = false).
Proof.
  unfold __subset. generalize (seq 0 (len (df_from self))).
  induction (column_groups self) as [|g groups IH]; intros idx; cbn [foldM].
  - split; [discriminate|]. intros (pre & g & post & E & _).
    destruct pre; discriminate.
  - unfold has_column, dict_mem in *. unfold getitem at 1, row_get at 1.
    destruct (dict_get String.eqb g (df_from self)) as [col|] eqn:Hcol;
      cbn [bind].
    + destruct (dict_get String.eqb g row) as [v|] eqn:Hv; cbn [bind].
      * rewrite IH. split.
        -- intros (pre & g' & post & E & He & Hpre & Hg').
           exists (g :: pre), g', post. rewrite E. repeat split; auto.
           ++ destruct H as [<-|H]; [now rewrite Hcol | now apply Hpre].
           ++ destruct H as [<-|H]; [now rewrite Hv | now apply Hpre].
        -- intros (pre & g' & post & E & He & Hpre & Hg').
           destruct pre as [|h pre]; simpl in E; inv_ok E.
           ++ rewrite Hcol, Hv in Hg'. destruct Hg'; discriminate.
           ++ exists pre, g', post. repeat split; auto;
                apply Hpre; now right.
      * split.
        -- intros H. inv_ok H. exists [], g, groups.
           split; [reflexivity|]. split; [reflexivity|].
           split; [intros h [] | right; now rewrite Hv].
        -- intros (pre & g' & post & E & He & Hpre & Hg').
           destruct pre as [|h pre]; simpl in E; inv_ok E; [reflexivity|].
           destruct (Hpre h (or_introl eq_refl)) as [_ Hh].
           rewrite Hv in Hh. discriminate.
    + split.
      * intros H. inv_ok H. exists [], g, groups.
        split; [reflexivity|]. split; [reflexivity|].
        split; [intros h [] | left; now rewrite Hcol].
      * intros (pre & g' & post & E & He & Hpre & Hg').
        destruct pre as [|h pre]; simpl in E; inv_ok E; [reflexivity|].
        destruct (Hpre h (or_introl eq_refl)) as [Hh _].
        rewrite Hcol in Hh. discriminate.
Qed.

(** ** The choices *)





Lemma dict_get_not_key {V} (c : string) (d : dict string V) :
  ~ In c (keys d) -> dict_get String.eqb c d = None.
Proof.
  intros H. destruct (dict_get String.eqb c d) eqn:E; [|reflexivity].
  apply (dict_get_some_keys String.eqb String.eqb_eq) in E. contradiction.
Qed.

Lemma dict_get_key_none {V} (c : string) (d : dict string V) :
  dict_get String.eqb c d = None -> ~ In c (keys d).
Proof.
  intros H Hin. destruct (dict_get_keys String.eqb String.eqb_eq _ _ Hin) as [v Hv].
  congruence.
Qed.






(** ** Runs that return *)

Lemma keys_dict_update_inv {V} dflt (f : V -> V) (k p : nat) (d : dict nat V) :
  In p (keys (dict_update Nat.eqb dflt f k d)) -> p = k \/ In p (keys d).
Proof.
  assert (H : forall v, In p (keys (dict_set Nat.eqb k v d)) -> p = k \/ In p (keys d)).
  { intros v. induction d as [|[k' v'] tl IH]; simpl.
    - intros [<-|[]]. now left.
    - destruct (Nat.eqb k' k) eqn:Hc; simpl.
      + apply Nat.eqb_eq in Hc. subst k'. intros [<-|H]; auto.
      + intros [<-|H]; auto. destruct (IH H); auto. }
  unfold dict_update. destruct (dict_get Nat.eqb k d); apply H.
Qed.

Lemma In_firstn {A} (x : A) n l : In x (firstn n l) -> In x l.
Proof.
  intros H. rewrite <- (firstn_skipn n l). apply in_or_app. now left.
Qed.

Section Totality.
Variable WRatio : string -> string -> Q.












End Totality.




(** ** The returned table *)

Lemma outcome_status_domain self ms opt :
  In (outcome_status (_top_matches self ms opt))
     [MATCHED; REVIEW; AMBIGUOUS; UNMATCHED].
Proof.
  destruct (_top_matches self ms opt) as [|[k t] [|p rest]] eqn:E; simpl.
  - auto.
  - assert (Hin : In (k, t) (_top_matches self ms opt)) by (rewrite E; now left).
    rewrite (top_matches_status _ _ _ _ _ Hin).
    destruct (Qlt_bool (match_score t) opt); auto.
  - auto.
Qed.

Lemma match_status_domain WRatio self df_matched m_info i :
  match_ WRatio self = Ok (df_matched, m_info) ->
  (i < len (df_to self))%nat ->
  exists s, at_get df_matched i "match_status" = Some s /\ In s statuses.
Proof.
  intros Hm Hi.
  destruct (match_spec _ _ _ _ Hm) as (df_rows & scores & idx & dupes & Hr & Hd & -> & _).
  destruct (match_rows_spec _ _ _ _ Hr) as (u & o & ch & _ & Hdone).
  destruct (final_row _ _ _ _ _ _ _ _ _ (Hdone i Hi) Hd)
    as (ms & _ & _ & _ & _ & Hin & Hout & _).
  destruct (in_dec Nat.eq_dec i idx) as [Hi'|Hi'].
  - exists DUPLICATES. split; [now apply Hin|]. unfold statuses. simpl. tauto.
  - eexists. split; [now apply Hout|].
    pose proof (outcome_status_domain self ms o) as H. unfold statuses.
    simpl in *. tauto.
Qed.

(** X18: in the table [match] returns, every target row carries one of the
    five statuses MATCHED, REVIEW, AMBIGUOUS, UNMATCHED, DUPLICATES: no row
    keeps the empty status the column starts with. *)
Theorem match_status_is_one_of_five WRatio self df_matched m_info i :
  match_ WRatio self = Ok (df_matched, m_info) ->
  (i < len (df_to self))%nat ->
  exists s, at_get df_matched i "match_status" = Some s /\ In s statuses.
Proof. exact (match_status_domain WRatio self df_matched m_info i). Qed.

Lemma match_status_is_one_of_five_witness :
  exists s, at_get (fst lenient_matched) 2 "match_status" = Some s /\ In s statuses.
Proof.
  apply (match_status_is_one_of_five exact_ratio lenient _ (snd lenient_matched)).
  - reflexivity.
  - simpl. lia.
Defined.

Lemma dict_get_map_cells {A B} (f : A -> B) c (df : DataFrame A) :
  dict_get String.eqb c (map (fun col : string * list A => (fst col, map f (snd col))) df)
  = option_map (map f) (dict_get String.eqb c df).
Proof.
  induction df as [|[k cells] tl IH]; simpl; [reflexivity|].
  now destruct (String.eqb k c).
Qed.

Lemma init_df_matched_target self c cells :
  dict_get String.eqb c (df_to self) = Some cells ->
  c <> "match_status"%string -> c <> "row_index"%string ->
  c <> "match_score"%string ->
  dict_get String.eqb c (init_df_matched self) = Some (map PStr cells).
Proof.
  intros Hc H1 H2 H3. unfold init_df_matched.
  rewrite !dict_get_set_column.
  destruct (String.eqb "match_score" c) eqn:E3;
    [apply String.eqb_eq in E3; congruence|].
  destruct (String.eqb "row_index" c) eqn:E2;
    [apply String.eqb_eq in E2; congruence|].
  destruct (String.eqb "match_status" c) eqn:E1;
    [apply String.eqb_eq in E1; congruence|].
  assert (H0 : dict_get String.eqb c
                 (map (fun col : string * list string =>
                         (fst col, map PStr (snd col))) (df_to self))
               = Some (map PStr cells)).
  { now rewrite dict_get_map_cells, Hc. }
  revert H0. generalize (map (fun col : string * list string =>
                                (fst col, map PStr (snd col))) (df_to self)).
  induction (columns_to_get self) as [|g gs IH]; intros df H0; simpl;
    [exact H0|].
  apply IH. destruct (has_column g df) eqn:Hg; [exact H0|].
  rewrite dict_get_set_column.
  destruct (String.eqb g c) eqn:E; [|exact H0].
  apply String.eqb_eq in E. subst g.
  unfold has_column, dict_mem in Hg. now rewrite H0 in Hg.
Qed.

Lemma dict_get_at_set_other {A} c (df : DataFrame A) j c' (v : A) :
  c <> c' -> dict_get String.eqb c (at_set df j c' v) = dict_get String.eqb c df.
Proof.
  intros Hne. rewrite dict_get_at_set.
  destruct (dict_get String.eqb c df); [|reflexivity].
  destruct (String.eqb c c') eqn:E; [|reflexivity].
  apply String.eqb_eq in E. contradiction.
Qed.

Section Columns.
Variable WRatio : string -> string -> Q.
Variable self : PandasMatcher.
Variable choices : dict string (list string).
Variable uniqueness : dict string Q.
Variable optimal_threshold : Q.
Variable c : string.
Hypothesis not_fetched : ~ In c (columns_to_get self).
Hypothesis not_status : c <> "match_status"%string.
Hypothesis not_index : c <> "row_index"%string.
Hypothesis not_score : c <> "match_score"%string.

Lemma copy_columns_other index_from j cols : forall df df',
  ~ In c cols ->
  foldM (fun df column =>
           match at_get (df_from self) index_from column with
           | Some v => Ok (at_set df j column (PStr v))
           | None => Raise (KeyError column)
           end) cols df = Ok df' ->
  dict_get String.eqb c df' = dict_get String.eqb c df.
Proof.
  induction cols as [|col cols IH]; intros df df' Hc H; cbn [foldM] in H.
  - now inv_ok H.
  - inv_bind H. destruct (at_get (df_from self) index_from col); [|discriminate].
    inv_ok Hbind. rewrite (IH _ _ (fun Hin => Hc (or_intror Hin)) H).
    apply dict_get_at_set_other. intros ->. apply Hc. now left.
Qed.

Lemma match_row_other df sc j df' sc' :
  match_row WRatio self choices uniqueness optimal_threshold (df, sc) j
  = Ok (df', sc') ->
  dict_get String.eqb c df' = dict_get String.eqb c df.
Proof.
  unfold match_row. intros H. inv_bind H. cbv zeta in H. simpl fst in H.
  simpl snd in H.
  destruct (_top_matches self a optimal_threshold) as [|[k t] [|p rest]].
  - inv_ok H. now apply dict_get_at_set_other.
  - inv_bind H. inv_ok H. rewrite !dict_get_at_set_other by assumption.
    eapply copy_columns_other; eauto.
  - inv_ok H. now rewrite !dict_get_at_set_other by assumption.
Qed.

Lemma match_loop_other l : forall df sc df' sc',
  foldM (match_row WRatio self choices uniqueness optimal_threshold) l (df, sc)
  = Ok (df', sc') ->
  dict_get String.eqb c df' = dict_get String.eqb c df.
Proof.
  induction l as [|j l IH]; intros df sc df' sc' H; cbn [foldM] in H.
  - now inv_ok H.
  - inv_bind H. destruct a as [df1 sc1]. rewrite (IH _ _ _ _ H).
    eapply match_row_other; eauto.
Qed.
End Columns.

(** X19: [match] returns the target's own columns unchanged: a target column
    that is not listed in [columns_to_get] and is not named like one of the
    three result columns holds in the returned table exactly the cells it
    holds in the target table. *)
Theorem match_keeps_target_columns WRatio self df_matched m_info c cells :
  match_ WRatio self = Ok (df_matched, m_info) ->
  dict_get String.eqb c (df_to self) = Some cells ->
  ~ In c (columns_to_get self) ->
  c <> "match_status"%string -> c <> "row_index"%string ->
  c <> "match_score"%string ->
  dict_get String.eqb c df_matched = Some (map PStr cells).
Proof.
  intros Hm Hc Hget H1 H2 H3.
  destruct (match_spec _ _ _ _ Hm) as (df_rows & scores & idx & dupes & Hr & Hd & -> & _).
  rewrite dict_get_loc_set_other by assumption.
  unfold match_rows in Hr. inv_bind Hr. inv_bind Hr. inv_bind Hr.
  rewrite (match_loop_other WRatio self a1 a a0 c Hget H1 H2 H3 _ _ _ _ _ Hr).
  now apply init_df_matched_target.
Qed.

Lemma match_keeps_target_columns_witness :
  dict_get String.eqb "name"%string (fst lenient_matched)
  = Some (map PStr ["Bob"; "Cy"; "Di"]%string).
Proof.
  apply (match_keeps_target_columns exact_ratio lenient _ (snd lenient_matched)).
  - reflexivity.
  - reflexivity.
  - intros [H|[]]. discriminate.
  - discriminate.
  - discriminate.
  - discriminate.
Defined.

(** ** The optimal threshold *)








(** ** The range of the composite scores *)






Section Bound.
Variable WRatio : string -> string -> Q.
Hypothesis WRatio_range : forall a b, 0 <= WRatio a b /\ WRatio a b <= 100.





End Bound.





(** ** Matchers configured by assigning tables *)


Lemma fold_left_invariant_In {A S : Type} (P : S -> Prop) (f : S -> A -> S) l :
  (forall s x, In x l -> P s -> P (f s x)) ->
  forall s, P s -> P (fold_left f l s).
Proof.
  induction l as [|x l IH]; intros Hstep s Hs; simpl; [exact Hs|].
  apply IH; [intros; apply Hstep; [now right | assumption]|].
  apply Hstep; [now left | exact Hs].
Qed.










(** ** The summary *)






Lemma at_set_lengths {A} (df : DataFrame A) j c' v c :
  option_map (@List.length A) (dict_get String.eqb c (at_set df j c' v))
  = option_map (@List.length A) (dict_get String.eqb c df).
Proof.
  rewrite dict_get_at_set. destruct (dict_get String.eqb c df); [|reflexivity].
  simpl. destruct (String.eqb c c'); [now rewrite length_list_set | reflexivity].
Qed.

Lemma loc_set_lengths df idx c' v c :
  option_map (@List.length pyobj) (dict_get String.eqb c (loc_set df idx c' v))
  = option_map (@List.length pyobj) (dict_get String.eqb c df).
Proof.
  unfold loc_set. revert df. induction idx as [|i idx IH]; intros df; simpl;
    [reflexivity|].
  now rewrite IH, at_set_lengths.
Qed.

Section Lengths.
Variable WRatio : string -> string -> Q.
Variable self : PandasMatcher.
Variable choices : dict string (list string).
Variable uniqueness : dict string Q.
Variable optimal_threshold : Q.

Lemma copy_columns_lengths index_from j cols c : forall df df',
  foldM (fun df column =>
           match at_get (df_from self) index_from column with
           | Some v => Ok (at_set df j column (PStr v))
           | None => Raise (KeyError column)
           end) cols df = Ok df' ->
  option_map (@List.length pyobj) (dict_get String.eqb c df')
  = option_map (@List.length pyobj) (dict_get String.eqb c df).
Proof.
  induction cols as [|col cols IH]; intros df df' H; cbn [foldM] in H.
  - now inv_ok H.
  - inv_bind H. destruct (at_get (df_from self) index_from col); [|discriminate].
    inv_ok Hbind. rewrite (IH _ _ H). apply at_set_lengths.
Qed.

Lemma match_row_lengths df sc j df' sc' c :
  match_row WRatio self choices uniqueness optimal_threshold (df, sc) j
  = Ok (df', sc') ->
  option_map (@List.length pyobj) (dict_get String.eqb c df')
  = option_map (@List.length pyobj) (dict_get String.eqb c df).
Proof.
  unfold match_row. intros H. inv_bind H. cbv zeta in H. simpl fst in H.
  simpl snd in H.
  destruct (_top_matches self a optimal_threshold) as [|[k t] [|p rest]].
  - inv_ok H. apply at_set_lengths.
  - inv_bind H. inv_ok H. rewrite !at_set_lengths.
    eapply copy_columns_lengths; eauto.
  - inv_ok H. now rewrite !at_set_lengths.
Qed.

Lemma match_loop_lengths l c : forall df sc df' sc',
  foldM (match_row WRatio self choices uniqueness optimal_threshold) l (df, sc)
  = Ok (df', sc') ->
  option_map (@List.length pyobj) (dict_get String.eqb c df')
  = option_map (@List.length pyobj) (dict_get String.eqb c df).
Proof.
  induction l as [|j l IH]; intros df sc df' sc' H; cbn [foldM] in H.
  - now inv_ok H.
  - inv_bind H. destruct a as [df1 sc1]. rewrite (IH _ _ _ _ H).
    eapply match_row_lengths; eauto.
Qed.
End Lengths.

Lemma match_status_column WRatio self df_matched m_info :
  match_ WRatio self = Ok (df_matched, m_info) ->
  exists cells,
    dict_get String.eqb "match_status"%string df_matched = Some cells
    /\ List.length cells = len (df_to self)
    /\ forall x, In x cells -> In x statuses.
Proof.
  intros Hm.
  destruct (match_spec _ _ _ _ Hm) as (df_rows & scores & idx & dupes & Hr & Hd & E & _).
  assert (Hlen : option_map (@List.length pyobj)
                   (dict_get String.eqb "match_status"%string df_matched)
                 = Some (len (df_to self))).
  { rewrite E, loc_set_lengths. unfold match_rows in Hr.
    inv_bind Hr. inv_bind Hr. inv_bind Hr.
    rewrite (match_loop_lengths _ _ _ _ _ _ _ _ _ _ _ Hr).
    destruct (init_df_matched_columns self) as [-> _]. simpl.
    now rewrite repeat_length. }
  destruct (dict_get String.eqb "match_status"%string df_matched) as [cells|] eqn:Ec;
    [|discriminate].
  simpl in Hlen. injection Hlen as Hlen. exists cells. split; [reflexivity|].
  split; [exact Hlen|]. intros x Hx. apply In_nth_error in Hx.
  destruct Hx as [i Hi].
  assert (Hlt : (i < len (df_to self))%nat).
  { rewrite <- Hlen. apply nth_error_Some. congruence. }
  destruct (match_status_domain _ _ _ _ i Hm Hlt) as (s & Hs & Hin).
  unfold at_get in Hs. rewrite Ec, Hi in Hs. now inv_ok Hs.
Qed.

Lemma keys_dict_set_subset {K V} (eqb : K -> K -> bool) (k x : K) (v : V) d :
  In x (keys (dict_set eqb k v d)) -> x = k \/ In x (keys d).
Proof.
  induction d as [|[k0 v0] tl IH]; simpl.
  - intros [<-|[]]. now left.
  - destruct (eqb k0 k); simpl.
    + intros [<-|H]; [right; now left | right; now right].
    + intros [<-|H]; [right; now left|].
      destruct (IH H) as [Hl|Hr]; [now left | right; now right].
Qed.

Lemma value_counts_keys cells k :
  In k (keys (value_counts cells)) -> In k cells.
Proof.
  unfold value_counts. intros H. unfold keys in H. apply in_map_iff in H.
  destruct H as ([k' n] & E & H). simpl in E. subst k'.
  apply (Permutation_in _ (Permutation_sym (sort_desc_perm _ _))) in H.
  assert (Hk : In k (keys (fold_left (fun d v => dict_update pyobj_eqb 0%nat S v d)
                                     cells []))).
  { unfold keys. change k with (fst (k, n)). now apply in_map. }
  revert Hk.
  apply (fold_left_invariant_In
           (fun d : dict pyobj nat => In k (keys d) -> In k cells)).
  - intros d x Hx Hd Hin. unfold dict_update in Hin.
    destruct (dict_get pyobj_eqb x d); apply keys_dict_set_subset in Hin;
      destruct Hin as [->|Hin]; auto.
  - intros [].
Qed.

Lemma dict_get_set_other_name {V} (s name : string) (v : V) d :
  s <> name ->
  dict_get pyobj_eqb (PStr name) (dict_set pyobj_eqb (PStr s) v d)
  = dict_get pyobj_eqb (PStr name) d.
Proof.
  intros Hne. assert (Hs : String.eqb s name = false) by now apply String.eqb_neq.
  induction d as [|[k0 v0] tl IH]; simpl.
  - now rewrite Hs.
  - destruct (pyobj_eqb k0 (PStr s)) eqn:E; simpl.
    + destruct k0; simpl in E; try discriminate.
      apply String.eqb_eq in E. subst s0. simpl. now rewrite Hs.
    + now rewrite IH.
Qed.

Lemma dict_get_counts_other (name : string) (m_stat : dict pyobj nat) :
  forall m_info : dict pyobj info,
  (forall k, In k (keys m_stat) -> exists s, k = PStr s /\ s <> name) ->
  dict_get pyobj_eqb (PStr name)
    (fold_left (fun d (kv : pyobj * nat) =>
                  dict_set pyobj_eqb (fst kv) (Count (snd kv)) d) m_stat m_info)
  = dict_get pyobj_eqb (PStr name) m_info.
Proof.
  induction m_stat as [|[k n] rest IH]; intros m_info H; simpl; [reflexivity|].
  rewrite IH by (intros; apply H; now right).
  destruct (H k (or_introl eq_refl)) as (s & -> & Hne).
  now apply dict_get_set_other_name.
Qed.

Lemma statuses_not_headings x name :
  In x statuses ->
  In name ["Total Match Score"; "Average Match Score"; "Highest Match Score";
           "Lowest Match Score"]%string ->
  exists s, x = PStr s /\ s <> name.
Proof.
  unfold statuses. simpl.
  intros [<-|[<-|[<-|[<-|[<-|[]]]]]] [<-|[<-|[<-|[<-|[]]]]];
    eexists; (split; [reflexivity | discriminate]).
Qed.



(** ** Status counts *)

Lemma dict_get_set_same_name {V} (s : string) (v : V) d :
  dict_get pyobj_eqb (PStr s) (dict_set pyobj_eqb (PStr s) v d) = Some v.
Proof.
  induction d as [|[k0 v0] tl IH]; simpl.
  - now rewrite String.eqb_refl.
  - destruct (pyobj_eqb k0 (PStr s)) eqn:E; simpl; rewrite E; [reflexivity | exact IH].
Qed.

Lemma dict_get_absent_name {V} (s : string) (d : dict pyobj V) :
  all_str (keys d) -> ~ In (PStr s) (keys d) ->
  dict_get pyobj_eqb (PStr s) d = None.
Proof.
  induction d as [|[k0 v0] tl IH]; intros Hstr Hnot; simpl; [reflexivity|].
  destruct (Hstr k0 (or_introl eq_refl)) as [t ->]. simpl.
  destruct (String.eqb t s) eqn:E.
  - apply String.eqb_eq in E. subst t. exfalso. apply Hnot. now left.
  - apply IH.
    + intros x Hx. apply Hstr. now right.
    + intros Hin. apply Hnot. now right.
Qed.

Lemma keys_dict_set_name {V} (t : string) (v : V) (d : dict pyobj V) :
  all_str (keys d) ->
  keys (dict_set pyobj_eqb (PStr t) v d) = keys d
  \/ (keys (dict_set pyobj_eqb (PStr t) v d) = keys d ++ [PStr t]
      /\ ~ In (PStr t) (keys d)).
Proof.
  induction d as [|[k0 v0] tl IH]; intros Hstr; simpl.
  - right. split; [reflexivity | intros []].
  - destruct (Hstr k0 (or_introl eq_refl)) as [u ->]. simpl.
    destruct (String.eqb u t) eqn:E; simpl; [now left|].
    destruct IH as [Hl|[Hr Hnot]].
    + intros x Hx. apply Hstr. now right.
    + left. now rewrite Hl.
    + right. split; [now rewrite Hr|].
      intros [H|H]; [|contradiction]. inv_ok H.
      now rewrite String.eqb_refl in E.
Qed.

Lemma counts_keys cells :
  all_str cells ->
  NoDup (keys (fold_left (fun d v => dict_update pyobj_eqb 0%nat S v d) cells []))
  /\ all_str (keys (fold_left (fun d v => dict_update pyobj_eqb 0%nat S v d)
                              cells [])).
Proof.
  intros Hstr.
  apply (fold_left_invariant_In
           (fun d : dict pyobj nat => NoDup (keys d) /\ all_str (keys d))).
  - intros d x Hx [Hnd Hd]. destruct (Hstr x Hx) as [t ->].
    assert (H : forall v,
               NoDup (keys (dict_set pyobj_eqb (PStr t) v d))
               /\ all_str (keys (dict_set pyobj_eqb (PStr t) v d))).
    { intros v. destruct (keys_dict_set_name t v d Hd) as [->|[-> Hnot]];
        [auto|]. split.
      - apply NoDup_app; [assumption | repeat constructor; intros [] |].
        intros y Hy [<-|[]]. contradiction.
      - intros y Hy. apply in_app_or in Hy.
        destruct Hy as [Hy|[<-|[]]]; [now apply Hd | eauto]. }
    unfold dict_update. destruct (dict_get pyobj_eqb (PStr t) d); apply H.
  - split; [constructor | intros x []].
Qed.

Lemma occurrences_cons v x l :
  occurrences v (x :: l)
  = ((if pyobj_eqb v x then 1 else 0) + occurrences v l)%nat.
Proof. unfold occurrences. simpl. now destruct (pyobj_eqb v x). Qed.

Lemma counts_get (s : string) cells : forall d : dict pyobj nat,
  all_str cells ->
  dict_get pyobj_eqb (PStr s)
    (fold_left (fun d v => dict_update pyobj_eqb 0%nat S v d) cells d)
  = match dict_get pyobj_eqb (PStr s) d, occurrences (PStr s) cells with
    | Some m, c => Some (m + c)%nat
    | None, O => None
    | None, c => Some c
    end.
Proof.
  induction cells as [|x cells IH]; intros d Hstr.
  - unfold occurrences. simpl.
    destruct (dict_get pyobj_eqb (PStr s) d); [f_equal; lia | reflexivity].
  - cbn [fold_left]. rewrite IH by (intros y Hy; apply Hstr; now right).
    destruct (Hstr x (or_introl eq_refl)) as [t ->].
    rewrite occurrences_cons. simpl pyobj_eqb.
    unfold dict_update. destruct (String.eqb s t) eqn:E.
    + apply String.eqb_eq in E. subst t.
      destruct (dict_get pyobj_eqb (PStr s) d) as [m|];
        rewrite dict_get_set_same_name; simpl; f_equal; lia.
    + assert (Hne : t <> s) by (intros ->; now rewrite String.eqb_refl in E).
      destruct (dict_get pyobj_eqb (PStr t) d);
        rewrite (dict_get_set_other_name t s _ d Hne); reflexivity.
Qed.


Lemma dict_get_permutation {V} (s : string) (d d' : dict pyobj V) :
  Permutation d d' -> NoDup (keys d) -> all_str (keys d) ->
  dict_get pyobj_eqb (PStr s) d' = dict_get pyobj_eqb (PStr s) d.
Proof.
  induction 1 as [|[k v] l l' Hp IH|[k1 v1] [k2 v2] l|l l' l'' Hp1 IH1 Hp2 IH2];
    intros Hnd Hstr.
  - reflexivity.
  - simpl. inversion Hnd; subst. rewrite IH; auto.
    intros x Hx. apply Hstr. now right.
  - simpl. destruct (Hstr k1) as [t1 ->]; [right; now left|].
    destruct (Hstr k2) as [t2 ->]; [now left|]. simpl.
    destruct (String.eqb t1 s) eqn:E1; destruct (String.eqb t2 s) eqn:E2;
      try reflexivity.
    apply String.eqb_eq in E1, E2. subst. exfalso.
    inversion Hnd as [|? ? Hnot _]; subst. apply Hnot. now left.
  - rewrite IH2, IH1; auto.
    + eapply Permutation_NoDup; [|exact Hnd]. now apply Permutation_map.
    + intros x Hx. apply Hstr.
      eapply Permutation_in; [|exact Hx]. apply Permutation_sym.
      now apply Permutation_map.
Qed.

Lemma value_counts_get (s : string) cells :
  all_str cells ->
  dict_get pyobj_eqb (PStr s) (value_counts cells)
  = match occurrences (PStr s) cells with
    | O => None
    | c => Some c
    end.
Proof.
  intros Hstr. destruct (counts_keys cells Hstr) as [Hnd Hk].
  unfold value_counts.
  rewrite (dict_get_permutation s _ _ (sort_desc_perm _ _) Hnd Hk).
  now rewrite counts_get.
Qed.

Lemma value_counts_shape cells :
  all_str cells ->
  NoDup (keys (value_counts cells)) /\ all_str (keys (value_counts cells)).
Proof.
  intros Hstr. destruct (counts_keys cells Hstr) as [Hnd Hk].
  unfold value_counts.
  pose proof (Permutation_map fst
                (sort_desc_perm (fun a b : pyobj * nat => (snd a <=? snd b)%nat)
                   (fold_left (fun d v => dict_update pyobj_eqb 0%nat S v d)
                              cells []))) as Hp.
  split.
  - eapply Permutation_NoDup; [exact Hp | exact Hnd].
  - intros x Hx. apply Hk. eapply Permutation_in; [|exact Hx].
    now apply Permutation_sym.
Qed.

Lemma dict_get_merged_counts (s : string) (m_stat : dict pyobj nat) :
  forall m_info : dict pyobj info,
  NoDup (keys m_stat) -> all_str (keys m_stat) ->
  dict_get pyobj_eqb (PStr s)
    (fold_left (fun d (kv : pyobj * nat) =>
                  dict_set pyobj_eqb (fst kv) (Count (snd kv)) d) m_stat m_info)
  = match dict_get pyobj_eqb (PStr s) m_stat with
    | Some n => Some (Count n)
    | None => dict_get pyobj_eqb (PStr s) m_info
    end.
Proof.
  induction m_stat as [|[k n] rest IH]; intros m_info Hnd Hstr; [reflexivity|].
  cbn [fold_left fst snd]. inversion Hnd as [|? ? Hnot Hnd']; subst.
  rewrite IH; [|assumption | intros x Hx; apply Hstr; now right].
  destruct (Hstr k (or_introl eq_refl)) as [t ->].
  cbn [dict_get pyobj_eqb]. destruct (String.eqb t s) eqn:E.
  - apply String.eqb_eq in E. subst t.
    rewrite dict_get_absent_name; [apply dict_get_set_same_name | | exact Hnot].
    intros x Hx. apply Hstr. now right.
  - destruct (dict_get pyobj_eqb (PStr s) rest); [reflexivity|].
    apply dict_get_set_other_name. intros ->. now rewrite String.eqb_refl in E.
Qed.

Lemma status_counts_add_up cells :
  (forall x, In x cells -> In x statuses) ->
  (occurrences MATCHED cells + occurrences REVIEW cells
   + occurrences AMBIGUOUS cells + occurrences UNMATCHED cells
   + occurrences DUPLICATES cells)%nat = List.length cells.
Proof.
  induction cells as [|x cells IH]; intros H; [reflexivity|].
  rewrite !occurrences_cons. cbn [List.length].
  rewrite <- IH by (intros; apply H; now right).
  destruct (H x (or_introl eq_refl)) as [<-|[<-|[<-|[<-|[<-|[]]]]]]; simpl; lia.
Qed.

Lemma statuses_all_str cells :
  (forall x, In x cells -> In x statuses) -> all_str cells.
Proof.
  intros H x Hx. destruct (H x Hx) as [<-|[<-|[<-|[<-|[<-|[]]]]]]; eexists; reflexivity.
Qed.

(** X24: the summary [match] returns holds, for each of the five statuses,
    the number of rows of the returned table that carry it, and no entry
    for a status no row carries; these counts add up to the number of
    target rows; and Total Match Score is 0 when no row is MATCHED and
    otherwise the share of MATCHED rows among the target rows, in percent,
    rounded to 2 decimals. *)
Theorem summary_counts_statuses WRatio self df_matched m_info :
  match_ WRatio self = Ok (df_matched, m_info) ->
  exists cells,
    dict_get String.eqb "match_status"%string df_matched = Some cells
    /\ (forall s, In s statuses ->
                  dict_get pyobj_eqb s m_info
                  = match occurrences s cells with
                    | O => None
                    | n => Some (Count n)
                    end)
    /\ (occurrences MATCHED cells + occurrences REVIEW cells
        + occurrences AMBIGUOUS cells + occurrences UNMATCHED cells
        + occurrences DUPLICATES cells)%nat = len (df_to self)
    /\ dict_get pyobj_eqb (PStr "Total Match Score") m_info
       = Some (Percent
                 match occurrences MATCHED cells with
                 | O => PInt 0
                 | n => PFloat (py_round
                                  (inject_Z (Z.of_nat n)
                                   / inject_Z (Z.of_nat (len (df_to self))) * 100) 2)
                 end).
Proof.
  intros Hm.
  destruct (match_status_column _ _ _ _ Hm) as (cells & Hc & Hlen & Hdom).
  exists cells. split; [exact Hc|].
  pose proof (statuses_all_str cells Hdom) as Hstr.
  destruct (value_counts_shape cells Hstr) as [Hnd Hk].
  destruct (match_spec _ _ _ _ Hm) as (df_rows & scores & idx & dupes & _ & _ & _ & Hs).
  unfold summary, getitem in Hs. rewrite Hc in Hs. cbn [bind] in Hs.
  inv_bind Hs. injection Hs as <-.
  split; [|split].
  - intros s Hin.
    assert (Hs' : exists t, s = PStr t
                            /\ dict_get pyobj_eqb (PStr t)
                                 [(PStr "Total Match Score", Percent a);
                                  (PStr "Average Match Score",
                                   Percent match scores with
                                           | [] => PInt 0
                                           | _ :: _ =>
                                               PFloat
                                                 (py_round
                                                    (py_sum scores
                                                     / inject_Z
                                                         (Z.of_nat (List.length scores)))
                                                    2)
                                           end);
                                  (PStr "Highest Match Score",
                                   Percent match scores with
                                           | [] => PInt (-1)
                                           | x :: tl => PFloat (py_round (py_max x tl) 2)
                                           end);
                                  (PStr "Lowest Match Score",
                                   Percent match scores with
                                           | [] => PInt (-1)
                                           | x :: tl => PFloat (py_round (py_min x tl) 2)
                                           end)] = None).
    { destruct Hin as [<-|[<-|[<-|[<-|[<-|[]]]]]]; eexists; split; reflexivity. }
    destruct Hs' as (t & -> & Hnone).
    rewrite (dict_get_merged_counts t _ _ Hnd Hk), value_counts_get by assumption.
    destruct (occurrences (PStr t) cells); [exact Hnone | reflexivity].
  - rewrite <- Hlen. now apply status_counts_add_up.
  - rewrite dict_get_counts_other.
    + cbn [dict_get pyobj_eqb String.eqb Ascii.eqb Bool.eqb]. f_equal. f_equal.
      change MATCHED with (PStr "MATCHED") in Hbind.
      rewrite value_counts_get in Hbind by assumption.
      change (PStr "MATCHED") with MATCHED in Hbind.
      destruct (occurrences MATCHED cells) as [|n]; [now inv_ok Hbind|].
      inv_bind Hbind. inv_ok Hbind. unfold py_div in Hbind0.
      destruct (len (df_to self)); [discriminate|]. now inv_ok Hbind0.
    + intros k Hk'. apply statuses_not_headings; [|simpl; tauto].
      apply Hdom. now apply value_counts_keys.
Qed.

Lemma summary_counts_statuses_witness :
  exists cells,
    dict_get String.eqb "match_status"%string (fst demo_matched) = Some cells
    /\ (forall s, In s statuses ->
                  dict_get pyobj_eqb s (snd demo_matched)
                  = match occurrences s cells with
                    | O => None
                    | n => Some (Count n)
                    end)
    /\ (occurrences MATCHED cells + occurrences REVIEW cells
        + occurrences AMBIGUOUS cells + occurrences UNMATCHED cells
        + occurrences DUPLICATES cells)%nat = len (df_to demo)
    /\ dict_get pyobj_eqb (PStr "Total Match Score") (snd demo_matched)
       = Some (Percent
                 match occurrences MATCHED cells with
                 | O => PInt 0
                 | n => PFloat (py_round
                                  (inject_Z (Z.of_nat n)
                                   / inject_Z (Z.of_nat (len (df_to demo))) * 100) 2)
                 end).
Proof.
  apply (summary_counts_statuses exact_ratio demo). reflexivity.
Defined.

(** ** Fetched columns *)

Lemma init_df_matched_fetched self i c :
  In c (columns_to_get self) -> (i < len (df_to self))%nat ->
  c <> "match_status"%string -> c <> "row_index"%string ->
  c <> "match_score"%string ->
  at_get (init_df_matched self) i c = fetched_cell self i c.
Proof.
  intros Hc Hi H1 H2 H3. unfold fetched_cell.
  destruct (has_column c (df_to self)) eqn:Hto.
  - destruct (has_column_get _ _ Hto) as [cells Hcells].
    unfold at_get. rewrite (init_df_matched_target self c cells Hcells H1 H2 H3).
    rewrite Hcells. apply nth_error_map.
  - unfold init_df_matched. rewrite !at_get_set_column_other by congruence.
    set (df0 := map (fun col : string * list string => (fst col, map PStr (snd col)))
                    (df_to self)).
    assert (H0 : len df0 = len (df_to self)).
    { unfold df0. destruct (df_to self) as [|[k cells] tl]; simpl; [reflexivity|].
      apply length_map. }
    assert (Hno : has_column c df0 = false).
    { unfold has_column, dict_mem, df0 in *. rewrite dict_get_map_cells.
      destruct (dict_get String.eqb c (df_to self)); [discriminate | reflexivity]. }
    rewrite <- H0 in Hi. clear H0 Hto. clearbody df0. revert df0 Hi Hno.
    induction (columns_to_get self) as [|g gs IH]; intros df Hi Hno;
      [destruct Hc|].
    cbn [fold_left].
    destruct (String.eqb g c) eqn:E.
    + apply String.eqb_eq in E. subst g. rewrite Hno.
      assert (Hkeep : forall cols df1,
                 at_get df1 i c = Some blank ->
                 at_get (fold_left (fun df column =>
                                      if has_column column df then df
                                      else set_column df column blank) cols df1) i c
                 = Some blank).
      { clear. induction cols as [|g cols IHc]; intros df1 H; simpl; [exact H|].
        apply IHc. destruct (has_column g df1) eqn:Hg; [exact H|].
        rewrite at_get_set_column_other; [exact H|].
        intros ->. unfold has_column, dict_mem, at_get in *.
        destruct (dict_get String.eqb c df1); discriminate. }
      apply Hkeep. now apply at_get_set_column_same.
    + destruct Hc as [->|Hc]; [now rewrite String.eqb_refl in E|].
      apply IH; [assumption | |].
      * destruct (has_column g df); [assumption | now rewrite len_set_column].
      * destruct (has_column g df); [assumption|].
        unfold has_column, dict_mem. rewrite dict_get_set_column, E. exact Hno.
Qed.

Section Fetch.
Variable WRatio : string -> string -> Q.
Variable self : PandasMatcher.
Variable choices : dict string (list string).
Variable uniqueness : dict string Q.
Variable optimal_threshold : Q.

Lemma copy_columns_cells index_from j cols c : forall df df',
  foldM (fun df column =>
           match at_get (df_from self) index_from column with
           | Some v => Ok (at_set df j column (PStr v))
           | None => Raise (KeyError column)
           end) cols df = Ok df' ->
  in_range df j c ->
  (In c cols -> exists v, at_get (df_from self) index_from c = Some v
                          /\ at_get df' j c = Some (PStr v))
  /\ (~ In c cols -> at_get df' j c = at_get df j c).
Proof.
  induction cols as [|col cols IH]; intros df df' H Hr; cbn [foldM] in H.
  - inv_ok H. split; [intros [] | reflexivity].
  - inv_bind H.
    destruct (at_get (df_from self) index_from col) as [v0|] eqn:Ev; [|discriminate].
    inv_ok Hbind.
    destruct (IH _ _ H (in_range_at_set _ _ _ j col (PStr v0) Hr)) as [I1 I2].
    split.
    + intros Hin. destruct (in_dec string_dec c cols) as [Hc|Hc]; [auto|].
      destruct Hin as [->|Hin]; [|contradiction].
      exists v0. split; [assumption|]. rewrite (I2 Hc).
      now apply at_get_at_set_same.
    + intros Hnot. rewrite I2 by (intros Hin; apply Hnot; now right).
      apply at_get_at_set_col. intros ->. apply Hnot. now left.
Qed.

Lemma match_row_fetch df sc j df' sc' ms c :
  match_row WRatio self choices uniqueness optimal_threshold (df, sc) j
  = Ok (df', sc') ->
  _compute_score WRatio self choices j uniqueness = Ok ms ->
  In c (columns_to_get self) ->
  c <> "match_status"%string -> c <> "row_index"%string ->
  c <> "match_score"%string ->
  in_range df j c ->
  match _top_matches self ms optimal_threshold with
  | [(k, _)] => exists v, at_get (df_from self) k c = Some v
                          /\ at_get df' j c = Some (PStr v)
  | _ => at_get df' j c = at_get df j c
  end.
Proof.
  unfold match_row. intros H Hms Hc H1 H2 H3 Hr. rewrite Hms in H.
  cbn [bind] in H. cbv zeta in H. simpl fst in H. simpl snd in H.
  destruct (_top_matches self ms optimal_threshold) as [|[k t] [|p rest]].
  - inv_ok H. now apply at_get_at_set_col.
  - inv_bind H. inv_ok H. rewrite !at_get_at_set_col by assumption.
    destruct (copy_columns_cells _ _ _ c _ _ Hbind Hr) as [Hin _]. auto.
  - inv_ok H. now rewrite !at_get_at_set_col by assumption.
Qed.

Lemma match_loop_frame l : forall df sc df' sc',
  foldM (match_row WRatio self choices uniqueness optimal_threshold) l (df, sc)
  = Ok (df', sc') ->
  forall i c, ~ In i l -> at_get df' i c = at_get df i c.
Proof.
  induction l as [|j l IH]; intros df sc df' sc' H i c Hi; cbn [foldM] in H.
  - now inv_ok H.
  - inv_bind H. destruct a as [df1 sc1].
    rewrite (IH _ _ _ _ H i c) by (intros Hin; apply Hi; now right).
    destruct (match_row_frame _ _ _ _ _ _ _ _ _ _ Hbind) as [Hf _].
    apply Hf. intros ->. apply Hi. now left.
Qed.

Lemma match_loop_locate l : forall df sc df' sc' i,
  foldM (match_row WRatio self choices uniqueness optimal_threshold) l (df, sc)
  = Ok (df', sc') ->
  NoDup l -> In i l ->
  exists dfa sca dfb scb,
    match_row WRatio self choices uniqueness optimal_threshold (dfa, sca) i
    = Ok (dfb, scb)
    /\ (forall c, at_get dfa i c = at_get df i c)
    /\ (forall c, at_get df' i c = at_get dfb i c).
Proof.
  induction l as [|j l IH]; intros df sc df' sc' i H Hnd Hi; [destruct Hi|].
  cbn [foldM] in H. inv_bind H. destruct a as [df1 sc1].
  inversion Hnd as [|? ? Hj Hnd']; subst.
  destruct (in_dec Nat.eq_dec i l) as [Hil|Hil].
  - destruct (IH _ _ _ _ i H Hnd' Hil) as (dfa & sca & dfb & scb & Hrow & Ha & Hb).
    exists dfa, sca, dfb, scb. split; [assumption|]. split; [|assumption].
    intros c. rewrite Ha.
    destruct (match_row_frame _ _ _ _ _ _ _ _ _ _ Hbind) as [Hf _].
    apply Hf. intros ->. contradiction.
  - destruct Hi as [->|Hi]; [|contradiction].
    exists df, sc, df1, sc1. split; [assumption|]. split; [reflexivity|].
    intros c. now apply (match_loop_frame _ _ _ _ _ H).
Qed.
End Fetch.

(** X25: in the table [match] returns, a row with exactly one top match
    holds, in every column to fetch, the cell of the matched reference row,
    its [row_index] is the reference position plus 2 and its [match_score]
    the composite score; a row with no top match or with several keeps in
    the columns to fetch what it held before the loop. *)
Theorem match_fetches_reference_cells WRatio self df_matched m_info
        uniqueness optimal_threshold choices i ms c :
  match_ WRatio self = Ok (df_matched, m_info) ->
  prepared self uniqueness optimal_threshold choices ->
  wf_df (df_to self) ->
  (i < len (df_to self))%nat ->
  _compute_score WRatio self choices i uniqueness = Ok ms ->
  In c (columns_to_get self) ->
  c <> "match_status"%string -> c <> "row_index"%string ->
  c <> "match_score"%string ->
  match _top_matches self ms optimal_threshold with
  | [(k, top)] =>
      (exists v, at_get (df_from self) k c = Some v
                 /\ at_get df_matched i c = Some (PStr v))
      /\ at_get df_matched i "row_index" = Some (PInt (Z.of_nat k + 2))
      /\ at_get df_matched i "match_score" = Some (PFloat (match_score top))
  | _ => at_get df_matched i c = fetched_cell self i c
  end.
Proof.
  intros Hm Hp Hwf Hi Hms Hc H1 H2 H3.
  destruct (match_row_final _ _ _ _ _ _ _ _ _ Hm Hp Hi Hms)
    as (df_rows & scores & idx & dupes & cells & Hr & Hd & _ & _ & _
        & Hri & Hsc & _).
  destruct (match_spec _ _ _ _ Hm) as (df_rows' & scores' & idx' & dupes' & Hr' & Hd' & E & _).
  rewrite Hr in Hr'. inv_ok Hr'. rewrite Hd in Hd'. inv_ok Hd'.
  destruct Hp as (Hu & Ho & Hch).
  unfold match_rows in Hr. rewrite Hu in Hr. cbn [bind] in Hr.
  rewrite Ho in Hr. cbn [bind] in Hr. rewrite Hch in Hr. cbn [bind] in Hr.
  destruct (match_loop_locate _ _ _ _ _ _ _ _ _ _ i Hr (seq_NoDup _ _))
    as (dfa & sca & dfb & scb & Hrow & Ha & Hb); [apply in_seq; lia|].
  assert (Hinit : at_get dfa i c = fetched_cell self i c).
  { rewrite Ha. now apply init_df_matched_fetched. }
  assert (Hrange : in_range dfa i c).
  { apply at_get_in_range. rewrite Hinit. unfold fetched_cell.
    destruct (has_column c (df_to self)) eqn:Hto; [|eauto].
    destruct (has_column_get _ _ Hto) as [col Hcol].
    unfold at_get. rewrite Hcol.
    pose proof (wf_df_column _ _ _ Hwf Hcol) as Hl.
    destruct (nth_error col i) eqn:En; [simpl; eauto|].
    apply nth_error_None in En. lia. }
  pose proof (match_row_fetch _ _ _ _ _ _ _ _ _ _ _ c Hrow Hms Hc H1 H2 H3 Hrange)
    as Hfetch.
  assert (Hfinal : at_get (loc_set df_rows' idx' "match_status" DUPLICATES) i c
                   = at_get dfb i c).
  { rewrite at_get_loc_set_col by assumption. apply Hb. }
  destruct (_top_matches self ms optimal_threshold) as [|[k t] [|p rest]].
  - now rewrite Hfinal, Hfetch.
  - destruct Hfetch as (v & Hv & Hcell). split; [|split].
    + exists v. split; [assumption|]. now rewrite Hfinal.
    + exact Hri.
    + exact Hsc.
  - now rewrite Hfinal, Hfetch.
Qed.

Lemma match_fetches_reference_cells_witness :
  (exists v, at_get (df_from lenient) 2 "city" = Some v
             /\ at_get (fst lenient_matched) 0 "city" = Some (PStr v))
  /\ at_get (fst lenient_matched) 0 "row_index" = Some (PInt (Z.of_nat 2 + 2))
  /\ at_get (fst lenient_matched) 0 "match_score" = Some (PFloat (97200 # 1296)).
Proof.
  refine (match_fetches_reference_cells exact_ratio lenient (fst lenient_matched)
            (snd lenient_matched) lenient_uniqueness lenient_optimal
            lenient_choices 0%nat lenient_row_scores "city"%string
            _ _ _ _ _ _ _ _ _).
  - reflexivity.
  - repeat split; reflexivity.
  - repeat constructor.
  - simpl. lia.
  - reflexivity.
  - simpl. auto.
  - discriminate.
  - discriminate.
  - discriminate.
Defined.

(** ** The score cutoff *)

Section Cutoff.
Variable WRatio : string -> string -> Q.

Lemma extract_In v (query : list (nat * string)) limit score_cutoff m :
  In m (extract WRatio v query limit score_cutoff) ->
  exists kc, In kc query /\ m = (snd kc, WRatio v (snd kc), fst kc)
             /\ score_cutoff <= WRatio v (snd kc).
Proof.
  unfold extract. intros H. apply In_firstn in H.
  apply (Permutation_in _ (Permutation_sym (sort_desc_perm _ _))) in H.
  apply filter_In in H. destruct H as [H Hcut].
  apply in_map_iff in H. destruct H as (kc & <- & Hkc).
  exists kc. split; [assumption|]. split; [reflexivity|].
  simpl in Hcut. now apply Qle_bool_iff.
Qed.

Lemma take_In (choice : list string) indices query p s :
  take choice indices = Ok query -> In (p, s) query -> nth_error choice p = Some s.
Proof.
  unfold take. revert query.
  induction indices as [|q indices IH]; intros query H Hin; cbn [mapM] in H.
  - inv_ok H. destruct Hin.
  - inv_bind H. inv_bind H. inv_ok H.
    destruct (nth_error choice q) as [s0|] eqn:E; [|discriminate]. inv_ok Hbind.
    destruct Hin as [Heq|Hin]; [inv_ok Heq; assumption | eauto].
Qed.

Lemma candidate_query_In (choice : list string) indices query p s :
  candidate_query choice indices = Ok query -> In (p, s) query ->
  nth_error choice p = Some s.
Proof.
  intros H Hin. unfold candidate_query in H. inv_bind H. inv_ok H.
  destruct a as [|kc q].
  - unfold items in Hin. apply In_combine_seq in Hin. destruct Hin as [_ Hn].
    now rewrite Nat.sub_0_r in Hn.
  - eapply take_In; eauto.
Qed.

Lemma accumulate_keys_inv uniqueness column_to matches : forall acc acc',
  accumulate uniqueness column_to matches acc = Ok acc' ->
  forall p, In p (keys acc') ->
            In p (keys acc) \/ exists m, In m matches /\ snd m = p.
Proof.
  unfold accumulate. induction matches as [|m matches IH]; intros acc acc' H p Hp;
    cbn [foldM] in H.
  - inv_ok H. now left.
  - inv_bind H. inv_bind Hbind. inv_ok Hbind.
    destruct (IH _ _ H p Hp) as [Hin|(m' & Hm' & E)].
    + apply keys_dict_update_inv in Hin. destruct Hin as [->|Hin]; auto.
      right. exists m. split; [now left | reflexivity].
    + right. exists m'. split; [now right | assumption].
Qed.

Lemma score_column_keys_inv self choices uniqueness row_to indices acc item acc' :
  score_column WRatio self choices uniqueness row_to indices acc item = Ok acc' ->
  forall p, In p (keys acc') ->
            In p (keys acc) \/ scored_in WRatio self choices row_to p item.
Proof.
  unfold score_column, scored_in. intros H p Hp.
  destruct (snd item) as [|c cs]; [inv_ok H; now left|].
  inv_bind H. inv_bind H. inv_bind H.
  destruct (accumulate_keys_inv _ _ _ _ _ H p Hp) as [Hin|(m & Hm & <-)];
    [now left | right].
  split; [discriminate|].
  apply extract_In in Hm. destruct Hm as ([q cell] & Hq & -> & Hcut).
  unfold row_get in Hbind. unfold series_get in Hbind0.
  destruct (dict_get String.eqb (fst item) row_to) as [v|]; [|discriminate].
  destruct (dict_get String.eqb (fst item) choices) as [choice|]; [|discriminate].
  inv_ok Hbind. inv_ok Hbind0.
  exists a, a0, cell. repeat split; auto.
  - simpl. eapply candidate_query_In; eauto.
  - simpl in *. unfold cutoff_of. destruct (cutoff self); assumption.
Qed.

Lemma score_columns_keys_inv self choices uniqueness row_to indices its :
  forall acc ms,
  foldM (score_column WRatio self choices uniqueness row_to indices) its acc = Ok ms ->
  forall p, In p (keys ms) ->
            In p (keys acc)
            \/ exists item, In item its
                            /\ scored_in WRatio self choices row_to p item.
Proof.
  induction its as [|item its IH]; intros acc ms H p Hp; cbn [foldM] in H.
  - inv_ok H. now left.
  - inv_bind H. destruct (IH _ _ H p Hp) as [Hin|(it & Hit & Hs)].
    + destruct (score_column_keys_inv _ _ _ _ _ _ _ _ Hbind p Hin) as [Hl|Hr];
        [now left | right].
      exists item. split; [now left | assumption].
    + right. exists it. split; [now right | assumption].
Qed.
End Cutoff.

(** X26: a reference row receives a composite score for a target row only if
    some mapped column scored it: the row's cell in that column's choices,
    compared with the target row's cell, reached the cutoff, which is the
    column's threshold when [cutoff] is set and 0 otherwise. *)
Theorem scored_rows_reach_the_cutoff WRatio self choices uniqueness index_to
        match_scores index_from :
  _compute_score WRatio self choices index_to uniqueness = Ok match_scores ->
  In index_from (keys match_scores) ->
  exists row_to item,
    iloc (df_to self) index_to = Ok row_to
    /\ In item (columns_to_match self)
    /\ scored_in WRatio self choices row_to index_from item.
Proof.
  intros H Hin. unfold _compute_score in H. inv_bind H. inv_bind H.
  destruct (score_columns_keys_inv _ _ _ _ _ _ _ _ _ H _ Hin) as [[]|(item & Hit & Hs)].
  exists a, item. auto.
Qed.

Lemma scored_rows_reach_the_cutoff_witness :
  exists row_to item,
    iloc (df_to strict) 0 = Ok row_to
    /\ In item (columns_to_match strict)
    /\ scored_in exact_ratio strict lenient_choices row_to 2 item.
Proof.
  apply (scored_rows_reach_the_cutoff exact_ratio strict lenient_choices
                                      lenient_uniqueness 0%nat strict_row_scores).
  - reflexivity.
  - simpl. auto.
Defined.

(** ** Spreadsheet files *)

(** X27: a path [to_spreadsheet] reports as exported has an extension that
    [read_spreadsheet] recognises, and that extension is not [.xls], which
    is read but never written. *)
Theorem exported_file_is_importable
        (splitext : string -> string * string) (basename abspath : string -> string)
        (read_excel read_csv read_table : string -> DataFrame string + string)
        (to_excel : DataFrame string -> string -> option string)
        (to_csv : DataFrame string -> string -> string -> option string)
        (df : DataFrame string) (filepath : string) :
  fst (to_spreadsheet splitext abspath to_excel to_csv df filepath) = true ->
  snd (splitext filepath) <> ".xls"%string
  /\ snd (read_spreadsheet splitext basename read_excel read_csv read_table filepath)
     <> not_imported (snd (splitext filepath)).
Proof.
  unfold to_spreadsheet, read_spreadsheet, not_imported.
  set (ext := snd (splitext filepath)). cbv zeta. cbn [existsb].
  intros H. split.
  - intros E. rewrite E in H. simpl in H. discriminate.
  - destruct (String.eqb ext ".xls"%string) eqn:E0; cbn [orb].
    { destruct (read_excel filepath); simpl; discriminate. }
    destruct (String.eqb ext ".ods"%string) eqn:E1;
      destruct (String.eqb ext ".xlsx"%string) eqn:E2;
      destruct (String.eqb ext ".xlsm"%string) eqn:E3;
      destruct (String.eqb ext ".xlsb"%string) eqn:E4; cbn [orb] in *;
      try (destruct (read_excel filepath); simpl; discriminate).
    destruct (String.eqb ext ".csv"%string) eqn:E5;
      [destruct (read_csv filepath); simpl; discriminate|].
    destruct (String.eqb ext ".tsv"%string) eqn:E6;
      [destruct (read_table filepath); simpl; discriminate|].
    simpl in H. discriminate.
Qed.

Lemma exported_file_is_importable_witness :
  snd (csv_only "table.csv"%string) <> ".xls"%string
  /\ snd (read_spreadsheet csv_only (fun p => p) no_table no_table no_table
                           "table.csv"%string)
     <> not_imported (snd (csv_only "table.csv"%string)).
Proof.
  apply (exported_file_is_importable csv_only (fun p => p) (fun p => p)
           no_table no_table no_table refused written [] "table.csv"%string).
  reflexivity.
Defined.

(** ** Input verification *)

(** X28: [will_it_int] answers [True] exactly for the responses [int]
    accepts, and the pair it answers for the others is itself a true value:
    no response makes it return something Python reads as false. *)
Theorem will_it_int_is_never_false int_accepts response :
  (will_it_int int_accepts response = Plain true <-> int_accepts response = true)
  /\ truth (will_it_int int_accepts response) = true.
Proof.
  unfold will_it_int. destruct (int_accepts response); split;
    try reflexivity; split; intros H; try reflexivity; discriminate.
Qed.
